(** * The ESS data-analysis website: the browser script and the analysis engine

    Part I embeds the program.  The browser script [script.js] is embedded
    function by function: the chat ([sendMessage], [addMessageToChat]), the
    loader ([loadData]), the chart payload builders ([createCharts],
    [createDistributionCharts], [createCountryCharts],
    [createDemographicsCharts], [createScatterPlot]), the analysis panel
    ([performAnalysis] and the four functions it calls), the tabs
    ([initializeTabs]) and the listeners of the mobile menu
    ([initializeNavigation]).  The analysis engine ([backend.py]) is not
    among the sources; the parts of it that are needed are modelled from the
    written specification and are marked as such.

    Part II states and proves the main properties, Part III further
    properties of the script. *)

From Stdlib Require Import List String Ascii Bool Arith ZArith Lia DecimalString.
From Stdlib Require Import QArith Qcanon Reals Qreals Lra Psatz Permutation.
Import ListNotations.

Set Implicit Arguments.
Set Warnings "-register-all,-abstract-large-number".

(* ================================================================== *)
(** * Part I.  The program *)
(* ================================================================== *)

(** ** JavaScript values and completions *)

Module JS.

Local Open Scope string_scope.

(** A JavaScript value as the script meets it: what [JSON.parse] builds, plus
    [undefined] (the result of reading an absent property).  Numbers are
    exact rationals; an object is its list of own properties in enumeration
    order. *)
Inductive JSValue : Type :=
| VUndefined
| VNull
| VBool (b : bool)
| VNum (q : Qc)
| VStr (s : string)
| VArr (items : list JSValue)
| VObj (props : list (string * JSValue)).

(** A thrown value: every fault of the script is an [Error] object, of which
    only [message] is read. *)
Record JSError : Type := Error { message : string }.

(** The outcome of running a piece of script from a state [S]: the state is
    kept when an exception is thrown, as effects done before a [throw] are
    not undone. *)
Inductive Outcome (S A : Type) : Type :=
| Returns (s : S) (a : A)
| Throws (s : S) (e : JSError).

Arguments Returns {S A} s a.
Arguments Throws {S A} s e.

Definition M (S A : Type) : Type := S -> Outcome S A.

Definition ret {S A} (a : A) : M S A := fun s => Returns s a.

Definition bind {S A B} (m : M S A) (k : A -> M S B) : M S B :=
  fun s => match m s with
           | Returns s' a => k a s'
           | Throws s' e => Throws s' e
           end.

Definition throw {S A} (e : JSError) : M S A := fun s => Throws s e.

(** [try { body } catch (error) { handler }] *)
Definition try_catch {S A} (body : M S A) (handler : JSError -> M S A) : M S A :=
  fun s => match body s with
           | Returns s' a => Returns s' a
           | Throws s' e => handler e s'
           end.

(** A statement that only changes the state. *)
Definition modify {S} (f : S -> S) : M S unit := fun s => Returns (f s) tt.

Definition gets {S A} (f : S -> A) : M S A := fun s => Returns s (f s).

Definition final_state {S A} (o : Outcome S A) : S :=
  match o with Returns s _ => s | Throws s _ => s end.

Definition returns_normally {S A} (o : Outcome S A) : bool :=
  match o with Returns _ _ => true | Throws _ _ => false end.

(** Own-property lookup in a property list. *)
Fixpoint lookup (k : string) (props : list (string * JSValue)) : option JSValue :=
  match props with
  | [] => None
  | (k', v) :: rest => if String.eqb k k' then Some v else lookup k rest
  end.

(** [v.k] for the keys the script reads from a parsed reply ([response],
    [data]), neither of which is a property of a prototype object.  There is
    nothing to read from [null] or [undefined]; a primitive or an array has
    no such property, which reads as [undefined]; an object gives its own
    property or [undefined]. *)
Definition read (v : JSValue) (k : string) : option JSValue :=
  match v with
  | VUndefined | VNull => None
  | VObj props => Some (match lookup k props with Some x => x | None => VUndefined end)
  | _ => Some VUndefined
  end.

(** The read as a statement: where there is nothing to read from, it throws a
    [TypeError], whose message text is the browser's. *)
Definition get_prop {S} (type_error : string) (v : JSValue) (k : string) : M S JSValue :=
  match read v k with
  | None => throw (Error type_error)
  | Some x => ret x
  end.

(** Truthiness ([!v] is its negation). *)
Definition truthy (v : JSValue) : bool :=
  match v with
  | VUndefined | VNull => false
  | VBool b => b
  | VNum q => negb (Qc_eq_bool q 0)
  | VStr s => negb (String.eqb s EmptyString)
  | VArr _ | VObj _ => true
  end.

(** [String.prototype.trim]: white space and line terminators are removed at
    both ends.  Characters are code units below 256, among which the white
    space ones are TAB, LF, VT, FF, CR, SP and NBSP. *)
Definition is_white_space (c : ascii) : bool :=
  let n := nat_of_ascii c in
  (Nat.eqb n 9 || Nat.eqb n 10 || Nat.eqb n 11 || Nat.eqb n 12
   || Nat.eqb n 13 || Nat.eqb n 32 || Nat.eqb n 160)%bool.

Fixpoint trim_start (s : string) : string :=
  match s with
  | EmptyString => EmptyString
  | String c rest => if is_white_space c then trim_start rest else s
  end.

(** The string without its trailing white space: a white-space character is
    kept exactly when something is kept after it. *)
Fixpoint trim_end (s : string) : string :=
  match s with
  | EmptyString => EmptyString
  | String c rest =>
      match trim_end rest with
      | EmptyString => if is_white_space c then EmptyString else String c EmptyString
      | kept => String c kept
      end
  end.

Definition trim (s : string) : string := trim_end (trim_start s).

(** The double-quote character, as a string. *)
Definition dquote : string := String (ascii_of_nat 34) EmptyString.

(** [Array.prototype.join] on strings already converted. *)
Fixpoint join (sep : string) (parts : list string) : string :=
  match parts with
  | [] => EmptyString
  | [p] => p
  | p :: rest => p ++ sep ++ join sep rest
  end.

Section ToString.

(** [Number::toString], the platform's. *)
Variable number_to_string : Qc -> string.

(** The conversion a template literal applies to an interpolated value. *)
Fixpoint to_string (v : JSValue) : string :=
  match v with
  | VUndefined => "undefined"
  | VNull => "null"
  | VBool true => "true"
  | VBool false => "false"
  | VNum q => number_to_string q
  | VStr s => s
  | VArr items =>
      join "," (map (fun x => match x with
                              | VUndefined | VNull => EmptyString
                              | _ => to_string x
                              end) items)
  | VObj _ => "[object Object]"
  end.

End ToString.

(** *** The Fetch API, as far as the script uses it *)

(** [response.json()] either rejects or resolves with the parsed body. *)
Inductive JsonResult : Type :=
| JsonRejects (e : JSError)
| JsonResolves (v : JSValue).

Record Response : Type := {
  status : Z;
  json : JsonResult
}.

(** [response.ok]: the status is in the range 200 to 299. *)
Definition ok (r : Response) : bool :=
  ((200 <=? status r) && (status r <=? 299))%Z.

(** [fetch] either rejects (network failure) or resolves with a response. *)
Inductive FetchResult : Type :=
| FetchRejects (e : JSError)
| FetchResolves (r : Response).

(** [await fetch(...)], given what the server did with the request *)
Definition await_fetch {S} (result : FetchResult) : M S Response :=
  match result with
  | FetchRejects e => throw e
  | FetchResolves r => ret r
  end.

(** [await response.json()] *)
Definition await_json {S} (r : Response) : M S JSValue :=
  match json r with
  | JsonRejects e => throw e
  | JsonResolves v => ret v
  end.

Module Notations.
Notation "x <- m ;; k" := (bind m (fun x => k))
    (at level 61, m at next level, right associativity).
Notation "m ;;; k" := (bind m (fun _ => k))
    (at level 61, right associativity).
End Notations.

End JS.

(** ** The chat: [initializeChat]'s handler [sendMessage] and [addMessageToChat] *)

Module Chat.

Import JS JS.Notations.
Local Open Scope string_scope.

Definition API_BASE_URL : string := "http://localhost:3000".

(** The [div] that [addMessageToChat] builds. *)
Record MessageDiv : Type := {
  className : string;
  avatar_innerHTML : string;
  content_innerHTML : string
}.

(** What is handed to [fetch]; [body] is the value given to
    [JSON.stringify]. *)
Record Request : Type := {
  url : string;
  method : string;
  headers : list (string * string);
  body : JSValue
}.

(** The part of the world the chat reads and writes: the text field
    [chat-input-field], the selector [research-depth], the children of
    [chat-messages] in document order, whether that box is scrolled to its
    end, what was written with [console.error], and the requests handed to
    [fetch].  The three elements are those of the page and are present. *)
Record Page : Type := {
  chat_input_field : string;
  research_depth : string;
  chat_messages : list MessageDiv;
  scrolled_to_end : bool;
  console_error : list (string * JSError);
  requests : list Request
}.

Definition error_reply : string :=
  "Sorry, I encountered an error. Please try again. You may need to check if the backend is running.".

Section SendMessage.

(** The world outside the script: the server behind [fetch], and two texts
    the browser chooses. *)
Variable fetch : Request -> FetchResult.
Variable number_to_string : Qc -> string.
Variable type_error_message : string.

Definition message_div (sender : string) (content : JSValue) : MessageDiv :=
  {| className := "message " ++ sender ++ "-message";
     avatar_innerHTML :=
       if String.eqb sender "ai"
       then "<i class=" ++ dquote ++ "fas fa-robot" ++ dquote ++ "></i>"
       else "<i class=" ++ dquote ++ "fas fa-user" ++ dquote ++ "></i>";
     content_innerHTML := "<p>" ++ to_string number_to_string content ++ "</p>" |}.

Definition addMessageToChat (sender : string) (content : JSValue) : M Page unit :=
  modify (fun p =>
    {| chat_input_field := chat_input_field p;
       research_depth := research_depth p;
       chat_messages := chat_messages p ++ [message_div sender content];
       scrolled_to_end := true;
       console_error := console_error p;
       requests := requests p |}).

Definition clear_input : M Page unit :=
  modify (fun p =>
    {| chat_input_field := EmptyString;
       research_depth := research_depth p;
       chat_messages := chat_messages p;
       scrolled_to_end := scrolled_to_end p;
       console_error := console_error p;
       requests := requests p |}).

Definition console_error_log (label : string) (e : JSError) : M Page unit :=
  modify (fun p =>
    {| chat_input_field := chat_input_field p;
       research_depth := research_depth p;
       chat_messages := chat_messages p;
       scrolled_to_end := scrolled_to_end p;
       console_error := console_error p ++ [(label, e)];
       requests := requests p |}).

(** [await fetch(url, options)]: the request goes out, and the server's
    answer comes back. *)
Definition send (rq : Request) : M Page Response :=
  modify (fun p =>
    {| chat_input_field := chat_input_field p;
       research_depth := research_depth p;
       chat_messages := chat_messages p;
       scrolled_to_end := scrolled_to_end p;
       console_error := console_error p;
       requests := requests p ++ [rq] |}) ;;;
  await_fetch (fetch rq).

(** The request [sendMessage] builds. *)
Definition ai_request (message researchDepth : string) : Request :=
  {| url := API_BASE_URL ++ "/api/ai-assistant";
     method := "POST";
     headers := [("Content-Type", "application/json")];
     body := VObj [("message", VStr message);
                   ("research_depth", VStr researchDepth)] |}.

Definition sendMessage : M Page unit :=
  input <- gets chat_input_field ;;
  let message := trim input in
  if negb (truthy (VStr message)) then ret tt
  else
    addMessageToChat "user" (VStr message) ;;;
    clear_input ;;;
    try_catch
      (researchDepth <- gets research_depth ;;
       response <- send (ai_request message researchDepth) ;;
       (if negb (ok response)
        then throw (Error ("HTTP error! status: "
                           ++ number_to_string (Q2Qc (inject_Z (status response)))))
        else ret tt) ;;;
       aiResponse <- await_json response ;;
       reply <- get_prop type_error_message aiResponse "response" ;;
       addMessageToChat "ai" reply)
      (fun error =>
         console_error_log "Error calling AI:" error ;;;
         addMessageToChat "ai" (VStr error_reply)).

End SendMessage.

(** The ways the call of the assistant can fail: [fetch] rejects, the status
    is not ok, the body does not parse, or the parsed body is [null], from
    which no [response] can be read. *)
Definition call_fails (result : FetchResult) : bool :=
  match result with
  | FetchRejects _ => true
  | FetchResolves r =>
      negb (ok r)
      || match json r with
         | JsonRejects _ => true
         | JsonResolves v => match read v "response" with
                             | None => true
                             | Some _ => false
                             end
         end
  end.

End Chat.

(** ** The loader: [loadData], [showLoading], [hideLoading], [showError] *)

Module Loader.

Import JS JS.Notations.
Local Open Scope string_scope.

(** The three functions [loadData] calls to draw the page. *)
Inductive Renderer : Type := UpdateMetrics | CreateCharts | PerformAnalysis.

(** The script's global [currentData] and the parts of the page [loadData]
    touches: whether [loading-overlay] carries the class [show], the texts of
    the notifications [showError] appended to the body (their removal after
    five seconds is a timer and is left out), the [console.error] log, the
    page as the rendering functions leave it, and the rendering functions
    entered so far. *)
Record World (Page : Type) : Type := {
  currentData : JSValue;
  loading_overlay_show : bool;
  error_notifications : list string;
  console_error : list (string * JSError);
  page : Page;
  entered : list Renderer
}.

Arguments Build_World {Page}.

(** The six requests of [loadData], in program order, each with the message
    of the error thrown on a reply that is not ok. *)
Definition endpoints : list (string * string) :=
  [ ("/api/data-overview", "Failed to load data overview");
    ("/api/regression-analysis", "Failed to load regression analysis");
    ("/api/data-distributions", "Failed to load distributions");
    ("/api/country-analysis", "Failed to load country analysis");
    ("/api/demographics-analysis", "Failed to load demographics analysis");
    ("/api/scatter-data", "Failed to load scatter data") ].

(** The decimal name of an array index. *)
Definition index_name (i : nat) : string :=
  DecimalString.NilEmpty.string_of_uint (Nat.to_uint i).

Fixpoint indexed {A} (i : nat) (l : list A) : list (string * A) :=
  match l with
  | [] => []
  | x :: rest => (index_name i, x) :: indexed (S i) rest
  end.

Fixpoint characters (s : string) : list JSValue :=
  match s with
  | EmptyString => []
  | String c rest => VStr (String c EmptyString) :: characters rest
  end.

(** The own enumerable properties that [...v] copies. *)
Definition spread (v : JSValue) : list (string * JSValue) :=
  match v with
  | VObj props => props
  | VArr items => indexed 0 items
  | VStr s => indexed 0 (characters s)
  | _ => []
  end.

(** A property [k: v] in an object literal: it replaces the value of a
    property already copied under that name, at its place, or is added last. *)
Fixpoint define (k : string) (v : JSValue) (props : list (string * JSValue))
  : list (string * JSValue) :=
  match props with
  | [] => [(k, v)]
  | (k', v') :: rest =>
      if String.eqb k k' then (k, v) :: rest else (k', v') :: define k v rest
  end.

Section LoadData.

Variable Page : Type.

(** The server behind [fetch], the text of the browser's [TypeError], and
    the bodies of [updateMetrics], [createCharts] and [performAnalysis],
    which read [currentData] and draw on the page (or throw). *)
Variable fetch : string -> FetchResult.
Variable type_error_message : string.
Variable render : Renderer -> JSValue -> M Page unit.

Definition API_BASE_URL : string := Chat.API_BASE_URL.

Definition set_overlay (b : bool) : M (World Page) unit :=
  modify (fun w => Build_World (currentData w) b (error_notifications w)
                               (console_error w) (page w) (entered w)).

Definition showLoading : M (World Page) unit := set_overlay true.
Definition hideLoading : M (World Page) unit := set_overlay false.

Definition showError (message : string) : M (World Page) unit :=
  modify (fun w => Build_World (currentData w) (loading_overlay_show w)
                               (error_notifications w ++ [message])
                               (console_error w) (page w) (entered w)).

Definition console_error_log (label : string) (e : JSError) : M (World Page) unit :=
  modify (fun w => Build_World (currentData w) (loading_overlay_show w)
                               (error_notifications w)
                               (console_error w ++ [(label, e)]) (page w) (entered w)).

Definition set_currentData (v : JSValue) : M (World Page) unit :=
  modify (fun w => Build_World v (loading_overlay_show w) (error_notifications w)
                               (console_error w) (page w) (entered w)).

(** A call of a rendering function: it is entered, then its body runs on the
    page with the [currentData] of that moment. *)
Definition call (r : Renderer) : M (World Page) unit :=
  fun w =>
    let log := (entered w ++ [r])%list in
    let put p := Build_World (currentData w) (loading_overlay_show w)
                             (error_notifications w) (console_error w) p log in
    match render r (currentData w) (page w) with
    | Returns p _ => Returns (put p) tt
    | Throws p e => Throws (put p) e
    end.

(** One of the six blocks of [loadData]:
    [const r = await fetch(url); if (!r.ok) throw new Error(failure);
     const v = await r.json();] *)
Definition fetch_json (path failure : string) : M (World Page) JSValue :=
  response <- await_fetch (fetch (API_BASE_URL ++ path)) ;;
  (if negb (ok response) then throw (Error failure) else ret tt) ;;;
  await_json response.

(** The value [loadData] assigns to [currentData]:
    [{...overview, distributions: distributions, countryStats: countryStats,
      demographics: demographics, scatterData: scatterData.data,
      regression: regression}] *)
Definition assembled (overview regression distributions countryStats
                      demographics scatter_points : JSValue) : JSValue :=
  VObj (define "regression" regression
       (define "scatterData" scatter_points
       (define "demographics" demographics
       (define "countryStats" countryStats
       (define "distributions" distributions
       (spread overview)))))).

Definition loadData : M (World Page) unit :=
  showLoading ;;;
  try_catch
    (overview <- fetch_json "/api/data-overview" "Failed to load data overview" ;;
     regression <- fetch_json "/api/regression-analysis" "Failed to load regression analysis" ;;
     distributions <- fetch_json "/api/data-distributions" "Failed to load distributions" ;;
     countryStats <- fetch_json "/api/country-analysis" "Failed to load country analysis" ;;
     demographics <- fetch_json "/api/demographics-analysis" "Failed to load demographics analysis" ;;
     scatterData <- fetch_json "/api/scatter-data" "Failed to load scatter data" ;;
     scatter_points <- get_prop type_error_message scatterData "data" ;;
     set_currentData
       (assembled overview regression distributions countryStats demographics
                  scatter_points) ;;;
     call UpdateMetrics ;;;
     call CreateCharts ;;;
     call PerformAnalysis ;;;
     hideLoading)
    (fun error =>
       console_error_log "Error loading data:" error ;;;
       hideLoading ;;;
       showError ("Failed to load data: " ++ message error
                  ++ ". Please ensure the FastAPI backend is running on port 8000.")).

(** What a request yields when it succeeds: the parsed body of a reply with
    an ok status. *)
Definition succeeded (path : string) : option JSValue :=
  match fetch (API_BASE_URL ++ path) with
  | FetchRejects _ => None
  | FetchResolves r =>
      if ok r then match json r with
                   | JsonRejects _ => None
                   | JsonResolves v => Some v
                   end
      else None
  end.

(** The world the handler of [loadData] leaves behind when the exception
    [e] reaches it from the world [w]. *)
Definition after_catch (w : World Page) (e : JSError) : World Page :=
  Build_World (currentData w) false
    (error_notifications w
     ++ ["Failed to load data: " ++ message e
         ++ ". Please ensure the FastAPI backend is running on port 8000."])
    (console_error w ++ [("Error loading data:", e)])
    (page w) (entered w).

End LoadData.

End Loader.

(** ** The charts: [createDistributionCharts], [createCountryCharts],
       [createDemographicsCharts] *)

Module Charts.

Import JS JS.Notations.
Local Open Scope string_scope.

(** The replies the chart builders read, in the shape of the response
    contract; numbers are exact rationals, and an object used as a map is the
    list of its entries in [Object.entries] order. *)
Record Distributions : Type := {
  immigration : list Qc;
  political : list Qc;
  age : list Qc;
  education : list Qc
}.

Record Stat : Type := { mean : Qc; count : Z }.

Record CountryStat : Type := { impcntr : Stat; lrscale : Stat; agea : Stat }.

Definition CountryStats : Type := list (string * CountryStat).

Record Demographics : Type := {
  gender_male : Stat;
  gender_female : Stat;
  age_groups : list (string * Stat);
  demo_education : list (string * Stat);
  demo_political : list (string * Stat)
}.

(** A call [Plotly.newPlot(container, data, layout, {responsive: true})]. *)
Record Plot : Type := {
  container : string;
  data : JSValue;
  layout : JSValue
}.

(** What the builders change: the number of values [Math.random] has handed
    out, the plots drawn so far, and the content of [country-stats-table]. *)
Record Canvas : Type := {
  draws : nat;
  plots : list Plot;
  country_stats_table : string
}.

Definition num (z : Z) : JSValue := VNum (Q2Qc (inject_Z z)).
Definition numbers (l : list Qc) : JSValue := VArr (map VNum l).

Definition newPlot (container : string) (data layout : JSValue) : M Canvas unit :=
  modify (fun c => {| draws := draws c;
                      plots := plots c ++ [ {| container := container;
                                               data := data;
                                               layout := layout |} ];
                      country_stats_table := country_stats_table c |}).

Definition set_table (html : string) : M Canvas unit :=
  modify (fun c => {| draws := draws c;
                      plots := plots c;
                      country_stats_table := html |}).

(** [Array.from({length: n}, f)]: [f] is called for the indices [0] to
    [n - 1] in turn. *)
Fixpoint array_from_at {St A} (i n : nat) (f : nat -> M St A) : M St (list A) :=
  match n with
  | O => ret []
  | S n' => x <- f i ;; rest <- array_from_at (S i) n' f ;; ret (x :: rest)
  end.

Definition array_from {St A} (n : nat) (f : nat -> M St A) : M St (list A) :=
  array_from_at 0 n f.

(** [Array.from({length: n}, f)] for a [length] read from a reply, an
    integer [n]: [f] is not called for [n <= 0]; for [n] of 2^32 or more no
    array of that length can be made, and a [RangeError] is thrown before [f]
    is called. *)
Definition array_from_length {St A} (range_error_message : string) (n : Z)
           (f : nat -> M St A) : M St (list A) :=
  if (2 ^ 32 <=? n)%Z then throw (Error range_error_message)
  else array_from (Z.to_nat n) f.

(** [entries.map(f)] for an [f] with effects, in order. *)
Fixpoint map_in_order {St A B} (f : A -> M St B) (l : list A) : M St (list B) :=
  match l with
  | [] => ret []
  | x :: rest => y <- f x ;; ys <- map_in_order f rest ;; ret (y :: ys)
  end.

Definition margin : JSValue :=
  VObj [("t", num 50); ("b", num 50); ("l", num 50); ("r", num 20)].

Definition titled (title : string) : JSValue := VObj [("title", VStr title)].

Definition marker (fill stroke : string) : JSValue :=
  VObj [("color", VStr fill);
        ("line", VObj [("color", VStr stroke); ("width", num 1)])].

Definition createDistributionCharts (distributions : Distributions) : M Canvas unit :=
  let immigrationData := VArr [VObj [
    ("x", numbers (immigration distributions));
    ("type", VStr "histogram");
    ("name", VStr "Immigration Attitudes");
    ("marker", marker "rgba(99, 102, 241, 0.8)" "rgba(99, 102, 241, 1)")]] in
  let immigrationLayout := VObj [
    ("title", VStr "Distribution of Immigration Attitudes");
    ("xaxis", titled "Immigration Attitude (1=Allow Many, 4=Allow None)");
    ("yaxis", titled "Frequency");
    ("margin", margin)] in
  newPlot "immigration-dist" immigrationData immigrationLayout ;;;
  let politicalData := VArr [VObj [
    ("x", numbers (political distributions));
    ("type", VStr "histogram");
    ("name", VStr "Political Orientation");
    ("marker", marker "rgba(139, 92, 246, 0.8)" "rgba(139, 92, 246, 1)")]] in
  let politicalLayout := VObj [
    ("title", VStr "Distribution of Political Orientation");
    ("xaxis", titled "Political Scale (0=Left, 10=Right)");
    ("yaxis", titled "Frequency");
    ("margin", margin)] in
  newPlot "political-dist" politicalData politicalLayout ;;;
  ages <- array_from 74 (fun i => ret (num (Z.of_nat i + 16))) ;;
  let ageData := VArr [VObj [
    ("x", VArr ages);
    ("y", numbers (age distributions));
    ("type", VStr "scatter");
    ("mode", VStr "lines+markers");
    ("name", VStr "Age Distribution");
    ("line", VObj [("color", VStr "rgba(16, 185, 129, 0.8)"); ("width", num 3)]);
    ("marker", VObj [("color", VStr "rgba(16, 185, 129, 0.6)"); ("size", num 4)])]] in
  let ageLayout := VObj [
    ("title", VStr "Age Distribution");
    ("xaxis", titled "Age");
    ("yaxis", titled "Frequency");
    ("margin", margin)] in
  newPlot "age-dist" ageData ageLayout ;;;
  let educationData := VArr [VObj [
    ("x", VArr [VStr "1"; VStr "2"; VStr "3"; VStr "4"; VStr "5"; VStr "6"; VStr "7"]);
    ("y", numbers (education distributions));
    ("type", VStr "bar");
    ("name", VStr "Education Level");
    ("marker", marker "rgba(245, 158, 11, 0.8)" "rgba(245, 158, 11, 1)")]] in
  let educationLayout := VObj [
    ("title", VStr "Education Level Distribution");
    ("xaxis", titled "Education Level (1=Low, 7=High)");
    ("yaxis", titled "Frequency");
    ("margin", margin)] in
  newPlot "education-dist" educationData educationLayout.

(** [<tag style="css">content</tag>] *)
Definition styled (tag css content : string) : string :=
  "<" ++ tag ++ " style=" ++ dquote ++ css ++ dquote ++ ">" ++ content
  ++ "</" ++ tag ++ ">".

Definition th (content : string) : string :=
  styled "th" "padding: 12px; border: 1px solid #ddd; background: #f8f9fa;" content.

Definition td (content : string) : string :=
  styled "td" "padding: 12px; border: 1px solid #ddd;" content.

Definition box_layout (title : string) : JSValue :=
  VObj [("title", VStr title);
        ("yaxis", titled "Immigration Attitude");
        ("margin", margin)].

Definition box_trace (y : list JSValue) (name : string) : JSValue :=
  VObj [("y", VArr y);
        ("type", VStr "box");
        ("name", VStr name);
        ("boxpoints", VBool false)].

Section Boxplots.

(** The platform: the values [Math.random] returns, in the order of the
    calls; [parseFloat] on a number; [Number::toString]; the operations [+],
    [-] and [*] on numbers, which are those of IEEE 754 binary64 and round
    their result, as functions of the values of their operands; and the text
    of the [RangeError] for an array length that is too large. *)
Variable random : nat -> Qc.
Variable parseFloat : Qc -> Qc.
Variable number_to_string : Qc -> string.
Variable number_add : Qc -> Qc -> Qc.
Variable number_subtract : Qc -> Qc -> Qc.
Variable number_multiply : Qc -> Qc -> Qc.
Variable range_error_message : string.

Definition Math_random : M Canvas Qc :=
  fun c => Returns {| draws := S (draws c);
                      plots := plots c;
                      country_stats_table := country_stats_table c |}
                   (random (draws c)).

(** [base + (Math.random() - 0.5) * 2] *)
Definition jitter (base : Qc) : M Canvas JSValue :=
  r <- Math_random ;;
  ret (VNum (number_add base
               (number_multiply (number_subtract r (Q2Qc (1 # 2))) (Q2Qc 2)))).

(** One trace of a box plot:
    [{y: Array.from({length: n}, () => base + (Math.random() - 0.5) * 2),
      type: 'box', name: name, boxpoints: false}] *)
Definition box (n : nat) (base : Qc) (name : string) : M Canvas JSValue :=
  y <- array_from n (fun _ => jitter base) ;;
  ret (box_trace y name).

Definition country_row (tableHTML : string) (entry : string * CountryStat) : string :=
  let (country, stats) := entry in
  tableHTML ++ "<tr>" ++ td country
    ++ td (number_to_string (mean (impcntr stats)))
    ++ td (number_to_string (mean (lrscale stats)))
    ++ td (number_to_string (mean (agea stats)))
    ++ td (number_to_string (Q2Qc (inject_Z (count (impcntr stats)))))
    ++ "</tr>".

Definition createCountryCharts (countryStats : CountryStats) : M Canvas unit :=
  let tableHTML :=
    "<table style=" ++ dquote
    ++ "width: 100%; border-collapse: collapse; margin-bottom: 2rem;"
    ++ dquote ++ ">"
    ++ "<thead><tr>" ++ th "Country" ++ th "Immigration Mean"
    ++ th "Political Mean" ++ th "Age Mean" ++ th "Count"
    ++ "</tr></thead><tbody>" in
  let tableHTML := fold_left country_row countryStats tableHTML in
  let tableHTML := tableHTML ++ "</tbody></table>" in
  set_table tableHTML ;;;
  countryData <- map_in_order
    (fun entry : string * CountryStat =>
       let (country, stats) := entry in
       y <- array_from_length range_error_message (count (impcntr stats))
              (fun _ => jitter (parseFloat (mean (impcntr stats)))) ;;
       ret (box_trace y country))
    countryStats ;;
  newPlot "country-boxplot" (VArr countryData)
          (box_layout "Immigration Attitudes by Country").

(** The loop over the countries in [createCountryCharts], by itself. *)
Definition country_boxes (countryStats : CountryStats) : M Canvas (list JSValue) :=
  map_in_order
    (fun entry : string * CountryStat =>
       let (country, stats) := entry in
       y <- array_from_length range_error_message (count (impcntr stats))
              (fun _ => jitter (parseFloat (mean (impcntr stats)))) ;;
       ret (box_trace y country))
    countryStats.

Definition group_boxes (n : nat) (groups : list (string * Stat)) : M Canvas (list JSValue) :=
  map_in_order
    (fun entry : string * Stat =>
       let (group, stats) := entry in
       box n (mean stats) group)
    groups.

Definition createDemographicsCharts (demographics : Demographics) : M Canvas unit :=
  male <- box 1000 (mean (gender_male demographics)) "Male" ;;
  female <- box 1000 (mean (gender_female demographics)) "Female" ;;
  newPlot "gender-boxplot" (VArr [male; female])
          (box_layout "Immigration Attitudes by Gender") ;;;
  ageGroupData <- group_boxes 1000 (age_groups demographics) ;;
  newPlot "age-group-boxplot" (VArr ageGroupData)
          (box_layout "Immigration Attitudes by Age Group") ;;;
  educationData <- group_boxes 8000 (demo_education demographics) ;;
  newPlot "education-boxplot" (VArr educationData)
          (box_layout "Immigration Attitudes by Education") ;;;
  politicalData <- group_boxes 8000 (demo_political demographics) ;;
  newPlot "political-boxplot" (VArr politicalData)
          (box_layout "Immigration Attitudes by Political Orientation").

(** *** The payloads as functions of the reply and of the random values

    These definitions do not come from the script; they say in closed form
    what the builders above compute, and are proved equal to it. *)

(** [base + (r - 0.5) * 2] in the platform's arithmetic. *)
Definition jitter_value (base r : Qc) : Qc :=
  number_add base (number_multiply (number_subtract r (Q2Qc (1 # 2))) (Q2Qc 2)).

(** [n] values around [base], made from the random values number [start]
    to [start + n - 1]. *)
Definition jittered (base : Qc) (start n : nat) : list JSValue :=
  map (fun i => VNum (jitter_value base (random i))) (seq start n).

Fixpoint country_traces (start : nat) (countryStats : CountryStats) : list JSValue :=
  match countryStats with
  | [] => []
  | (country, stats) :: rest =>
      let n := Z.to_nat (count (impcntr stats)) in
      box_trace (jittered (parseFloat (mean (impcntr stats))) start n) country
      :: country_traces (start + n) rest
  end.

Fixpoint group_traces (n start : nat) (groups : list (string * Stat)) : list JSValue :=
  match groups with
  | [] => []
  | (group, stats) :: rest =>
      box_trace (jittered (mean stats) start n) group
      :: group_traces n (start + n) rest
  end.

Definition total_count (countryStats : CountryStats) : nat :=
  fold_right (fun e acc => (Z.to_nat (count (impcntr (snd e))) + acc)%nat) 0%nat countryStats.

(** Every count of the reply is a possible array length. *)
Definition in_range (countryStats : CountryStats) : bool :=
  forallb (fun e => (count (impcntr (snd e)) <? 2 ^ 32)%Z) countryStats.

(** The first country of the reply for which a value is plotted. *)
Definition first_counted (countryStats : CountryStats) : option (string * CountryStat) :=
  find (fun e => (0 <? count (impcntr (snd e)))%Z) countryStats.

(** The plot of [createCountryCharts], when [start] random values were
    handed out before. *)
Definition country_plot (start : nat) (countryStats : CountryStats) : Plot :=
  {| container := "country-boxplot";
     data := VArr (country_traces start countryStats);
     layout := box_layout "Immigration Attitudes by Country" |}.

(** The four plots of [createDemographicsCharts]. *)
Definition demographics_plots (start : nat) (d : Demographics) : list Plot :=
  let na := List.length (age_groups d) in
  let ne := List.length (demo_education d) in
  [ {| container := "gender-boxplot";
       data := VArr [box_trace (jittered (mean (gender_male d)) start 1000) "Male";
                     box_trace (jittered (mean (gender_female d)) (start + 1000) 1000)
                               "Female"];
       layout := box_layout "Immigration Attitudes by Gender" |};
    {| container := "age-group-boxplot";
       data := VArr (group_traces 1000 (start + 1000 + 1000) (age_groups d));
       layout := box_layout "Immigration Attitudes by Age Group" |};
    {| container := "education-boxplot";
       data := VArr (group_traces 8000 (start + 1000 + 1000 + na * 1000)
                                  (demo_education d));
       layout := box_layout "Immigration Attitudes by Education" |};
    {| container := "political-boxplot";
       data := VArr (group_traces 8000 (start + 1000 + 1000 + na * 1000 + ne * 8000)
                                  (demo_political d));
       layout := box_layout "Immigration Attitudes by Political Orientation" |} ].

End Boxplots.

(** The canvas after [n] more random values were handed out. *)
Definition advance (n : nat) (c : Canvas) : Canvas :=
  {| draws := draws c + n;
     plots := plots c;
     country_stats_table := country_stats_table c |}.

(** A property of the first trace of a plot. *)
Definition trace_prop (k : string) (p : Plot) : option JSValue :=
  match data p with
  | VArr (VObj props :: _) => lookup k props
  | _ => None
  end.

End Charts.

(** ** The analysis engine: data model and linear algebra *)

Module Engine.

Local Open Scope Qc_scope.

(** Modelled from the spec: the Observation and the Dataset of the data model
    (the engine's source is missing).  An observation gives every variable a
    value or "missing"; a dataset is an ordered collection of observations.
    Values are exact rationals. *)
Definition Observation : Type := list (string * option Qc).
Definition Dataset : Type := list Observation.

Fixpoint value (o : Observation) (v : string) : option Qc :=
  match o with
  | [] => None
  | (k, x) :: rest => if String.eqb v k then x else value rest v
  end.

(** The values of several variables, when none is missing. *)
Fixpoint values (o : Observation) (vars : list string) : option (list Qc) :=
  match vars with
  | [] => Some []
  | v :: rest =>
      match value o v, values o rest with
      | Some x, Some xs => Some (x :: xs)
      | _, _ => None
      end
  end.

Definition of_Z (z : Z) : Qc := Q2Qc (inject_Z z).
Definition of_nat (n : nat) : Qc := of_Z (Z.of_nat n).

Definition sum (l : list Qc) : Qc := fold_right Qcplus 0 l.

Fixpoint dot (u v : list Qc) : Qc :=
  match u, v with
  | a :: u', b :: v' => a * b + dot u' v'
  | _, _ => 0
  end.

Definition scale (a : Qc) (v : list Qc) : list Qc := map (Qcmult a) v.

Fixpoint vadd (u v : list Qc) : list Qc :=
  match u, v with
  | a :: u', b :: v' => (a + b) :: vadd u' v'
  | _, _ => []
  end.

Definition vsub (u v : list Qc) : list Qc := vadd u (scale (- (1)) v).

Fixpoint madd (A B : list (list Qc)) : list (list Qc) :=
  match A, B with
  | a :: A', b :: B' => vadd a b :: madd A' B'
  | _, _ => []
  end.

(** The vector of [n] entries with [a] at position [i] and zero elsewhere;
    used in the proofs. *)
Fixpoint basis (n i : nat) (a : Qc) : list Qc :=
  match n with
  | O => []
  | S n' => match i with
            | O => a :: repeat 0 n'
            | S i' => 0 :: basis n' i' a
            end
  end.

Definition is_zero (q : Qc) : bool := Qc_eq_bool q 0.

Definition Qc_ltb (x y : Qc) : bool :=
  match x ?= y with Lt => true | _ => false end.

End Engine.

(** ** The regression engine: [fit] and the outlier detection *)

Module Regression.

Import Engine.
Local Open Scope Qc_scope.

(** Modelled from the spec: the two errors of a fit in the error taxonomy. *)
Inductive FitError : Type :=
| InsufficientDataError
| SingularDesignMatrixError.

(** Modelled from the spec: the RegressionResult of the data model, without
    the quantities that need a square root or a distribution function
    (standard errors, t statistics, p values, condition number). *)
Record RegressionResult : Type := {
  intercept : Qc;
  coefficients : list (string * Qc);
  r_squared : Qc;
  adjusted_r_squared : Qc;
  f_statistic : Qc;
  residuals : list Qc;
  residual_variance : Qc;
  excluded : nat
}.

Inductive FitResult : Type :=
| Fitted (r : RegressionResult)
| Failed (e : FitError).

(** Modelled from the spec: the complete-case observations of a fit, "rows
    missing any of response/predictors are excluded"; a case is the response
    with the predictor values, in the order of the predictors. *)
Definition complete_case (response : string) (predictors : list string)
  (o : Observation) : option (Qc * list Qc) :=
  match value o response, values o predictors with
  | Some y, Some xs => Some (y, xs)
  | _, _ => None
  end.

Fixpoint complete_cases (response : string) (predictors : list string)
  (ds : Dataset) : list (Qc * list Qc) :=
  match ds with
  | [] => []
  | o :: rest =>
      match complete_case response predictors o with
      | Some c => c :: complete_cases response predictors rest
      | None => complete_cases response predictors rest
      end
  end.

(** Modelled from the spec: a row of the design matrix, "prepend an intercept
    column". *)
Definition design_row (xs : list Qc) : list Qc := 1 :: xs.

(** The contribution of one case to the normal equations [X'X b = X'y]: row
    [i] of the system is [x_i] times the design row, followed by [x_i * y]. *)
Definition outer (row : list Qc) (y : Qc) : list (list Qc) :=
  map (fun a => scale a (row ++ [y])) row.

Definition zero_system (k : nat) : list (list Qc) := repeat (repeat 0 (S k)) k.

(** Modelled from the spec: the normal equations of the fit, as a system of
    [k] rows, each of [k] coefficients followed by the right-hand side. *)
Definition normal_equations (k : nat) (cases : list (Qc * list Qc)) : list (list Qc) :=
  fold_right (fun c acc => madd (outer (design_row (snd c)) (fst c)) acc)
             (zero_system k) cases.

(** The first row that has a non-zero leading coefficient, and the others. *)
Fixpoint find_pivot (rows : list (list Qc)) : option (list Qc * list (list Qc)) :=
  match rows with
  | [] => None
  | r :: rest =>
      if is_zero (hd 0 r)
      then match find_pivot rest with
           | Some (p, others) => Some (p, r :: others)
           | None => None
           end
      else Some (r, rest)
  end.

(** A row after the first unknown is eliminated with the pivot row [p], whose
    leading coefficient is one. *)
Definition eliminate (p r : list Qc) : list Qc := tl (vsub r (scale (hd 0 r) p)).

(** Modelled from the spec: "solve the normal equations", by elimination with
    exact arithmetic, for a system of [k] equations in [k] unknowns.  There
    is no solution to return when some unknown has no pivot, which is when
    the system is singular. *)
Fixpoint solve (k : nat) (rows : list (list Qc)) : option (list Qc) :=
  match k with
  | O => Some []
  | S k' =>
      match find_pivot rows with
      | None => None
      | Some (p, others) =>
          let p1 := scale (/ hd 0 p) p in
          match solve k' (map (eliminate p1) others) with
          | None => None
          | Some xs => Some (- dot (tl p1) (xs ++ [- (1)]) :: xs)
          end
      end
  end.

(** Modelled from the spec: [fit(dataset, response, predictors)] of the
    Regression Engine.  Fewer complete cases than predictors + 1 is an
    [InsufficientDataError]; it is tested first, since such a design matrix
    is always rank-deficient and the error would otherwise never be
    reported.  A singular system is a [SingularDesignMatrixError].  The
    residual variance divides by the residual degrees of freedom, R squared
    is [1 - RSS/TSS], the adjusted R squared is penalised by the predictor
    count and the F statistic is the ratio of the mean squares; a division
    by zero yields zero. *)
Definition fit (ds : Dataset) (response : string) (predictors : list string) : FitResult :=
  let cases := complete_cases response predictors ds in
  let n := List.length cases in
  let p := List.length predictors in
  if (n <? p + 1)%nat then Failed InsufficientDataError
  else
    match solve (S p) (normal_equations (S p) cases) with
    | None => Failed SingularDesignMatrixError
    | Some beta =>
        let ys := map fst cases in
        let e := map (fun c => fst c - dot (design_row (snd c)) beta) cases in
        let rss := dot e e in
        let d := map (fun y => y - sum ys / of_nat n) ys in
        let tss := dot d d in
        let r2 := 1 - rss / tss in
        let df := of_nat (n - p - 1) in
        Fitted {| intercept := hd 0 beta;
                  coefficients := combine predictors (tl beta);
                  r_squared := r2;
                  adjusted_r_squared := 1 - (1 - r2) * of_nat (n - 1) / df;
                  f_statistic := (r2 / of_nat p) / ((1 - r2) / df);
                  residuals := e;
                  residual_variance := rss / df;
                  excluded := (List.length ds - n)%nat |}
    end.

(** Modelled from the spec: the outlier detection that runs after the fit.
    An observation is flagged when the absolute value of its standardized
    residual [e / sqrt(residual_variance)] exceeds the threshold, which is
    tested on the squares: [e * e > threshold * threshold * residual_variance].
    The result lists the positions of the flagged observations among the
    fitted ones. *)
Fixpoint flagged_from (i : nat) (limit : Qc) (e : list Qc) : list nat :=
  match e with
  | [] => []
  | x :: rest =>
      if Qc_ltb limit (x * x)
      then i :: flagged_from (S i) limit rest
      else flagged_from (S i) limit rest
  end.

(** Modelled from the spec: the observations flagged as outliers after a
    fit, for a configured threshold (3 in the spec's example). *)
Definition outliers (threshold : Qc) (r : RegressionResult) : list nat :=
  flagged_from 0 (threshold * threshold * residual_variance r) (residuals r).

(** The left-hand sides minus right-hand sides of the normal equations at an
    extended vector [v] (the unknowns followed by the coefficient of the
    right-hand side), case by case; used in the proofs. *)
Definition moments (k : nat) (v : list Qc) (cases : list (Qc * list Qc)) : list Qc :=
  fold_right (fun c acc =>
                vadd (scale (dot (design_row (snd c) ++ [fst c]) v) (design_row (snd c))) acc)
             (repeat 0 k) cases.

(** The design matrix is rank-deficient: some non-zero combination of its
    columns (intercept column included) vanishes on every row. *)
Definition rank_deficient (p : nat) (cases : list (Qc * list Qc)) : Prop :=
  exists c : list Qc,
    List.length c = S p /\ c <> repeat 0 (S p) /\
    forall case, In case cases -> dot (design_row (snd case)) c = 0.

(** *** Sample observations *)

(** An observation of the variables x and y; [None] is a missing value. *)
Definition observation2 (x y : option Z) : Observation :=
  [("x"%string, option_map of_Z x); ("y"%string, option_map of_Z y)].

(** An observation of the variables x1, x2 and y. *)
Definition observation3 (x1 x2 y : Z) : Observation :=
  [("x1"%string, Some (of_Z x1)); ("x2"%string, Some (of_Z x2));
   ("y"%string, Some (of_Z y))].

End Regression.

(** ** The correlation engine: [correlate] *)

Module Correlation.

Import Engine.
Local Open Scope Qc_scope.

(** Modelled from the spec: a cell of the CorrelationMatrix, a coefficient or
    the [DegenerateVarianceError] "recorded per-cell" for a pair with a
    variable of zero variance. *)
Inductive Cell : Type :=
| Coefficient (r : R)
| DegenerateVarianceError.

(** Modelled from the spec: the pairwise-complete observations of two
    variables, "a pair excludes only rows missing either of the two variables
    involved". *)
Fixpoint complete_pairs (a b : string) (ds : Dataset) : list (Qc * Qc) :=
  match ds with
  | [] => []
  | o :: rest =>
      match value o a, value o b with
      | Some x, Some y => (x, y) :: complete_pairs a b rest
      | _, _ => complete_pairs a b rest
      end
  end.

(** The deviations of the values from their mean. *)
Definition centered (l : list Qc) : list Qc :=
  map (fun x => x - sum l / of_nat (List.length l)) l.

(** Modelled from the spec: one coefficient of the Correlation Engine, the
    product-moment correlation of the two variables over their complete
    pairs: the sum of the products of the deviations, divided by the square
    root of the product of the two sums of squared deviations.  The sums are
    exact; the square root and the quotient are real numbers.  "A variable
    with zero variance over its complete-pair subset yields an undefined
    coefficient", recorded in the cell. *)
Definition cell (a b : string) (ds : Dataset) : Cell :=
  let ps := complete_pairs a b ds in
  let dx := centered (map fst ps) in
  let dy := centered (map snd ps) in
  if (is_zero (dot dx dx) || is_zero (dot dy dy))%bool
  then DegenerateVarianceError
  else Coefficient (Q2R (dot dx dy) / sqrt (Q2R (dot dx dx * dot dy dy)%Qc))%R.

(** Modelled from the spec: [correlate(dataset, variables)], the square
    mapping variable x variable -> cell. *)
Definition correlate (ds : Dataset) (variables : list string)
  : list (string * list (string * Cell)) :=
  map (fun a => (a, map (fun b => (b, cell a b ds)) variables)) variables.

Fixpoint assoc {A} (k : string) (l : list (string * A)) : option A :=
  match l with
  | [] => None
  | (k', x) :: rest => if String.eqb k k' then Some x else assoc k rest
  end.

(** The entry of the matrix for the pair (a, b). *)
Definition entry (m : list (string * list (string * Cell))) (a b : string) : option Cell :=
  match assoc a m with
  | Some row => assoc b row
  | None => None
  end.

End Correlation.

(** ** The prompt composer: [compose] *)

Module PromptComposer.

Local Open Scope string_scope.

(** Modelled from the spec: the research depth, "a closed enum {brief,
    standard, deep}". *)
Inductive Depth : Type := brief | standard | deep.

(** A clause of the composed system prompt. *)
Inductive Clause : Type :=
| Instruction (text : string)
| GroundingFact (fact : string)
| MethodologyCaveat (text : string).

Record Prompt : Type := {
  systemPrompt : list Clause;
  userPrompt : string
}.

(** Modelled from the spec: the instruction each depth gives the assistant. *)
Definition instruction (d : Depth) : string :=
  match d with
  | brief => "Answer concisely, in a single paragraph."
  | standard => "Answer in a structured way; several sections are allowed."
  | deep => "Discuss the statistical limitations: sample bias, missingness, causal-vs-correlational framing."
  end.

(** Modelled from the spec: the grounding facts a depth includes, "at most 3"
    for brief, "up to 8" for standard, "the full grounding set" for deep; the
    facts are an ordered sequence, of which the first ones are taken. *)
Definition included (d : Depth) (grounding : list string) : list string :=
  match d with
  | brief => firstn 3 grounding
  | standard => firstn 8 grounding
  | deep => grounding
  end.

Definition methodology_caveat : string :=
  "Methodology caveats: the findings are correlational and rest on the complete cases of a survey sample.".

(** Modelled from the spec: [compose(depth, grounding, userMessage)] of the
    Prompt Composer (the engine's source is missing): the system prompt is the
    instruction of the depth, the included grounding facts in their order,
    and for deep the methodology caveats; the user prompt is the user's
    message. *)
Definition compose (d : Depth) (grounding : list string) (userMessage : string) : Prompt :=
  {| systemPrompt :=
       Instruction (instruction d)
       :: map GroundingFact (included d grounding)
       ++ match d with
          | deep => [MethodologyCaveat methodology_caveat]
          | _ => []
          end;
     userPrompt := userMessage |}.

(** The grounding facts of a composed prompt, in order. *)
Fixpoint grounding_facts (cs : list Clause) : list string :=
  match cs with
  | [] => []
  | GroundingFact f :: rest => f :: grounding_facts rest
  | _ :: rest => grounding_facts rest
  end.

Definition is_caveat (c : Clause) : bool :=
  match c with MethodologyCaveat _ => true | _ => false end.

End PromptComposer.

(** ** Strings: what [trim] leaves *)

Module Strings.

Import JS.

(** A string of white space only (the empty string included). *)
Fixpoint blank (s : string) : bool :=
  match s with
  | EmptyString => true
  | String c rest => is_white_space c && blank rest
  end.

Definition first_char (s : string) : option ascii :=
  match s with
  | EmptyString => None
  | String c _ => Some c
  end.

Fixpoint last_char (s : string) : option ascii :=
  match s with
  | EmptyString => None
  | String c EmptyString => Some c
  | String _ rest => last_char rest
  end.

(** The character, when there is one, is not white space. *)
Definition not_white (c : option ascii) : bool :=
  match c with
  | None => true
  | Some c => negb (is_white_space c)
  end.

End Strings.

(** ** The chat: the fault of a call *)

Module ChatFaults.

Import JS Chat.
Local Open Scope string_scope.

(** The exception that reaches the [catch] of [sendMessage] for an answer of
    the server, if any: the rejection of [fetch], the error thrown on a
    status that is not ok, the rejection of [response.json()], or the
    [TypeError] of reading [response] from [null].  This definition does not
    come from the script; [sendMessage] is proved to follow it. *)
Definition call_error (number_to_string : Qc -> string) (type_error_message : string)
  (result : FetchResult) : option JSError :=
  match result with
  | FetchRejects e => Some e
  | FetchResolves r =>
      if ok r
      then match json r with
           | JsonRejects e => Some e
           | JsonResolves v =>
               match read v "response" with
               | None => Some (Error type_error_message)
               | Some _ => None
               end
           end
      else Some (Error ("HTTP error! status: "
                        ++ number_to_string (Q2Qc (inject_Z (status r)))))
  end.

(** The content of the assistant's message for an answer of the server. *)
Definition call_reply (result : FetchResult) : JSValue :=
  match result with
  | FetchRejects _ => VStr error_reply
  | FetchResolves r =>
      if ok r
      then match json r with
           | JsonRejects _ => VStr error_reply
           | JsonResolves v =>
               match read v "response" with
               | None => VStr error_reply
               | Some reply => reply
               end
           end
      else VStr error_reply
  end.

End ChatFaults.

(** ** The loader: the fault of a request, and the rendering as a whole *)

Module LoaderFaults.

Import JS Loader.
Local Open Scope string_scope.

Section Faults.

Variable Page : Type.
Variable fetch : string -> FetchResult.
Variable render : Renderer -> JSValue -> M Page unit.

(** The exception one block of [loadData] throws, if any: the rejection of
    [fetch], the error made for a status that is not ok, or the rejection of
    [response.json()].  This definition and the next do not come from the
    script; [loadData] is proved to follow them. *)
Definition block_error (path failure : string) : option JSError :=
  match fetch (Chat.API_BASE_URL ++ path) with
  | FetchRejects e => Some e
  | FetchResolves r =>
      if ok r
      then match json r with
           | JsonRejects e => Some e
           | JsonResolves _ => None
           end
      else Some (Error failure)
  end.

(** The rendering functions [rs] called in turn on a page, up to the first
    one that throws: the functions entered, the page they leave, and the
    exception. *)
Fixpoint run_renderers (rs : list Renderer) (data : JSValue) (page : Page)
  : list Renderer * Page * option JSError :=
  match rs with
  | [] => ([], page, None)
  | r :: rest =>
      match render r data page with
      | Returns p _ =>
          let '(entered, p', e) := run_renderers rest data p in
          (r :: entered, p', e)
      | Throws p e => ([r], p, Some e)
      end
  end.

End Faults.

End LoaderFaults.

(** ** The charts: [createCharts] and [createScatterPlot] *)

Module Dashboard.

Import JS JS.Notations Charts.
Local Open Scope string_scope.

(** A point of the scatter reply, and what [createCharts] reads of
    [currentData], in the shape of the response contract.  [scatterData] is
    [None] when [currentData.scatterData] is [undefined] or [null]. *)
Record Point : Type := {
  point_x : Qc;
  point_y : Qc;
  point_country : string;
  point_age : Qc
}.

Record ChartsData : Type := {
  distributions : Distributions;
  countryStats : CountryStats;
  demographics : Demographics;
  scatterData : option (list Point)
}.

Section CreateCharts.

Variable random : nat -> Qc.
Variable parseFloat : Qc -> Qc.
Variable number_to_string : Qc -> string.
Variable number_add : Qc -> Qc -> Qc.
Variable number_subtract : Qc -> Qc -> Qc.
Variable number_multiply : Qc -> Qc -> Qc.
Variable range_error_message : string.

(** The trace of one point, given the value [Math.random] returned for it. *)
Definition point_trace (point : Point) (r : Qc) : JSValue :=
  VObj [("x", VNum (point_x point));
        ("y", VNum (point_y point));
        ("mode", VStr "markers");
        ("type", VStr "scatter");
        ("name", VStr (point_country point));
        ("marker", VObj [("size", VNum (point_age point / Q2Qc 10)%Qc);
                         ("opacity", VNum (Q2Qc (7 # 10)));
                         ("color", VNum (r * Q2Qc 360)%Qc)]);
        ("text", VStr ("Country: " ++ point_country point
                       ++ "<br>Age: " ++ number_to_string (point_age point)
                       ++ "<br>Political: " ++ number_to_string (point_x point)
                       ++ "<br>Immigration: " ++ number_to_string (point_y point)));
        ("hoverinfo", VStr "text")].

Definition scatterLayout : JSValue :=
  VObj [("title", VStr "Political Orientation vs Immigration Attitudes by Country");
        ("xaxis", titled "Political Scale (0=Left, 10=Right)");
        ("yaxis", titled "Immigration Attitude (1=Allow Many, 4=Allow None)");
        ("margin", margin);
        ("showlegend", VBool true)].

Definition createScatterPlot (currentData : ChartsData) : M Canvas unit :=
  match scatterData currentData with
  | None => ret tt
  | Some points =>
      traces <- map_in_order
        (fun point => r <- Math_random random ;; ret (point_trace point r))
        points ;;
      newPlot "scatter-plot" (VArr traces) scatterLayout
  end.

(** [createCharts]; [None] is a [currentData] that is still [null]. *)
Definition createCharts (currentData : option ChartsData) : M Canvas unit :=
  match currentData with
  | None => ret tt
  | Some data =>
      createDistributionCharts (distributions data) ;;;
      createCountryCharts random parseFloat number_to_string
                          number_add number_subtract number_multiply
                          range_error_message (countryStats data) ;;;
      createDemographicsCharts random number_add number_subtract number_multiply
                               (demographics data) ;;;
      createScatterPlot data
  end.

(** The traces of the scatter plot in closed form, when [start] random values
    were handed out before; used to state what [createScatterPlot] computes. *)
Fixpoint scatter_traces (start : nat) (points : list Point) : list JSValue :=
  match points with
  | [] => []
  | point :: rest => point_trace point (random start) :: scatter_traces (S start) rest
  end.

End CreateCharts.

(** A value that is a number from [lo] to [hi], both included. *)
Definition between (lo hi : Qc) (v : JSValue) : Prop :=
  exists q : Qc, v = VNum q /\ (lo <= q)%Qc /\ (q <= hi)%Qc.

(** A box-plot trace called [name] with exactly [n] values, all of them from
    [lo] to [hi]. *)
Definition boxed (n : nat) (lo hi : Qc) (name : string) (trace : JSValue) : Prop :=
  exists y : list JSValue,
    trace = box_trace y name /\ List.length y = n /\ Forall (between lo hi) y.

(** An arithmetic whose operations keep the order of their operands, as
    operations that round the exact result to the nearest number do: [-] in
    its first operand, [*] by a factor that is not negative, [+] in its
    second operand. *)
Definition monotone (number_add number_subtract number_multiply : Qc -> Qc -> Qc) : Prop :=
  (forall a b c : Qc, (a <= b)%Qc -> (number_subtract a c <= number_subtract b c)%Qc)
  /\ (forall a b c : Qc,
        (Q2Qc 0 <= c)%Qc -> (a <= b)%Qc -> (number_multiply a c <= number_multiply b c)%Qc)
  /\ (forall a b c : Qc, (b <= c)%Qc -> (number_add a b <= number_add a c)%Qc).

(** The names and the means of the groups of a reply. *)
Definition group_means (groups : list (string * Stat)) : list (string * Qc) :=
  map (fun entry => (fst entry, mean (snd entry))) groups.

End Dashboard.

(** ** The analysis panel: [performAnalysis] and the four functions it calls *)

Module Analysis.

Import JS JS.Notations.
Local Open Scope string_scope.

(** What the panel functions read of [currentData.regression], in the shape
    of the response contract: [outliers], [correlation_matrix] and
    [diagnostics] are objects, given by their entries in [Object.entries]
    order, or are absent ([None]: the property is [undefined] or [null]);
    the rows of the matrix are objects as well, whose keys are names of
    variables and not names of properties that every object inherits.  The
    values inside are any JavaScript values. *)
Record Regression : Type := {
  outliers : option (list (string * JSValue));
  correlation_matrix : option (list (string * list (string * JSValue)));
  diagnostics : option (list (string * JSValue));
  model_summary : JSValue
}.

(** What the panel functions write: the [innerHTML] of [outlier-info],
    [correlation-matrix] and [model-diagnostics], and the [textContent] of
    [regression-summary].  The four elements are those of the page and are
    present. *)
Record Panel : Type := {
  outlier_info : string;
  correlation_matrix_table : string;
  model_diagnostics : string;
  regression_summary : string
}.

Definition newline : string := String (ascii_of_nat 10) EmptyString.



(** [Math.abs] and [>] on numbers. *)
Definition Math_abs (q : Qc) : Qc := if Qle_bool q (Q2Qc 0) then (- q)%Qc else q.

Definition gt (a b : Qc) : bool := negb (Qle_bool a b).

(** [Math.abs(corr) > 0.8 ? '#dc3545' : Math.abs(corr) > 0.5 ? '#ffc107' : '#28a745'] *)
Definition color (corr : Qc) : string :=
  if gt (Math_abs corr) (Q2Qc (8 # 10)) then "#dc3545"
  else if gt (Math_abs corr) (Q2Qc (5 # 10)) then "#ffc107"
  else "#28a745".

Section Panels.

(** The platform: [Number::toString], [Number.prototype.toFixed], and the
    text of the [TypeError] raised when the property [name] of the value [v]
    cannot be read or called. *)
Variable number_to_string : Qc -> string.
Variable toFixed : Qc -> nat -> string.
Variable type_error_message : JSValue -> string -> string.



Definition set_model_diagnostics (html : string) : M Panel unit :=
  modify (fun p => {| outlier_info := outlier_info p;
                      correlation_matrix_table := correlation_matrix_table p;
                      model_diagnostics := html;
                      regression_summary := regression_summary p |}).

Definition set_regression_summary (text : string) : M Panel unit :=
  modify (fun p => {| outlier_info := outlier_info p;
                      correlation_matrix_table := correlation_matrix_table p;
                      model_diagnostics := model_diagnostics p;
                      regression_summary := text |}).





Definition diagnostic_row (html : string) (entry : string * JSValue) : string :=
  let (metric, value) := entry in
  html ++ "<div style=" ++ dquote
    ++ "padding: 15px; background: #f8f9fa; border-radius: 8px; text-align: center;"
    ++ dquote ++ ">" ++ newline
    ++ "                    <div style=" ++ dquote
    ++ "font-size: 1.2rem; font-weight: bold; color: #6366f1; margin-bottom: 5px;"
    ++ dquote ++ ">" ++ to_string number_to_string value ++ "</div>" ++ newline
    ++ "                    <div style=" ++ dquote ++ "color: #666; font-size: 0.9rem;"
    ++ dquote ++ ">" ++ metric ++ "</div>" ++ newline
    ++ "                 </div>".

Definition createModelDiagnostics (regression : Regression) : M Panel unit :=
  match diagnostics regression with
  | None => ret tt
  | Some entries =>
      let html := "<div style=" ++ dquote
                  ++ "display: grid; grid-template-columns: repeat(auto-fit, minmax(200px, 1fr)); gap: 15px;"
                  ++ dquote ++ ">" in
      let html := fold_left diagnostic_row entries html in
      let html := html ++ "</div>" in
      set_model_diagnostics html
  end.

Definition createRegressionResults (regression : Regression) : M Panel unit :=
  if negb (truthy (model_summary regression)) then ret tt
  else set_regression_summary (to_string number_to_string (model_summary regression)).


End Panels.







End Analysis.

(** ** The tabs: [initializeTabs] and the click handler it installs *)

Module Tabs.

Import JS JS.Notations.
Local Open Scope string_scope.

(** An element as the tab code sees it: its [id] attribute, the tokens of its
    [classList] in order, and its [data-tab] attribute ([None]: the attribute
    is absent).  A document is the list of its elements in tree order; an
    element is named by its position in it.  The script changes class lists
    only: no element comes or goes. *)
Record Element : Type := {
  id : option string;
  classList : list string;
  data_tab : option string
}.

Definition Document : Type := list Element.

(** [element.classList.contains(token)] *)
Definition contains (token : string) (e : Element) : bool :=
  existsb (String.eqb token) (classList e).

(** [element.classList.remove(token)] *)
Definition classList_remove (token : string) (e : Element) : Element :=
  {| id := id e;
     classList := filter (fun t => negb (String.eqb token t)) (classList e);
     data_tab := data_tab e |}.

(** [element.classList.add(token)]: a token that is there is not added again. *)
Definition classList_add (token : string) (e : Element) : Element :=
  if contains token e then e
  else {| id := id e;
          classList := (classList e ++ [token])%list;
          data_tab := data_tab e |}.

(** The document in which the element at position [i] is replaced by [f] of
    it. *)
Fixpoint on_element (i : nat) (f : Element -> Element) (doc : Document) : Document :=
  match doc, i with
  | [], _ => []
  | e :: rest, O => f e :: rest
  | e :: rest, S i' => e :: on_element i' f rest
  end.

(** The positions of the elements that pass [test], in tree order; [from] is
    the position of the first element of [doc]. *)
Fixpoint matching (test : Element -> bool) (from : nat) (doc : Document) : list nat :=
  match doc with
  | [] => []
  | e :: rest =>
      if test e then from :: matching test (S from) rest
      else matching test (S from) rest
  end.

(** [document.querySelectorAll('.name')]: a list that does not change when
    the document does. *)
Definition querySelectorAll_class (name : string) (doc : Document) : list nat :=
  matching (contains name) 0 doc.

(** The element has the identifier [key]; an empty [id] attribute gives no
    identifier. *)
Definition has_id (key : string) (e : Element) : bool :=
  match id e with
  | Some i => negb (String.eqb key EmptyString) && String.eqb key i
  | None => false
  end.

(** [document.getElementById(key)]: the first element in tree order with
    that identifier, or [null]. *)
Definition getElementById (key : string) (doc : Document) : option nat :=
  hd_error (matching (has_id key) 0 doc).

(** [button.getAttribute('data-tab')] *)
Definition getAttribute_data_tab (button : nat) (doc : Document) : option string :=
  match nth_error doc button with
  | Some e => data_tab e
  | None => None
  end.

(** [list.forEach(element => f(element))] for an [f] that changes the
    element. *)
Definition for_all (elements : list nat) (f : Element -> Element) : M Document unit :=
  modify (fun doc => fold_left (fun doc i => on_element i f doc) elements doc).

Section Click.

(** The text of the [TypeError] raised when the property [name] of the value
    [v] cannot be read. *)
Variable type_error_message : JSValue -> string -> string.

(** The click listener of [button]; [tabButtons] and [tabPanes] are the lists
    made when the listeners were installed.  [getElementById] is given the
    attribute converted to a string, which is [null] for an absent one. *)
Definition tab_click (tabButtons tabPanes : list nat) (button : nat) : M Document unit :=
  targetTab <- gets (getAttribute_data_tab button) ;;
  for_all tabButtons (classList_remove "active") ;;;
  for_all tabPanes (classList_remove "active") ;;;
  modify (on_element button (classList_add "active")) ;;;
  target <- gets (getElementById (match targetTab with
                                  | Some key => key
                                  | None => "null"
                                  end)) ;;
  match target with
  | None => throw (Error (type_error_message VNull "classList"))
  | Some pane => modify (on_element pane (classList_add "active"))
  end.

(** [initializeTabs]: the listeners it installs, each with the button it is
    installed on. *)
Definition initializeTabs (doc : Document) : list (nat * M Document unit) :=
  let tabButtons := querySelectorAll_class "tab-btn" doc in
  let tabPanes := querySelectorAll_class "tab-pane" doc in
  map (fun button => (button, tab_click tabButtons tabPanes button)) tabButtons.

End Click.

(** The key a click on [button] looks up. *)
Definition target_key (button : nat) (doc : Document) : string :=
  match getAttribute_data_tab button doc with
  | Some key => key
  | None => "null"
  end.

(** [j] is one of [elements]. *)
Definition among (elements : list nat) (j : nat) : bool := existsb (Nat.eqb j) elements.

(** What a click on [button] makes of the element at position [j], when
    [target] is what [getElementById] finds; this does not come from the
    script, it says in closed form what the listener does and is proved equal
    to it. *)
Definition clicked (tabButtons tabPanes : list nat) (button : nat) (target : option nat)
           (j : nat) (e : Element) : Element :=
  let e := if among tabButtons j then classList_remove "active" e else e in
  let e := if among tabPanes j then classList_remove "active" e else e in
  let e := if Nat.eqb j button then classList_add "active" e else e in
  match target with
  | Some pane => if Nat.eqb j pane then classList_add "active" e else e
  | None => e
  end.

End Tabs.

(** ** The mobile menu: the listeners [initializeNavigation] installs on the
    hamburger and on the links of the menu *)

Module Navigation.

Import JS JS.Notations Tabs.
Local Open Scope string_scope.

(** [element.classList.toggle(token)] *)
Definition classList_toggle (token : string) (e : Element) : Element :=
  if contains token e then classList_remove token e else classList_add token e.

(** [document.querySelector('.name')]: the first such element, or [null]. *)
Definition querySelector_class (name : string) (doc : Document) : option nat :=
  hd_error (querySelectorAll_class name doc).

Section Listeners.

Variable type_error_message : JSValue -> string -> string.

(** [node.classList.f('active')] for a [node] that may be [null]. *)
Definition on_node (node : option nat) (f : Element -> Element) : M Document unit :=
  match node with
  | None => throw (Error (type_error_message VNull "classList"))
  | Some i => modify (on_element i f)
  end.

(** The click listener of the hamburger.  A listener is installed only when
    the hamburger is there; the menu may be [null]. *)
Definition hamburger_click (hamburger : nat) (navMenu : option nat) : M Document unit :=
  on_node (Some hamburger) (classList_toggle "active") ;;;
  on_node navMenu (classList_toggle "active").

(** The click listener of every link of the menu. *)
Definition link_click (hamburger : nat) (navMenu : option nat) : M Document unit :=
  on_node (Some hamburger) (classList_remove "active") ;;;
  on_node navMenu (classList_remove "active").

Inductive Click : Type := OnHamburger | OnLink.

Definition listener (hamburger : nat) (navMenu : option nat) (click : Click) : M Document unit :=
  match click with
  | OnHamburger => hamburger_click hamburger navMenu
  | OnLink => link_click hamburger navMenu
  end.

(** The clicks are handled one after the other; an exception of a listener is
    reported and the next click is handled on the page as it is then. *)
Fixpoint dispatch (hamburger : nat) (navMenu : option nat) (clicks : list Click)
         (doc : Document) : Document :=
  match clicks with
  | [] => doc
  | click :: rest =>
      dispatch hamburger navMenu rest (final_state (listener hamburger navMenu click doc))
  end.

End Listeners.

(** The element at position [i] carries the class [active]. *)
Definition active (i : nat) (doc : Document) : bool :=
  match nth_error doc i with
  | Some e => contains "active" e
  | None => false
  end.

End Navigation.

(* ================================================================== *)
(** * Part II.  The properties *)
(* ================================================================== *)

(** ** The chat *)

Module ChatProperties.

Import JS Chat.
Local Open Scope string_scope.

Lemma truthy_nonempty (s : string) : s <> EmptyString -> truthy (VStr s) = true.
Proof.
  intros H. simpl. destruct (String.eqb_spec s EmptyString); [contradiction | reflexivity].
Qed.

(** What [sendMessage] does on a non-empty message, as one equation: the
    user's message is added, the field is emptied, the request is sent, and
    the rest depends on the answer only. *)
Lemma sendMessage_unfold fetch nts tem (p : Page) :
  let message := trim (chat_input_field p) in
  let rq := ai_request message (research_depth p) in
  let sent :=
    {| chat_input_field := EmptyString;
       research_depth := research_depth p;
       chat_messages := chat_messages p ++ [message_div nts "user" (VStr message)];
       scrolled_to_end := true;
       console_error := console_error p;
       requests := requests p ++ [rq] |} in
  message <> EmptyString ->
  sendMessage fetch nts tem p =
  try_catch
    (fun s =>
       bind (await_fetch (fetch rq))
         (fun response =>
            bind (if negb (ok response)
                  then throw (Error ("HTTP error! status: "
                                     ++ nts (Q2Qc (inject_Z (status response)))))
                  else ret tt)
              (fun _ =>
                 bind (await_json response)
                   (fun aiResponse =>
                      bind (get_prop tem aiResponse "response")
                        (fun reply => addMessageToChat nts "ai" reply)))) s)
    (fun error =>
       bind (console_error_log "Error calling AI:" error)
         (fun _ => addMessageToChat nts "ai" (VStr error_reply)))
    sent.
Proof.
  intros message rq sent Hne.
  unfold sendMessage, bind at 1, gets.
  fold message. rewrite (truthy_nonempty Hne). simpl negb. cbv iota.
  reflexivity.
Qed.



(** C5.  [sendMessage] never ends with an exception; and when the call of the
    assistant fails (network error, status not ok, body that does not parse
    or is [null]), the chat ends with the user's message followed by the
    fixed error reply. *)
Theorem sendMessage_handles_failure :
  forall (fetch : Request -> FetchResult) (nts : Qc -> string) (tem : string) (p : Page),
    let message := trim (chat_input_field p) in
    let rq := ai_request message (research_depth p) in
    let out := sendMessage fetch nts tem p in
    returns_normally out = true
    /\ (message <> EmptyString ->
        call_fails (fetch rq) = true ->
        chat_messages (final_state out) =
        (chat_messages p ++ [message_div nts "user" (VStr message);
                             message_div nts "ai" (VStr error_reply)])%list).
Proof.
  intros fetch nts tem p message rq out.
  destruct (string_dec message EmptyString) as [He | Hne].
  - split; [| intros Hne; contradiction].
    subst out. unfold sendMessage, bind, gets. fold message. rewrite He. reflexivity.
  - subst out. rewrite (sendMessage_unfold fetch nts tem p Hne). fold message rq.
    unfold try_catch, bind, await_fetch, await_json, get_prop, call_fails.
    destruct (fetch rq) as [e | r]; simpl.
    + split; [reflexivity | intros _ _; rewrite <- app_assoc; reflexivity].
    + destruct (ok r); simpl.
      * destruct (json r) as [e | v]; simpl.
        -- split; [reflexivity | intros _ _; rewrite <- app_assoc; reflexivity].
        -- destruct (read v "response"); simpl.
           ++ split; [reflexivity | intros _ Hf; discriminate].
           ++ split; [reflexivity | intros _ _; rewrite <- app_assoc; reflexivity].
      * split; [reflexivity | intros _ _; rewrite <- app_assoc; reflexivity].
Qed.

(** The same page, and a server that answers 503. *)
Lemma sendMessage_handles_failure_witness :
  let p := {| chat_input_field := "  hello ";
              research_depth := "deep";
              chat_messages := [];
              scrolled_to_end := false;
              console_error := [];
              requests := [] |} in
  let answer := FetchResolves {| status := 503; json := JsonRejects (Error "SyntaxError") |} in
  let out := sendMessage (fun _ => answer) (fun _ => "503") "TypeError" p in
  trim (chat_input_field p) <> EmptyString
  /\ call_fails answer = true
  /\ returns_normally out = true
  /\ map content_innerHTML (chat_messages (final_state out)) =
     ["<p>hello</p>"; "<p>" ++ error_reply ++ "</p>"].
Proof.
  intros p answer out.
  assert (Hne : trim (chat_input_field p) <> EmptyString) by (vm_compute; discriminate).
  destruct (sendMessage_handles_failure (fun _ => answer) (fun _ => "503") "TypeError" p)
    as (Hret & Hchat).
  split; [exact Hne |]. split; [reflexivity |]. split; [exact Hret |].
  subst out. rewrite (Hchat Hne eq_refl). reflexivity.
Defined.

End ChatProperties.

(** ** The loader *)

Module LoaderProperties.

Import JS Loader.
Local Open Scope string_scope.

Section Load.

Variable Page : Type.
Variable fetch : string -> FetchResult.
Variable tem : string.
Variable render : Renderer -> JSValue -> M Page unit.

(** A block of [loadData] yields the parsed body when the request
    succeeds and throws otherwise; it leaves the world as it is. *)
Lemma fetch_json_cases (path failure : string) (w : World Page) :
  (exists v, succeeded fetch path = Some v
             /\ fetch_json fetch path failure w = Returns w v)
  \/ (exists e, succeeded fetch path = None
                /\ fetch_json fetch path failure w = Throws w e).
Proof.
  unfold succeeded, fetch_json, bind, await_fetch, await_json.
  destruct (fetch (API_BASE_URL ++ path)) as [e | r]; simpl.
  - right. exists e. split; reflexivity.
  - destruct (ok r); simpl.
    + destruct (json r) as [e | v]; simpl.
      * right. exists e. split; reflexivity.
      * left. exists v. split; reflexivity.
    + right. exists (Error failure). split; reflexivity.
Qed.

Ltac step :=
  match goal with
  | |- context [fetch_json fetch ?path ?failure ?w] =>
      let v := fresh "v" in
      let e := fresh "e" in
      let Hs := fresh "Hs" in
      let Hr := fresh "Hr" in
      destruct (fetch_json_cases path failure w)
        as [(v & Hs & Hr) | (e & Hs & Hr)];
      rewrite Hr; cbv beta iota
  end.

(** When a request fails, [loadData] ends in its handler, with the world of
    the start but for the overlay, the notification and the console. *)
Lemma loadData_failure (w : World Page) :
  (exists path, In path (map fst endpoints) /\ succeeded fetch path = None) ->
  exists e, loadData fetch tem render w = Returns (after_catch w e) tt.
Proof.
  intros (path & Hin & Hnone).
  unfold loadData, try_catch, bind at 1, showLoading, set_overlay, modify.
  unfold bind.
  step; [| eexists; reflexivity].
  step; [| eexists; reflexivity].
  step; [| eexists; reflexivity].
  step; [| eexists; reflexivity].
  step; [| eexists; reflexivity].
  step; [| eexists; reflexivity].
  exfalso. simpl in Hin.
  repeat (destruct Hin as [Hin | Hin]; [subst path; congruence |]).
  exact Hin.
Qed.

(** When the six requests succeed and the scatter reply is not [null], the
    assembled value is assigned to [currentData] and the three rendering
    functions are called in turn, inside the [try]. *)
Lemma loadData_success (w : World Page) overview regression distributions
      countryStats demographics scatterData scatter_points :
  succeeded fetch "/api/data-overview" = Some overview ->
  succeeded fetch "/api/regression-analysis" = Some regression ->
  succeeded fetch "/api/data-distributions" = Some distributions ->
  succeeded fetch "/api/country-analysis" = Some countryStats ->
  succeeded fetch "/api/demographics-analysis" = Some demographics ->
  succeeded fetch "/api/scatter-data" = Some scatterData ->
  read scatterData "data" = Some scatter_points ->
  loadData fetch tem render w =
  try_catch
    (bind (call render UpdateMetrics) (fun _ =>
     bind (call render CreateCharts) (fun _ =>
     bind (call render PerformAnalysis) (fun _ => hideLoading (Page := Page)))))
    (fun error =>
       bind (console_error_log "Error loading data:" error) (fun _ =>
       bind (hideLoading (Page := Page)) (fun _ =>
       showError ("Failed to load data: " ++ message error
                  ++ ". Please ensure the FastAPI backend is running on port 8000."))))
    (Build_World
       (assembled overview regression distributions countryStats demographics
                  scatter_points)
       true (error_notifications w) (console_error w) (page w) (entered w)).
Proof.
  intros H1 H2 H3 H4 H5 H6 Hread.
  unfold loadData, try_catch, bind at 1, showLoading, set_overlay, modify.
  unfold bind.
  step; [| congruence].
  step; [| congruence].
  step; [| congruence].
  step; [| congruence].
  step; [| congruence].
  step; [| congruence].
  unfold get_prop.
  replace v4 with scatterData by congruence.
  rewrite Hread. unfold ret, set_currentData, modify. cbv beta iota.
  unfold assembled.
  replace v with overview by congruence.
  replace v0 with regression by congruence.
  replace v1 with distributions by congruence.
  replace v2 with countryStats by congruence.
  replace v3 with demographics by congruence.
  reflexivity.
Qed.

End Load.

(** C9.  When one of the six requests fails (rejected, status not ok, or a
    body that does not parse), [loadData] returns with [currentData] as it
    was, no rendering function entered, the page untouched, the loading
    overlay hidden and one more error notification.  So [currentData] is
    assigned, and a rendering function is entered, only when the six
    requests have succeeded: nothing is drawn from part of the replies. *)
Theorem loadData_all_or_nothing :
  forall (Page : Type) (fetch : string -> FetchResult) (tem : string)
         (render : Renderer -> JSValue -> M Page unit) (w : World Page),
    let out := loadData fetch tem render w in
    let w' := final_state out in
    ((exists path, In path (map fst endpoints) /\ succeeded fetch path = None) ->
     returns_normally out = true
     /\ currentData w' = currentData w
     /\ entered w' = entered w
     /\ page w' = page w
     /\ loading_overlay_show w' = false
     /\ exists msg, error_notifications w' = (error_notifications w ++ [msg])%list)
    /\ (currentData w' <> currentData w \/ entered w' <> entered w ->
        forall path, In path (map fst endpoints) ->
                     exists v, succeeded fetch path = Some v).
Proof.
  intros Page fetch tem render w out w'.
  assert (Hfailure :
            (exists path, In path (map fst endpoints) /\ succeeded fetch path = None) ->
            returns_normally out = true
            /\ currentData w' = currentData w
            /\ entered w' = entered w
            /\ page w' = page w
            /\ loading_overlay_show w' = false
            /\ exists msg, error_notifications w' = (error_notifications w ++ [msg])%list).
  { intros Hfail.
    destruct (loadData_failure fetch tem render w Hfail) as (e & He).
    subst w' out. rewrite He. simpl.
    repeat split. eexists. reflexivity. }
  split; [exact Hfailure |].
  intros Hchanged path Hin.
  destruct (succeeded fetch path) as [v |] eqn:Hs; [exists v; reflexivity |].
  exfalso.
  destruct (Hfailure (ex_intro _ path (conj Hin Hs))) as (_ & Hd & He & _).
  destruct Hchanged as [H | H]; [exact (H Hd) | exact (H He)].
Qed.

(** A first load in which the regression request is answered 500, with
    rendering functions that would write their name on the page. *)
Lemma loadData_all_or_nothing_witness :
  let fetch := fun url : string =>
    if String.eqb url "http://localhost:3000/api/regression-analysis"
    then FetchResolves {| status := 500; json := JsonResolves VNull |}
    else FetchResolves {| status := 200; json := JsonResolves (VObj []) |} in
  let render := fun (r : Renderer) (_ : JSValue) (p : list Renderer) =>
    Returns (p ++ [r])%list tt in
  let w := Build_World VNull false [] [] [] [] in
  let w' := final_state (loadData fetch "TypeError" render w) in
  (exists path, In path (map fst endpoints) /\ succeeded fetch path = None)
  /\ currentData w' = VNull /\ entered w' = [] /\ page w' = []
  /\ loading_overlay_show w' = false
  /\ List.length (error_notifications w') = 1%nat.
Proof.
  intros fetch render w w'.
  assert (Hfail : exists path, In path (map fst endpoints) /\ succeeded fetch path = None).
  { exists "/api/regression-analysis". split; [simpl; tauto | reflexivity]. }
  destruct (proj1 (loadData_all_or_nothing fetch "TypeError" render w) Hfail)
    as (_ & Hd & He & Hp & Ho & msg & Hm).
  split; [exact Hfail |].
  subst w'. rewrite Hd, He, Hp, Ho, Hm. repeat split.
Defined.

(** A first load in which the six requests succeed: [currentData] is
    assembled from the six bodies and the three rendering functions are
    entered in turn. *)
Example loadData_six_successes :
  let fetch := fun url : string =>
    FetchResolves
      {| status := 200;
         json := JsonResolves
                   (if String.eqb url "http://localhost:3000/api/data-overview"
                    then VObj [("total_countries", VStr "29")]
                    else if String.eqb url "http://localhost:3000/api/scatter-data"
                    then VObj [("data", VArr [])]
                    else VObj [("from", VStr url)]) |} in
  let render := fun (r : Renderer) (_ : JSValue) (p : list Renderer) =>
    Returns (p ++ [r])%list tt in
  let w := Build_World VNull false [] [] [] [] in
  let out := loadData fetch "TypeError" render w in
  returns_normally out = true
  /\ entered (final_state out) = [UpdateMetrics; CreateCharts; PerformAnalysis]
  /\ loading_overlay_show (final_state out) = false
  /\ error_notifications (final_state out) = []
  /\ match currentData (final_state out) with
     | VObj props => map fst props
     | _ => []
     end
     = ["total_countries"; "distributions"; "countryStats"; "demographics";
        "scatterData"; "regression"].
Proof. vm_compute. repeat split. Qed.

End LoaderProperties.

(** ** The charts *)

Module ChartsProperties.

Import JS Charts.
Local Open Scope string_scope.

Lemma advance_0 (c : Canvas) : advance 0 c = c.
Proof. destruct c. unfold advance. simpl. rewrite Nat.add_0_r. reflexivity. Qed.

Lemma advance_advance (n m : nat) (c : Canvas) :
  advance m (advance n c) = advance (n + m) c.
Proof. unfold advance. simpl. rewrite Nat.add_assoc. reflexivity. Qed.

Section Boxes.

Variable random : nat -> Qc.
Variable parseFloat : Qc -> Qc.
Variable nts : Qc -> string.
Variable add : Qc -> Qc -> Qc.
Variable sub : Qc -> Qc -> Qc.
Variable mul : Qc -> Qc -> Qc.
Variable range_error : string.

Lemma array_from_jitter (base : Qc) (n : nat) :
  forall (i : nat) (c : Canvas),
    array_from_at i n (fun _ => jitter random add sub mul base) c
    = Returns (advance n c) (jittered random add sub mul base (draws c) n).
Proof.
  induction n as [| n IH]; intros i c.
  - simpl. rewrite advance_0. reflexivity.
  - cbn [array_from_at]. unfold bind at 1. unfold jitter at 1, bind at 1, Math_random.
    unfold ret at 1. unfold bind at 1. rewrite IH. unfold ret.
    unfold jittered, jitter_value. cbn [seq map draws].
    unfold advance. cbn [draws plots country_stats_table].
    rewrite Nat.add_succ_r. reflexivity.
Qed.

Lemma box_spec (n : nat) (base : Qc) (name : string) (c : Canvas) :
  box random add sub mul n base name c
  = Returns (advance n c) (box_trace (jittered random add sub mul base (draws c) n) name).
Proof.
  unfold box, array_from, bind. rewrite array_from_jitter. reflexivity.
Qed.

Lemma group_boxes_spec (n : nat) (groups : list (string * Stat)) :
  forall c : Canvas,
    group_boxes random add sub mul n groups c
    = Returns (advance (List.length groups * n) c)
              (group_traces random add sub mul n (draws c) groups).
Proof.
  unfold group_boxes.
  induction groups as [| [group stats] rest IH]; intros c.
  - simpl. rewrite advance_0. reflexivity.
  - simpl. unfold bind at 1. rewrite box_spec.
    unfold bind at 1. rewrite IH. unfold ret.
    rewrite advance_advance. reflexivity.
Qed.

(** [Array.from] with a length from the reply. *)
Lemma array_from_length_in_range (n : Z) (base : Qc) (c : Canvas) :
  (n <? 2 ^ 32)%Z = true ->
  array_from_length range_error n (fun _ => jitter random add sub mul base) c
  = Returns (advance (Z.to_nat n) c)
            (jittered random add sub mul base (draws c) (Z.to_nat n)).
Proof.
  intros H. unfold array_from_length.
  assert (E : (2 ^ 32 <=? n)%Z = false) by (apply Z.leb_gt, Z.ltb_lt, H).
  rewrite E. unfold array_from. apply array_from_jitter.
Qed.

Lemma array_from_length_out_of_range (n : Z) (base : Qc) (c : Canvas) :
  (n <? 2 ^ 32)%Z = false ->
  array_from_length range_error n (fun _ => jitter random add sub mul base) c
  = Throws c (Error range_error).
Proof.
  intros H. unfold array_from_length.
  assert (E : (2 ^ 32 <=? n)%Z = true) by (apply Z.leb_le, Z.ltb_ge, H).
  rewrite E. reflexivity.
Qed.

Lemma country_boxes_spec (countryStats : CountryStats) :
  in_range countryStats = true ->
  forall c : Canvas,
    country_boxes random parseFloat add sub mul range_error countryStats c
    = Returns (advance (total_count countryStats) c)
              (country_traces random parseFloat add sub mul (draws c) countryStats).
Proof.
  unfold country_boxes.
  induction countryStats as [| [country stats] rest IH]; intros Hr c.
  - simpl. rewrite advance_0. reflexivity.
  - cbn [in_range forallb snd] in Hr. apply andb_prop in Hr. destruct Hr as [Hn Hrest].
    cbn [map_in_order country_traces total_count fold_right snd].
    unfold bind at 1. unfold bind at 1.
    rewrite (@array_from_length_in_range _ _ _ Hn). unfold ret at 1.
    unfold bind at 1. rewrite (IH Hrest). unfold ret.
    rewrite advance_advance. reflexivity.
Qed.

Lemma country_boxes_out_of_range (countryStats : CountryStats) :
  in_range countryStats = false ->
  forall c : Canvas,
    exists k : nat,
      country_boxes random parseFloat add sub mul range_error countryStats c
      = Throws (advance k c) (Error range_error).
Proof.
  unfold country_boxes.
  induction countryStats as [| [country stats] rest IH]; intros Hr c.
  - discriminate.
  - cbn [in_range forallb snd] in Hr. cbn [map_in_order].
    destruct (count (impcntr stats) <? 2 ^ 32)%Z eqn:Hn.
    + cbn [andb] in Hr.
      unfold bind at 1. unfold bind at 1.
      rewrite (@array_from_length_in_range _ _ _ Hn). unfold ret at 1.
      destruct (IH Hr (advance (Z.to_nat (count (impcntr stats))) c)) as (k & E).
      unfold bind at 1. rewrite E. rewrite advance_advance. eexists. reflexivity.
    + exists 0%nat. unfold bind at 1. unfold bind at 1.
      rewrite (@array_from_length_out_of_range _ _ _ Hn). rewrite advance_0. reflexivity.
Qed.

(** The plot [createCountryCharts] draws. *)
Lemma createCountryCharts_plots (countryStats : CountryStats) (c : Canvas) :
  in_range countryStats = true ->
  plots (final_state (createCountryCharts random parseFloat nts add sub mul range_error
                                          countryStats c))
  = (plots c ++ [country_plot random parseFloat add sub mul (draws c) countryStats])%list.
Proof.
  intros Hr.
  unfold createCountryCharts, bind at 1, set_table, modify.
  fold (country_boxes random parseFloat add sub mul range_error countryStats).
  unfold bind at 1. rewrite (@country_boxes_spec countryStats Hr). reflexivity.
Qed.

(** With a count that is no array length nothing is drawn. *)
Lemma createCountryCharts_out_of_range (countryStats : CountryStats) (c : Canvas) :
  in_range countryStats = false ->
  exists (k : nat) (html : string),
    createCountryCharts random parseFloat nts add sub mul range_error countryStats c
    = Throws {| draws := draws c + k;
                plots := plots c;
                country_stats_table := html |} (Error range_error).
Proof.
  intros Hr.
  unfold createCountryCharts, bind at 1, set_table, modify.
  fold (country_boxes random parseFloat add sub mul range_error countryStats).
  match goal with
  | |- context [bind (country_boxes _ _ _ _ _ _ countryStats) _ ?c1] =>
      destruct (@country_boxes_out_of_range countryStats Hr c1) as (k & E)
  end.
  unfold bind at 1. rewrite E. exists k. eexists. reflexivity.
Qed.

(** The four plots [createDemographicsCharts] draws. *)
Lemma createDemographicsCharts_plots (d : Demographics) (c : Canvas) :
  plots (final_state (createDemographicsCharts random add sub mul d c))
  = (plots c ++ demographics_plots random add sub mul (draws c) d)%list.
Proof.
  unfold createDemographicsCharts, demographics_plots.
  unfold bind at 1. rewrite box_spec.
  unfold bind at 1. rewrite box_spec.
  unfold bind at 1, newPlot at 1, modify.
  unfold bind at 1. rewrite group_boxes_spec.
  unfold bind at 1, newPlot at 1, modify.
  unfold bind at 1. rewrite group_boxes_spec.
  unfold bind at 1, newPlot at 1, modify.
  unfold bind at 1. rewrite group_boxes_spec.
  unfold newPlot, modify. cbn [final_state plots draws advance].
  repeat rewrite <- app_assoc. reflexivity.
Qed.

End Boxes.

Lemma jittered_cons (random : nat -> Qc) (add sub mul : Qc -> Qc -> Qc) (base : Qc)
      (start n : nat) :
  jittered random add sub mul base start (S n)
  = VNum (jitter_value add sub mul base (random start))
    :: jittered random add sub mul base (S start) n.
Proof. reflexivity. Qed.

Lemma VNum_inj (q q' : Qc) : VNum q = VNum q' -> q = q'.
Proof.
  intros E.
  exact (f_equal (fun v => match v with VNum x => x | _ => q end) E).
Qed.

(** Two boxes that differ in one of their values are different. *)
Lemma jittered_differ (random random' : nat -> Qc) (add sub mul : Qc -> Qc -> Qc)
      (base : Qc) (start n i : nat) :
  (i < n)%nat ->
  jitter_value add sub mul base (random' (start + i)%nat)
  <> jitter_value add sub mul base (random (start + i)%nat) ->
  jittered random' add sub mul base start n <> jittered random add sub mul base start n.
Proof.
  intros Hi Hv E.
  assert (Hseq : nth_error (seq start n) i = Some (start + i)%nat).
  { rewrite (nth_error_nth' _ 0%nat) by (rewrite length_seq; exact Hi).
    rewrite seq_nth by exact Hi. reflexivity. }
  apply (f_equal (fun l => nth_error l i)) in E. unfold jittered in E.
  rewrite !nth_error_map, Hseq in E. cbn [option_map] in E.
  apply Hv, VNum_inj.
  exact (f_equal (fun o => match o with Some v => v | None => VNull end) E).
Qed.

Lemma box_trace_inj (y y' : list JSValue) (name name' : string) :
  box_trace y name = box_trace y' name' -> y = y'.
Proof.
  unfold box_trace. intros E.
  exact (f_equal (fun v => match v with
                           | VObj ((_, VArr l) :: _) => l
                           | _ => y
                           end) E).
Qed.

Lemma country_traces_differ (random random' : nat -> Qc) (parseFloat : Qc -> Qc)
      (add sub mul : Qc -> Qc -> Qc) (countryStats : CountryStats)
      (e : string * CountryStat) (start i : nat) :
  first_counted countryStats = Some e ->
  (Z.of_nat i < count (impcntr (snd e)))%Z ->
  jitter_value add sub mul (parseFloat (mean (impcntr (snd e)))) (random' (start + i)%nat)
  <> jitter_value add sub mul (parseFloat (mean (impcntr (snd e)))) (random (start + i)%nat) ->
  country_traces random' parseFloat add sub mul start countryStats
  <> country_traces random parseFloat add sub mul start countryStats.
Proof.
  unfold first_counted.
  induction countryStats as [| [country stats] rest IH]; intros Hfirst Hi Hv E.
  - discriminate.
  - cbn [find snd] in Hfirst. cbn [country_traces] in E.
    pose proof (f_equal (hd VNull) E) as Ehd.
    pose proof (f_equal (@tl JSValue) E) as Etl.
    cbn [hd tl] in Ehd, Etl.
    apply box_trace_inj in Ehd.
    destruct (0 <? count (impcntr stats))%Z eqn:Hc.
    + assert (Ee : e = (country, stats)) by congruence. subst e. cbn [snd] in Hv, Hi.
      revert Ehd. apply jittered_differ with (i := i); [lia | exact Hv].
    + assert (Hz : Z.to_nat (count (impcntr stats)) = 0%nat).
      { apply Z.ltb_ge in Hc. lia. }
      rewrite Hz, Nat.add_0_r in Etl. exact (IH Hfirst Hi Hv Etl).
Qed.

(** C10.  Whatever the distributions reply holds, [createDistributionCharts]
    draws the age frequencies against the 74 ages 16 to 89, which it makes
    itself, and the education frequencies against the seven labels 1 to 7;
    the received arrays are passed on as they are, whatever their lengths. *)
Theorem createDistributionCharts_fixed_axes :
  forall (d : Distributions) (c : Canvas),
    exists immigration_plot political_plot age_plot education_plot : Plot,
      plots (final_state (createDistributionCharts d c))
      = (plots c ++ [immigration_plot; political_plot; age_plot; education_plot])%list
      /\ container age_plot = "age-dist"
      /\ trace_prop "x" age_plot
         = Some (VArr (map (fun a => num (Z.of_nat a)) (seq 16 74)))
      /\ List.length (seq 16 74) = 74%nat
      /\ last (seq 16 74) 0%nat = 89%nat
      /\ trace_prop "y" age_plot = Some (numbers (age d))
      /\ container education_plot = "education-dist"
      /\ trace_prop "x" education_plot
         = Some (VArr [VStr "1"; VStr "2"; VStr "3"; VStr "4";
                       VStr "5"; VStr "6"; VStr "7"])
      /\ trace_prop "y" education_plot = Some (numbers (education d)).
Proof.
  intros d c.
  do 4 eexists. split.
  - unfold createDistributionCharts, bind, newPlot, modify, array_from.
    cbn [array_from_at bind ret final_state plots].
    unfold bind, ret. cbn [final_state plots].
    repeat rewrite <- app_assoc. cbn [app]. reflexivity.
  - repeat split.
Qed.

(** A reply with three age frequencies and two education frequencies is still
    drawn against 74 ages and seven labels. *)
Example createDistributionCharts_short_reply :
  let q := fun z => Q2Qc (inject_Z z) in
  let d := {| immigration := []; political := [];
              age := [q 5%Z; q 7%Z; q 9%Z]; education := [q 1%Z; q 2%Z] |} in
  let c := {| draws := 0%nat; plots := []; country_stats_table := EmptyString |} in
  map (fun p => (container p,
                 match trace_prop "x" p with Some (VArr l) => List.length l | _ => 0%nat end,
                 match trace_prop "y" p with Some (VArr l) => List.length l | _ => 0%nat end))
      (plots (final_state (createDistributionCharts d c)))
  = [("immigration-dist", 0%nat, 0%nat); ("political-dist", 0%nat, 0%nat);
     ("age-dist", 74%nat, 3%nat); ("education-dist", 7%nat, 2%nat)].
Proof. vm_compute. reflexivity. Qed.

(** C8.  The box plots are made in the browser from the group means alone:
    every plotted value is [mean + (Math.random() - 0.5) * 2] for the next
    random value, computed in the arithmetic of the platform (the closed
    forms [country_plot] and [demographics_plots] are built from [jittered]
    and [jitter_value]); a country count that is no array length makes
    [createCountryCharts] throw, and no country plot is drawn.  The chart
    data is therefore not a function of the reply: with the same reply, two
    renderings whose random values make a plotted value of the first box
    differ give different chart data. *)
Theorem boxplots_are_jittered_means :
  forall (random : nat -> Qc) (parseFloat : Qc -> Qc) (nts : Qc -> string)
         (add sub mul : Qc -> Qc -> Qc) (range_error : string)
         (countryStats : CountryStats) (d : Demographics) (c : Canvas),
    let value := jitter_value add sub mul in
    let country_charts rnd :=
      createCountryCharts rnd parseFloat nts add sub mul range_error countryStats c in
    let country_plots rnd := plots (final_state (country_charts rnd)) in
    let demo_plots rnd :=
      plots (final_state (createDemographicsCharts rnd add sub mul d c)) in
    (in_range countryStats = true ->
       country_plots random
       = (plots c ++ [country_plot random parseFloat add sub mul (draws c) countryStats])%list)
    /\ (in_range countryStats = false ->
          returns_normally (country_charts random) = false
          /\ country_plots random = plots c)
    /\ demo_plots random
       = (plots c ++ demographics_plots random add sub mul (draws c) d)%list
    /\ (forall (random' : nat -> Qc) (i : nat),
          (i < 1000)%nat ->
          value (mean (gender_male d)) (random' (draws c + i)%nat)
          <> value (mean (gender_male d)) (random (draws c + i)%nat) ->
          demo_plots random' <> demo_plots random)
    /\ (forall (random' : nat -> Qc) (e : string * CountryStat) (i : nat),
          in_range countryStats = true ->
          first_counted countryStats = Some e ->
          (Z.of_nat i < count (impcntr (snd e)))%Z ->
          value (parseFloat (mean (impcntr (snd e)))) (random' (draws c + i)%nat)
          <> value (parseFloat (mean (impcntr (snd e)))) (random (draws c + i)%nat) ->
          country_plots random' <> country_plots random).
Proof.
  intros random parseFloat nts add sub mul range_error countryStats d c
         value country_charts country_plots demo_plots.
  subst value country_charts country_plots demo_plots. cbv beta.
  split; [apply createCountryCharts_plots |].
  split.
  { intros Hr.
    destruct (createCountryCharts_out_of_range random parseFloat nts add sub mul
                range_error countryStats c Hr) as (k & html & E).
    rewrite E. split; reflexivity. }
  split; [apply createDemographicsCharts_plots |].
  split.
  - intros random' i Hi Hv E.
    rewrite !createDemographicsCharts_plots in E.
    apply app_inv_head in E. unfold demographics_plots in E.
    apply (f_equal (fun ps => match ps with
                              | {| data := VArr (male :: _) |} :: _ => male
                              | _ => VNull
                              end)) in E.
    cbv beta iota in E.
    apply box_trace_inj in E. revert E.
    apply jittered_differ with (i := i); [exact Hi | exact Hv].
  - intros random' e i Hr Hfirst Hi Hv E.
    rewrite !createCountryCharts_plots in E by exact Hr.
    apply app_inv_head in E. unfold country_plot in E.
    apply (f_equal (fun ps => match ps with
                              | {| data := VArr traces |} :: _ => traces
                              | _ => []
                              end)) in E.
    cbv beta iota in E. revert E.
    apply country_traces_differ with (e := e) (i := i); assumption.
Qed.

(** One country with two observations and mean 2, drawn once with random
    values 1/4 and once with 3/4, in an arithmetic that is exact on these
    values as binary64 is: the plotted values are 3/2 and 5/2. *)
Lemma boxplots_are_jittered_means_witness :
  let q := fun n d => Q2Qc (Qmake n d) in
  let st := {| mean := q 2%Z 1%positive; count := 2 |} in
  let countryStats := [("DE", {| impcntr := st; lrscale := st; agea := st |})] in
  let d := {| gender_male := st; gender_female := st;
              age_groups := []; demo_education := []; demo_political := [] |} in
  let c := {| draws := 0; plots := []; country_stats_table := EmptyString |} in
  let low := fun _ : nat => q 1%Z 4%positive in
  let high := fun _ : nat => q 3%Z 4%positive in
  let value := jitter_value Qcplus Qcminus Qcmult in
  let country_plots rnd :=
    plots (final_state (createCountryCharts rnd (fun x => x) (fun _ => "n")
                                            Qcplus Qcminus Qcmult "Invalid array length"
                                            countryStats c)) in
  let demo_plots rnd :=
    plots (final_state (createDemographicsCharts rnd Qcplus Qcminus Qcmult d c)) in
  in_range countryStats = true
  /\ first_counted countryStats = Some ("DE", {| impcntr := st; lrscale := st; agea := st |})
  /\ value (mean st) (high 1%nat) <> value (mean st) (low 1%nat)
  /\ country_plots high <> country_plots low
  /\ demo_plots high <> demo_plots low
  /\ map (trace_prop "y") (country_plots low)
     = [Some (VArr [VNum (q 3%Z 2%positive); VNum (q 3%Z 2%positive)])]
  /\ map (trace_prop "y") (country_plots high)
     = [Some (VArr [VNum (q 5%Z 2%positive); VNum (q 5%Z 2%positive)])].
Proof.
  intros q st countryStats d c low high value country_plots demo_plots.
  assert (Hr : in_range countryStats = true) by reflexivity.
  assert (Hfirst : first_counted countryStats
                   = Some ("DE", {| impcntr := st; lrscale := st; agea := st |}))
    by reflexivity.
  assert (Hv : value (mean st) (high 1%nat) <> value (mean st) (low 1%nat)).
  { intros E. apply (f_equal this) in E. vm_compute in E. discriminate. }
  destruct (boxplots_are_jittered_means low (fun x => x) (fun _ => "n")
              Qcplus Qcminus Qcmult "Invalid array length" countryStats d c)
    as (Hc & _ & _ & Hd & Hn).
  destruct (boxplots_are_jittered_means high (fun x => x) (fun _ => "n")
              Qcplus Qcminus Qcmult "Invalid array length" countryStats d c)
    as (Hc' & _).
  split; [exact Hr |]. split; [exact Hfirst |]. split; [exact Hv |].
  split; [exact (Hn high _ 1%nat Hr Hfirst ltac:(reflexivity) Hv) |].
  split; [exact (Hd high 1%nat ltac:(vm_compute; lia) Hv) |].
  split.
  - subst country_plots. cbv beta. rewrite (Hc Hr).
    unfold trace_prop, country_plot. simpl.
    repeat f_equal; apply Qc_decomp; vm_compute; reflexivity.
  - subst country_plots. cbv beta. rewrite (Hc' Hr).
    unfold trace_prop, country_plot. simpl.
    repeat f_equal; apply Qc_decomp; vm_compute; reflexivity.
Defined.

End ChartsProperties.

(** ** Vectors and systems of equations *)

Module AlgebraProperties.

Import Engine Regression.
Local Open Scope Qc_scope.

Lemma dot_nil_r (u : list Qc) : dot u [] = 0.
Proof. destruct u; reflexivity. Qed.

Lemma dot_comm (u : list Qc) : forall v, dot u v = dot v u.
Proof.
  induction u as [| a u IH]; intros [| b v]; simpl; try reflexivity.
  rewrite IH. ring.
Qed.

Lemma dot_scale_l (a : Qc) (u : list Qc) : forall v, dot (scale a u) v = a * dot u v.
Proof.
  induction u as [| x u IH]; intros [| y v]; simpl; try ring.
  fold (scale a u). rewrite IH. ring.
Qed.

Lemma dot_vadd_l (u : list Qc) :
  forall w v, List.length u = List.length w ->
              dot (vadd u w) v = dot u v + dot w v.
Proof.
  induction u as [| x u IH]; intros [| z w] [| y v] H; simpl in *;
    try discriminate; try ring.
  rewrite IH by congruence. ring.
Qed.

Lemma dot_app (u : list Qc) :
  forall v u' v', List.length u = List.length v ->
                  dot (u ++ u') (v ++ v') = dot u v + dot u' v'.
Proof.
  induction u as [| x u IH]; intros [| y v] u' v' H; simpl in *; try discriminate.
  - ring.
  - rewrite IH by congruence. ring.
Qed.

Lemma dot_zeros_l (n : nat) (v : list Qc) : dot (repeat 0 n) v = 0.
Proof.
  revert v. induction n as [| n IH]; intros [| y v]; simpl; try reflexivity.
  rewrite IH. ring.
Qed.

Lemma length_scale (a : Qc) (u : list Qc) : List.length (scale a u) = List.length u.
Proof. apply length_map. Qed.

Lemma length_vadd (u : list Qc) :
  forall w, List.length u = List.length w -> List.length (vadd u w) = List.length u.
Proof.
  induction u as [| x u IH]; intros [| z w] H; simpl in *; try discriminate; auto.
Qed.

Lemma vadd_zeros_l (u : list Qc) : vadd (repeat 0 (List.length u)) u = u.
Proof.
  induction u as [| x u IH]; simpl; [reflexivity |].
  rewrite IH. f_equal. ring.
Qed.

Lemma scale_0 (u : list Qc) : scale 0 u = repeat 0 (List.length u).
Proof.
  induction u as [| x u IH]; simpl; [reflexivity |].
  fold (scale 0 u). rewrite IH. f_equal. ring.
Qed.

Lemma is_zero_true (q : Qc) : is_zero q = true -> q = 0.
Proof. apply Qc_eq_bool_correct. Qed.

Lemma is_zero_false (q : Qc) : is_zero q = false -> q <> 0.
Proof.
  unfold is_zero, Qc_eq_bool. destruct (Qc_eq_dec q 0); [discriminate | auto].
Qed.

Lemma opp_of_sum_zero (a b : Qc) : a + b = 0 -> b = - a.
Proof.
  intros H. transitivity ((a + b) - a); [ring | rewrite H; ring].
Qed.

(** A vector is zero or has a non-zero entry. *)
Lemma zeros_dec (c : list Qc) : {c = repeat 0 (List.length c)} + {c <> repeat 0 (List.length c)}.
Proof. apply list_eq_dec. apply Qc_eq_dec. Qed.

(** *** The elimination *)

Lemma find_pivot_none (rows : list (list Qc)) :
  find_pivot rows = None -> Forall (fun r => hd 0 r = 0) rows.
Proof.
  induction rows as [| r rest IH]; simpl; intros H; [constructor |].
  destruct (is_zero (hd 0 r)) eqn:Hz; [| discriminate].
  destruct (find_pivot rest) as [[p others] |]; [discriminate |].
  constructor; [apply is_zero_true; exact Hz | apply IH; reflexivity].
Qed.

Lemma find_pivot_some (rows : list (list Qc)) :
  forall p others,
    find_pivot rows = Some (p, others) ->
    hd 0 p <> 0 /\ Permutation rows (p :: others).
Proof.
  induction rows as [| r rest IH]; simpl; intros p others H; [discriminate |].
  destruct (is_zero (hd 0 r)) eqn:Hz.
  - destruct (find_pivot rest) as [[p' others'] |]; [| discriminate].
    injection H as <- <-.
    destruct (IH p' others' eq_refl) as [Hp Hperm].
    split; [exact Hp |].
    rewrite Hperm. apply perm_swap.
  - injection H as <- <-. split; [apply is_zero_false; exact Hz | reflexivity].
Qed.

(** The row left of [rh :: rt] once the pivot row [h :: pt] is used. *)
Lemma eliminate_cons (h : Qc) (pt : list Qc) (rh : Qc) (rt : list Qc) :
  eliminate (scale (/ h) (h :: pt)) (rh :: rt)
  = vadd rt (scale (- (1)) (scale rh (scale (/ h) pt))).
Proof. reflexivity. Qed.

Lemma eliminate_dot (h : Qc) (pt : list Qc) (rh : Qc) (rt w : list Qc) :
  List.length pt = List.length rt ->
  dot (eliminate (scale (/ h) (h :: pt)) (rh :: rt)) w
  = dot rt w - rh * / h * dot pt w.
Proof.
  intros Hlen. rewrite eliminate_cons.
  rewrite dot_vadd_l by (rewrite !length_scale; congruence).
  rewrite !dot_scale_l. ring.
Qed.

Lemma eliminate_length (k : nat) (p r : list Qc) :
  List.length p = S k -> List.length r = S k ->
  List.length (eliminate (scale (/ hd 0 p) p) r) = k.
Proof.
  intros Hp Hr.
  destruct p as [| h pt]; [discriminate |].
  destruct r as [| rh rt]; [discriminate |].
  simpl hd. rewrite eliminate_cons.
  simpl in Hp, Hr.
  rewrite length_vadd; rewrite ?length_scale; congruence.
Qed.

(** A vector of [S k] entries that is not zero has a first entry that is not
    zero or a rest that is not zero. *)
Lemma nonzero_cons (c0 : Qc) (c' : list Qc) (k : nat) :
  c0 :: c' <> repeat 0 (S k) -> List.length c' = k ->
  c' = repeat 0 k -> c0 <> 0.
Proof.
  intros Hne Hlen Hz E. apply Hne. simpl. rewrite E, Hz. reflexivity.
Qed.

(** A system with a non-trivial kernel has no solution to return: [solve]
    finds an unknown without pivot. *)
Lemma solve_singular (k : nat) :
  forall (rows : list (list Qc)) (c : list Qc),
    List.length c = k -> c <> repeat 0 k ->
    Forall (fun r => List.length r = S k) rows ->
    Forall (fun r => dot r (c ++ [0]) = 0) rows ->
    solve k rows = None.
Proof.
  induction k as [| k IH]; intros rows c Hlen Hne Hwf Hker.
  - destruct c; [contradiction Hne; reflexivity | discriminate].
  - destruct c as [| c0 c']; [discriminate |].
    simpl in Hlen. injection Hlen as Hlen.
    simpl. destruct (find_pivot rows) as [[p others] |] eqn:Hpiv; [| reflexivity].
    destruct (find_pivot_some rows Hpiv) as [Hp Hperm].
    assert (Hwf' : Forall (fun r => List.length r = S (S k)) (p :: others))
      by (eapply Permutation_Forall; eassumption).
    assert (Hker' : Forall (fun r => dot r ((c0 :: c') ++ [0]) = 0) (p :: others))
      by (eapply Permutation_Forall; eassumption).
    apply Forall_cons_iff in Hwf' as [Hpl Hol].
    apply Forall_cons_iff in Hker' as [Hpk Hok].
    destruct p as [| h pt]; [discriminate |].
    simpl in Hp, Hpl, Hpk. injection Hpl as Hpl.
    assert (Hrest : c' <> repeat 0 k).
    { intros Hz. apply (nonzero_cons Hne Hlen Hz).
      rewrite Hz in Hpk. rewrite <- (repeat_cons k 0) in Hpk.
      change (0 :: repeat 0 k) with (repeat 0 (S k)) in Hpk.
      rewrite (dot_comm pt), dot_zeros_l in Hpk.
      destruct (Qcmult_integral _ _ (eq_trans (eq_sym (Qcplus_0_r _)) Hpk)) as [E | E];
        [contradiction | exact E]. }
    rewrite (IH (map (eliminate (scale (/ hd 0 (h :: pt)) (h :: pt))) others) c' Hlen Hrest);
      [reflexivity | |].
    + apply Forall_map. eapply Forall_impl; [| exact Hol].
      intros r Hr. apply eliminate_length; simpl; congruence.
    + apply Forall_map. rewrite Forall_forall in *.
      intros r Hr. specialize (Hol r Hr). specialize (Hok r Hr).
      destruct r as [| rh rt]; [discriminate |].
      simpl in Hol, Hok. injection Hol as Hol.
      simpl hd. rewrite eliminate_dot by congruence.
      rewrite (opp_of_sum_zero Hok), (opp_of_sum_zero Hpk). field. exact Hp.
Qed.

Lemma sum_zero_of_diff (a b : Qc) : a - b = 0 -> a = b.
Proof.
  intros H. transitivity ((a - b) + b); [ring | rewrite H; ring].
Qed.

(** What [solve] returns solves every equation of a square system. *)
Lemma solve_sound (k : nat) :
  forall (rows : list (list Qc)) (xs : list Qc),
    List.length rows = k ->
    Forall (fun r => List.length r = S k) rows ->
    solve k rows = Some xs ->
    List.length xs = k /\ Forall (fun r => dot r (xs ++ [- (1)]) = 0) rows.
Proof.
  induction k as [| k IH]; intros rows xs Hn Hwf Hs.
  - destruct rows; [| discriminate]. injection Hs as <-. split; constructor.
  - simpl in Hs.
    destruct (find_pivot rows) as [[p others] |] eqn:Hpiv; [| discriminate].
    destruct (find_pivot_some rows Hpiv) as [Hp Hperm].
    destruct (solve k (map (eliminate (scale (/ hd 0 p) p)) others)) as [xs' |] eqn:Hrec;
      [| discriminate].
    injection Hs as <-.
    assert (Hwf' : Forall (fun r => List.length r = S (S k)) (p :: others))
      by (eapply Permutation_Forall; eassumption).
    apply Forall_cons_iff in Hwf' as [Hpl Hol].
    assert (Hno : List.length others = k).
    { apply Permutation_length in Hperm. simpl in Hperm. lia. }
    assert (Hrl : List.length (map (eliminate (scale (/ hd 0 p) p)) others) = k)
      by (rewrite length_map; exact Hno).
    assert (Hrw : Forall (fun r => List.length r = S k)
                         (map (eliminate (scale (/ hd 0 p) p)) others)).
    { apply Forall_map. eapply Forall_impl; [| exact Hol].
      intros r Hr. apply eliminate_length; assumption. }
    destruct (IH _ _ Hrl Hrw Hrec) as [Hlen Hsol].
    split; [simpl; congruence |].
    eapply Permutation_Forall; [symmetry; exact Hperm |].
    destruct p as [| h pt]; [discriminate |].
    simpl in Hp, Hpl. injection Hpl as Hpl. simpl hd in *.
    constructor.
    + cbn [tl scale map app dot]. fold (scale (/ h) pt).
      rewrite dot_scale_l. field. exact Hp.
    + rewrite Forall_map in Hsol. rewrite Forall_forall in *.
      intros r Hr. specialize (Hol r Hr). specialize (Hsol r Hr).
      destruct r as [| rh rt]; [discriminate |].
      simpl in Hol. injection Hol as Hol.
      rewrite eliminate_dot in Hsol by congruence.
      apply sum_zero_of_diff in Hsol.
      cbn [tl scale map app dot]. fold (scale (/ h) pt).
      rewrite dot_scale_l, Hsol. field. exact Hp.
Qed.

(** A square system whose kernel is trivial has a solution, and [solve]
    returns one. *)
Lemma solve_complete (k : nat) :
  forall rows : list (list Qc),
    List.length rows = k ->
    Forall (fun r => List.length r = S k) rows ->
    (forall c, List.length c = k ->
               Forall (fun r => dot r (c ++ [0]) = 0) rows -> c = repeat 0 k) ->
    exists xs, solve k rows = Some xs.
Proof.
  induction k as [| k IH]; intros rows Hn Hwf Htriv.
  - exists []. reflexivity.
  - simpl. destruct (find_pivot rows) as [[p others] |] eqn:Hpiv.
    + destruct (find_pivot_some rows Hpiv) as [Hp Hperm].
      assert (Hwf' : Forall (fun r => List.length r = S (S k)) (p :: others))
        by (eapply Permutation_Forall; eassumption).
      apply Forall_cons_iff in Hwf' as [Hpl Hol].
      assert (Hno : List.length others = k).
      { apply Permutation_length in Hperm. simpl in Hperm. lia. }
      destruct (IH (map (eliminate (scale (/ hd 0 p) p)) others)) as [xs' Hxs'].
      * rewrite length_map. exact Hno.
      * apply Forall_map. eapply Forall_impl; [| exact Hol].
        intros r Hr. apply eliminate_length; assumption.
      * intros c' Hlen Hker.
        destruct p as [| h pt]; [discriminate |].
        simpl in Hp, Hpl. injection Hpl as Hpl. simpl hd in *.
        assert (E : (- (/ h * dot pt (c' ++ [0]))) :: c' = repeat 0 (S k)).
        { apply Htriv; [simpl; congruence |].
          eapply Permutation_Forall; [symmetry; exact Hperm |].
          constructor.
          - cbn [app dot]. field. exact Hp.
          - rewrite Forall_map in Hker. rewrite Forall_forall in *.
            intros r Hr. specialize (Hol r Hr). specialize (Hker r Hr).
            destruct r as [| rh rt]; [discriminate |].
            simpl in Hol. injection Hol as Hol.
            rewrite eliminate_dot in Hker by congruence.
            apply sum_zero_of_diff in Hker.
            cbn [app dot]. rewrite Hker. field. exact Hp. }
        simpl in E. injection E as _ E. exact E.
      * rewrite Hxs'. eexists. reflexivity.
    + exfalso.
      apply find_pivot_none in Hpiv.
      assert (E : 1 :: repeat 0 k = repeat 0 (S k)).
      { apply Htriv; [simpl; rewrite repeat_length; reflexivity |].
        rewrite Forall_forall in *. intros r Hr.
        specialize (Hpiv r Hr). specialize (Hwf r Hr).
        destruct r as [| rh rt]; [discriminate |].
        simpl in Hpiv. subst rh. cbn [app dot].
        rewrite <- (repeat_cons k 0), (dot_comm rt).
        change (0 :: repeat 0 k) with (repeat 0 (S k)).
        rewrite dot_zeros_l. ring. }
      simpl in E. injection E as E. revert E. apply Q_apart_0_1.
Qed.

(** *** The normal equations *)

Lemma madd_shape (m : nat) (A : list (list Qc)) :
  forall B,
    List.length A = List.length B ->
    Forall (fun r => List.length r = m) A ->
    Forall (fun r => List.length r = m) B ->
    List.length (madd A B) = List.length A
    /\ Forall (fun r => List.length r = m) (madd A B).
Proof.
  induction A as [| a A IH]; intros [| b B] Hl HA HB; simpl in *; try discriminate.
  - split; [reflexivity | constructor].
  - apply Forall_cons_iff in HA as [Ha HA]. apply Forall_cons_iff in HB as [Hb HB].
    destruct (IH B ltac:(congruence) HA HB) as [E F].
    split; [congruence |].
    constructor; [rewrite length_vadd; congruence | exact F].
Qed.

Lemma madd_images (m : nat) (v : list Qc) (A : list (list Qc)) :
  forall B,
    Forall (fun r => List.length r = m) A ->
    Forall (fun r => List.length r = m) B ->
    map (fun r => dot r v) (madd A B)
    = vadd (map (fun r => dot r v) A) (map (fun r => dot r v) B).
Proof.
  induction A as [| a A IH]; intros [| b B] HA HB; simpl; try reflexivity.
  apply Forall_cons_iff in HA as [Ha HA]. apply Forall_cons_iff in HB as [Hb HB].
  rewrite dot_vadd_l by congruence. rewrite (IH B HA HB). reflexivity.
Qed.

Lemma outer_shape (x : list Qc) (y : Qc) :
  List.length (outer x y) = List.length x
  /\ Forall (fun r => List.length r = S (List.length x)) (outer x y).
Proof.
  unfold outer. split; [apply length_map |].
  apply Forall_map. apply Forall_forall. intros a _.
  rewrite length_scale, length_app. simpl. lia.
Qed.

Lemma outer_images (x : list Qc) (y : Qc) (v : list Qc) :
  map (fun r => dot r v) (outer x y) = scale (dot (x ++ [y]) v) x.
Proof.
  unfold outer, scale. rewrite map_map. apply map_ext.
  intros a. fold (scale a (x ++ [y])). rewrite dot_scale_l. ring.
Qed.

Lemma zero_system_shape (k : nat) :
  List.length (zero_system k) = k
  /\ Forall (fun r => List.length r = S k) (zero_system k).
Proof.
  unfold zero_system. split; [apply repeat_length |].
  apply Forall_forall. intros r Hr. apply repeat_spec in Hr. subst r.
  apply repeat_length.
Qed.

Lemma normal_equations_cons (k : nat) (c : Qc * list Qc) (cs : list (Qc * list Qc)) :
  normal_equations k (c :: cs)
  = madd (outer (design_row (snd c)) (fst c)) (normal_equations k cs).
Proof. reflexivity. Qed.

Lemma moments_cons (k : nat) (v : list Qc) (c : Qc * list Qc) (cs : list (Qc * list Qc)) :
  moments k v (c :: cs)
  = vadd (scale (dot (design_row (snd c) ++ [fst c]) v) (design_row (snd c)))
         (moments k v cs).
Proof. reflexivity. Qed.

Lemma normal_equations_shape (k : nat) (cases : list (Qc * list Qc)) :
  Forall (fun c => List.length (design_row (snd c)) = k) cases ->
  List.length (normal_equations k cases) = k
  /\ Forall (fun r => List.length r = S k) (normal_equations k cases).
Proof.
  induction cases as [| c cs IH]; intros Hwidth.
  - apply zero_system_shape.
  - apply Forall_cons_iff in Hwidth as [Hc Hcs].
    destruct (IH Hcs) as [Hn Hw].
    destruct (outer_shape (design_row (snd c)) (fst c)) as [On Ow].
    rewrite Hc in On, Ow. rewrite normal_equations_cons.
    destruct (@madd_shape (S k) (outer (design_row (snd c)) (fst c))
                          (normal_equations k cs)) as [E F];
      [congruence | assumption | assumption |].
    split; [congruence | exact F].
Qed.

Lemma normal_equations_images (k : nat) (v : list Qc) (cases : list (Qc * list Qc)) :
  Forall (fun c => List.length (design_row (snd c)) = k) cases ->
  map (fun r => dot r v) (normal_equations k cases) = moments k v cases.
Proof.
  induction cases as [| c cs IH]; intros Hwidth.
  - unfold normal_equations, moments, fold_right, zero_system.
    rewrite map_repeat. rewrite dot_zeros_l. reflexivity.
  - apply Forall_cons_iff in Hwidth as [Hc Hcs].
    destruct (outer_shape (design_row (snd c)) (fst c)) as [On Ow].
    rewrite Hc in Ow. rewrite normal_equations_cons, moments_cons.
    rewrite (@madd_images (S k)); try assumption.
    + rewrite outer_images. rewrite (IH Hcs). reflexivity.
    + exact (proj2 (normal_equations_shape Hcs)).
Qed.

Lemma map_zeros_Forall {A} (f : A -> Qc) (l : list A) :
  forall n, map f l = repeat 0 n -> Forall (fun r => f r = 0) l.
Proof.
  induction l as [| r l IH]; intros [| n] H; simpl in H; try discriminate; constructor.
  - injection H as H _. exact H.
  - injection H as _ H. exact (IH n H).
Qed.

Lemma Forall_map_zeros {A} (f : A -> Qc) (l : list A) :
  Forall (fun r => f r = 0) l -> map f l = repeat 0 (List.length l).
Proof.
  induction 1 as [| r l Hr _ IH]; simpl; [reflexivity |].
  rewrite Hr, IH. reflexivity.
Qed.

Lemma moments_length (k : nat) (v : list Qc) (cases : list (Qc * list Qc)) :
  Forall (fun c => List.length (design_row (snd c)) = k) cases ->
  List.length (moments k v cases) = k.
Proof.
  intros Hwidth.
  rewrite <- (normal_equations_images v Hwidth), length_map.
  exact (proj1 (normal_equations_shape Hwidth)).
Qed.

(** An extended vector on which every case vanishes satisfies every normal
    equation. *)
Lemma normal_equations_annihilate (k : nat) (v : list Qc) (cases : list (Qc * list Qc)) :
  Forall (fun c => List.length (design_row (snd c)) = k) cases ->
  (forall c, In c cases -> dot (design_row (snd c) ++ [fst c]) v = 0) ->
  Forall (fun r => dot r v = 0) (normal_equations k cases).
Proof.
  intros Hwidth Hzero.
  apply (@map_zeros_Forall _ (fun r => dot r v) _ k).
  rewrite (normal_equations_images v Hwidth).
  induction cases as [| c cs IH]; [reflexivity |].
  apply Forall_cons_iff in Hwidth as [Hc Hcs].
  rewrite moments_cons, (Hzero c (or_introl eq_refl)), scale_0, Hc.
  rewrite IH; [| exact Hcs | intros c' Hin; apply Hzero; right; exact Hin].
  rewrite <- (repeat_length 0 k) at 1. apply vadd_zeros_l.
Qed.

Lemma dot_moments (k : nat) (v c : list Qc) (cases : list (Qc * list Qc)) :
  Forall (fun case => List.length (design_row (snd case)) = k) cases ->
  dot (moments k v cases) c
  = sum (map (fun case => dot (design_row (snd case) ++ [fst case]) v
                          * dot (design_row (snd case)) c) cases).
Proof.
  induction cases as [| case cs IH]; intros Hwidth.
  - unfold moments, fold_right. apply dot_zeros_l.
  - apply Forall_cons_iff in Hwidth as [Hc Hcs].
    rewrite moments_cons.
    rewrite dot_vadd_l by (rewrite length_scale, (moments_length v Hcs); exact Hc).
    rewrite dot_scale_l, (IH Hcs). reflexivity.
Qed.

(** *** Sums of squares *)

Lemma square_nonneg (a : Qc) : 0 <= a * a.
Proof.
  destruct (Qclt_le_dec a 0) as [Hneg | Hpos].
  - replace (a * a) with (- a * - a) by ring.
    assert (H : 0 <= - a).
    { replace 0 with (- 0) by ring. apply Qcopp_le_compat, Qclt_le_weak, Hneg. }
    replace 0 with (0 * - a) at 1 by ring.
    apply Qcmult_le_compat_r; assumption.
  - replace 0 with (0 * a) at 1 by ring.
    apply Qcmult_le_compat_r; assumption.
Qed.

Lemma sum_squares_nonneg (l : list Qc) : 0 <= sum (map (fun t => t * t) l).
Proof.
  induction l as [| t l IH]; simpl; [apply Qcle_refl |].
  replace 0 with (0 + 0) by ring.
  apply Qcplus_le_compat; [apply square_nonneg | exact IH].
Qed.

Lemma nonneg_sum_zero (a b : Qc) : 0 <= a -> 0 <= b -> a + b = 0 -> a = 0.
Proof.
  intros Ha Hb H. apply Qcle_antisym; [| exact Ha].
  replace a with (- b) by (rewrite (opp_of_sum_zero (eq_trans (Qcplus_comm b a) H)); ring).
  replace 0 with (- 0) by ring. apply Qcopp_le_compat. exact Hb.
Qed.

Lemma sum_squares_zero (l : list Qc) :
  sum (map (fun t => t * t) l) = 0 -> Forall (fun t => t = 0) l.
Proof.
  induction l as [| t l IH]; simpl; intros H; constructor.
  - assert (E : t * t = 0)
      by (eapply nonneg_sum_zero; [apply square_nonneg | apply sum_squares_nonneg | exact H]).
    destruct (Qcmult_integral _ _ E); assumption.
  - apply IH.
    rewrite Qcplus_comm in H.
    eapply nonneg_sum_zero; [apply sum_squares_nonneg | apply square_nonneg | exact H].
Qed.

(** A vector in the kernel of the normal equations is in the kernel of the
    design matrix. *)
Lemma normal_kernel_design (k : nat) (c : list Qc) (cases : list (Qc * list Qc)) :
  Forall (fun case => List.length (design_row (snd case)) = k) cases ->
  List.length c = k ->
  Forall (fun r => dot r (c ++ [0]) = 0) (normal_equations k cases) ->
  forall case, In case cases -> dot (design_row (snd case)) c = 0.
Proof.
  intros Hwidth Hlen Hker.
  apply Forall_map_zeros in Hker.
  rewrite (normal_equations_images (c ++ [0]) Hwidth) in Hker.
  assert (Hq : dot (moments k (c ++ [0]) cases) c = 0)
    by (rewrite Hker; apply dot_zeros_l).
  rewrite (dot_moments (c ++ [0]) c Hwidth) in Hq.
  assert (Hsq : sum (map (fun t => t * t)
                         (map (fun case => dot (design_row (snd case)) c) cases)) = 0).
  { rewrite map_map. rewrite <- Hq. f_equal. apply map_ext_in.
    intros case Hin. rewrite Forall_forall in Hwidth.
    rewrite dot_app by (rewrite (Hwidth case Hin); symmetry; exact Hlen).
    simpl. ring. }
  apply sum_squares_zero in Hsq. rewrite Forall_map, Forall_forall in Hsq. exact Hsq.
Qed.

(** *** Unit vectors *)

Lemma length_basis (n : nat) : forall i a, List.length (basis n i a) = n.
Proof.
  induction n as [| n IH]; intros [| i] a; simpl; try reflexivity.
  - rewrite repeat_length. reflexivity.
  - rewrite IH. reflexivity.
Qed.

Lemma dot_basis (x : list Qc) :
  forall n i a, List.length x = n -> (i < n)%nat ->
                dot x (basis n i a) = nth i x 0 * a.
Proof.
  induction x as [| t x IH]; intros [| n] i a Hlen Hi; simpl in Hlen; try discriminate;
    try lia.
  injection Hlen as Hlen. destruct i as [| i]; simpl.
  - rewrite (dot_comm x), dot_zeros_l. ring.
  - rewrite (IH n i a Hlen) by lia. ring.
Qed.

Lemma nth_basis_same (n : nat) : forall i a, (i < n)%nat -> nth i (basis n i a) 0 = a.
Proof.
  induction n as [| n IH]; intros [| i] a Hi; simpl; try lia; try reflexivity.
  apply IH. lia.
Qed.

Lemma nth_zeros (n i : nat) : nth i (repeat 0 n) 0 = 0.
Proof.
  revert i. induction n as [| n IH]; intros [| i]; simpl; try reflexivity. apply IH.
Qed.

Lemma nth_basis_other (n : nat) :
  forall i j a, i <> j -> nth j (basis n i a) 0 = 0.
Proof.
  induction n as [| n IH]; intros [| i] [| j] a Hij; simpl; try reflexivity;
    try contradiction.
  - apply nth_zeros.
  - apply IH. congruence.
Qed.

Lemma nth_vadd (u : list Qc) :
  forall w i, List.length u = List.length w ->
              nth i (vadd u w) 0 = nth i u 0 + nth i w 0.
Proof.
  induction u as [| a u IH]; intros [| b w] i Hlen; simpl in Hlen; try discriminate.
  - destruct i; simpl; ring.
  - destruct i as [| i]; simpl; [reflexivity | apply IH; congruence].
Qed.

Lemma minus_one_not_zero : - (1) <> 0.
Proof. intros E. apply (f_equal this) in E. vm_compute in E. discriminate. Qed.

(** A design matrix of which one column is a multiple of another column is
    rank-deficient.  Column 0 is the intercept column. *)
Lemma dependent_columns_rank_deficient (p : nat) (cases : list (Qc * list Qc))
      (i j : nat) (m : Qc) :
  Forall (fun case => List.length (design_row (snd case)) = S p) cases ->
  i <> j -> (i < S p)%nat -> (j < S p)%nat ->
  (forall case, In case cases ->
                nth j (design_row (snd case)) 0 = m * nth i (design_row (snd case)) 0) ->
  rank_deficient p cases.
Proof.
  intros Hwidth Hij Hi Hj Hdep.
  exists (vadd (basis (S p) i m) (basis (S p) j (- (1)))).
  split; [| split].
  - rewrite length_vadd; rewrite !length_basis; reflexivity.
  - intros E. apply (f_equal (fun c => nth j c 0)) in E.
    rewrite nth_vadd in E by (rewrite !length_basis; reflexivity).
    rewrite nth_basis_other, nth_basis_same, nth_zeros in E by assumption.
    apply minus_one_not_zero. rewrite <- E. ring.
  - intros case Hin. rewrite Forall_forall in Hwidth.
    rewrite dot_comm, dot_vadd_l by (rewrite !length_basis; reflexivity).
    rewrite !(dot_comm (basis _ _ _)).
    rewrite !dot_basis by (auto using Hwidth).
    rewrite (Hdep case Hin). ring.
Qed.

End AlgebraProperties.

(** ** The regression engine *)

Module RegressionProperties.

Import Engine Regression AlgebraProperties.
Local Open Scope Qc_scope.
Local Open Scope string_scope.

Lemma values_length (o : Observation) (vars : list string) :
  forall xs, values o vars = Some xs -> List.length xs = List.length vars.
Proof.
  induction vars as [| v vars IH]; simpl; intros xs H.
  - injection H as <-. reflexivity.
  - destruct (value o v); [| discriminate].
    destruct (values o vars) as [xs' |]; [| discriminate].
    injection H as <-. simpl. rewrite (IH xs' eq_refl). reflexivity.
Qed.

(** Every complete case has one value for each predictor. *)
Lemma complete_cases_width (response : string) (predictors : list string) (ds : Dataset) :
  Forall (fun case => List.length (design_row (snd case)) = S (List.length predictors))
         (complete_cases response predictors ds).
Proof.
  induction ds as [| o ds IH]; simpl; [constructor |].
  unfold complete_case.
  destruct (value o response) as [y |]; [| exact IH].
  destruct (values o predictors) as [xs |] eqn:Hxs; [| exact IH].
  constructor; [| exact IH].
  simpl. rewrite (values_length _ _ Hxs). reflexivity.
Qed.

(** On a rank-deficient design matrix the normal equations have no solution
    to return. *)
Lemma solve_rank_deficient (response : string) (predictors : list string) (ds : Dataset) :
  let p := List.length predictors in
  let cases := complete_cases response predictors ds in
  rank_deficient p cases ->
  solve (S p) (normal_equations (S p) cases) = None.
Proof.
  intros p cases (c & Hlen & Hne & Hker).
  pose proof (complete_cases_width response predictors ds) as Hwidth.
  fold p cases in Hwidth.
  apply (@solve_singular (S p) _ c Hlen Hne).
  - exact (proj2 (normal_equations_shape Hwidth)).
  - apply normal_equations_annihilate; [exact Hwidth |].
    intros case Hin. rewrite Forall_forall in Hwidth.
    rewrite dot_app by (rewrite (Hwidth case Hin); symmetry; exact Hlen).
    rewrite (Hker case Hin). simpl. ring.
Qed.

Lemma fit_rank_deficient (ds : Dataset) (response : string) (predictors : list string) :
  let p := List.length predictors in
  let cases := complete_cases response predictors ds in
  rank_deficient p cases ->
  (forall r, fit ds response predictors <> Fitted r)
  /\ ((p + 1 <= List.length cases)%nat ->
      fit ds response predictors = Failed SingularDesignMatrixError).
Proof.
  intros p cases Hrank.
  pose proof (solve_rank_deficient response predictors ds Hrank) as Hsolve.
  unfold fit. fold p cases. fold p cases in Hsolve. rewrite Hsolve.
  destruct (Nat.ltb_spec (List.length cases) (p + 1)) as [Hlt | Hge].
  - split; [intros r; discriminate | lia].
  - split; [intros r; discriminate | reflexivity].
Qed.

(** C1.  When the design matrix is rank-deficient, [fit] never returns
    coefficients, and it fails with [SingularDesignMatrixError] on every
    dataset that passes the rule of the specification on the number of rows,
    at least predictors + 1 complete cases (with fewer the specification asks
    for an [InsufficientDataError] as well, and which of the two errors is
    reported then is not asserted); so it is when a predictor is a multiple
    of another predictor in every complete case (collinear predictors), and
    when a predictor has the same value in every complete case (zero
    variance). *)
Theorem fit_singular_design :
  forall (ds : Dataset) (response : string) (predictors : list string),
    let p := List.length predictors in
    let cases := complete_cases response predictors ds in
    let fails :=
      (forall r, fit ds response predictors <> Fitted r)
      /\ ((p + 1 <= List.length cases)%nat ->
          fit ds response predictors = Failed SingularDesignMatrixError) in
    (rank_deficient p cases -> fails)
    /\ (forall (i j : nat) (m : Qc),
          i <> j -> (i < p)%nat -> (j < p)%nat ->
          (forall case, In case cases -> nth j (snd case) 0 = m * nth i (snd case) 0) ->
          fails)
    /\ (forall (j : nat) (a : Qc),
          (j < p)%nat ->
          (forall case, In case cases -> nth j (snd case) 0 = a) ->
          fails).
Proof.
  intros ds response predictors p cases fails.
  pose proof (complete_cases_width response predictors ds) as Hwidth.
  fold p cases in Hwidth.
  split; [| split].
  - apply fit_rank_deficient.
  - intros i j m Hij Hi Hj Hdep.
    apply fit_rank_deficient. fold p cases.
    apply (@dependent_columns_rank_deficient p cases (S i) (S j) m Hwidth);
      [congruence | lia | lia |].
    intros case Hin. simpl. apply Hdep. exact Hin.
  - intros j a Hj Hconst.
    apply fit_rank_deficient. fold p cases.
    apply (@dependent_columns_rank_deficient p cases 0 (S j) a Hwidth);
      [congruence | lia | lia |].
    intros case Hin. simpl. rewrite (Hconst case Hin). ring.
Qed.

(** Four observations with x2 = 3 * x1. *)
Lemma fit_singular_design_witness :
  let ds := [observation3 1 3 4; observation3 2 6 1; observation3 5 15 2;
             observation3 7 21 0] in
  let cases := complete_cases "y" ["x1"; "x2"] ds in
  (forall case, In case cases ->
                nth 1 (snd case) 0 = of_Z 3 * nth 0 (snd case) 0)
  /\ (2 + 1 <= List.length cases)%nat
  /\ fit ds "y" ["x1"; "x2"] = Failed SingularDesignMatrixError.
Proof.
  intros ds cases.
  assert (Hdep : forall case, In case cases ->
                              nth 1 (snd case) 0 = of_Z 3 * nth 0 (snd case) 0).
  { intros case Hin. vm_compute in Hin.
    repeat (destruct Hin as [<- | Hin]; [apply Qc_decomp; vm_compute; reflexivity |]).
    contradiction. }
  assert (Hn : (2 + 1 <= List.length cases)%nat) by (vm_compute; lia).
  split; [exact Hdep |]. split; [exact Hn |].
  destruct (fit_singular_design ds "y" ["x1"; "x2"]) as (_ & Hcol & _).
  exact (proj2 (Hcol 0%nat 1%nat (of_Z 3) ltac:(discriminate) ltac:(simpl; lia)
                     ltac:(simpl; lia) Hdep) Hn).
Defined.

(** A predictor that never varies: the fit fails in the same way. *)
Example fit_constant_predictor :
  fit [observation2 (Some 5%Z) (Some 1%Z); observation2 (Some 5%Z) (Some 2%Z);
       observation2 (Some 5%Z) (Some 4%Z)] "y" ["x"]
  = Failed SingularDesignMatrixError.
Proof. vm_compute. reflexivity. Qed.

(** A fit that succeeds, on the points (0, 0), (1, 1), (2, 1) and (3, 3):
    intercept -1/10, slope 9/10, residuals 1/10, 1/5, -7/10, 2/5, and with
    threshold 1 the third observation is flagged. *)
Example fit_four_points :
  match fit [observation2 (Some 0%Z) (Some 0%Z); observation2 (Some 1%Z) (Some 1%Z);
             observation2 (Some 2%Z) (Some 1%Z); observation2 (Some 3%Z) (Some 3%Z)]
            "y" ["x"] with
  | Fitted r =>
      Some (this (intercept r), map (fun c => this (snd c)) (coefficients r),
            map this (residuals r), this (residual_variance r), outliers 1 r)
  | Failed _ => None
  end
  = Some ((-1 # 10)%Q, [(9 # 10)%Q], [(1 # 10)%Q; (1 # 5)%Q; (-7 # 10)%Q; (2 # 5)%Q],
          (7 # 20)%Q, [2%nat]).
Proof. vm_compute. reflexivity. Qed.

(** *** A response that is exactly 2x + 1 *)

Lemma two_distinct_members {A} (l : list A) (a b : A) :
  In a l -> In b l -> a <> b -> (2 <= List.length l)%nat.
Proof.
  intros Ha Hb Hab.
  destruct l as [| x [| y l]]; simpl in *; [contradiction | | lia].
  destruct Ha as [<- | []]. destruct Hb as [<- | []]. destruct (Hab eq_refl).
Qed.

Lemma Qc_ltb_irrefl (a : Qc) : Qc_ltb a a = false.
Proof.
  unfold Qc_ltb. replace (a ?= a)%Qc with Eq; [reflexivity |].
  symmetry. apply Qceq_alt. reflexivity.
Qed.

Lemma flagged_from_zeros (e : list Qc) :
  Forall (fun x => x = 0) e -> forall i, flagged_from i 0 e = [].
Proof.
  induction 1 as [| x e Hx _ IH]; intros i; simpl; [reflexivity |].
  subst x. replace (0 * 0) with 0 by ring. rewrite Qc_ltb_irrefl. apply IH.
Qed.

Lemma dot_zeros_self (e : list Qc) : Forall (fun x => x = 0) e -> dot e e = 0.
Proof.
  induction 1 as [| x e Hx _ IH]; simpl; [reflexivity |].
  subst x. rewrite IH. ring.
Qed.

Section ExactLine.

Variable ds : Dataset.
Variables y x : string.

Let cases := complete_cases y [x] ds.

Hypothesis on_the_line :
  forall case, In case cases -> exists t, snd case = [t] /\ fst case = of_Z 2 * t + 1.

Hypothesis two_points :
  exists c1 c2, In c1 cases /\ In c2 cases /\ snd c1 <> snd c2.

Lemma exact_line_width :
  Forall (fun case => List.length (design_row (snd case)) = 2%nat) cases.
Proof. exact (complete_cases_width y [x] ds). Qed.

(** With two different values of x the design matrix has full rank, and so
    have the normal equations. *)
Lemma exact_line_kernel (c : list Qc) :
  List.length c = 2%nat ->
  Forall (fun r => dot r (c ++ [0])%list = 0) (normal_equations 2 cases) ->
  c = repeat 0 2.
Proof.
  intros Hlen Hker.
  pose proof (@normal_kernel_design 2 c cases exact_line_width Hlen Hker) as Hdesign.
  destruct c as [| c0 [| c1 [| ? ?]]]; try discriminate.
  destruct two_points as (p1 & p2 & H1 & H2 & Hdiff).
  destruct (on_the_line p1 H1) as (t1 & E1 & _).
  destruct (on_the_line p2 H2) as (t2 & E2 & _).
  pose proof (Hdesign p1 H1) as D1. pose proof (Hdesign p2 H2) as D2.
  rewrite E1 in D1. rewrite E2 in D2. simpl in D1, D2.
  assert (Ht : t1 - t2 <> 0).
  { intros E. apply Hdiff. rewrite E1, E2. f_equal. apply sum_zero_of_diff. exact E. }
  assert (Hc1 : c1 = 0).
  { apply (Qcmult_integral_l _ _ Ht).
    transitivity ((1 * c0 + (t1 * c1 + 0)) - (1 * c0 + (t2 * c1 + 0))); [ring |].
    rewrite D1, D2. ring. }
  assert (Hc0 : c0 = 0).
  { transitivity ((1 * c0 + (t1 * c1 + 0)) - t1 * c1); [ring |].
    rewrite D1, Hc1. ring. }
  rewrite Hc0, Hc1. reflexivity.
Qed.

(** The normal equations have the solution (1, 2), and [solve] returns it. *)
Lemma exact_line_solution :
  solve 2 (normal_equations 2 cases) = Some [1; of_Z 2].
Proof.
  destruct (normal_equations_shape exact_line_width) as [Hn Hw].
  destruct (@solve_complete 2 _ Hn Hw exact_line_kernel) as [beta Hbeta].
  destruct (@solve_sound 2 _ _ Hn Hw Hbeta) as [Hlen Hsol].
  rewrite Hbeta. f_equal.
  destruct beta as [| b0 [| b1 [| ? ?]]]; try discriminate.
  assert (Hline : Forall (fun r => dot r ([1; of_Z 2] ++ [- (1)])%list = 0)
                         (normal_equations 2 cases)).
  { apply normal_equations_annihilate; [exact exact_line_width |].
    intros case Hin. destruct (on_the_line case Hin) as (t & Et & Ey).
    rewrite Et, Ey. simpl. ring. }
  assert (Hdiff : [b0 - 1; b1 - of_Z 2] = repeat 0 2).
  { apply exact_line_kernel; [reflexivity |].
    rewrite Forall_forall in *. intros r Hr.
    specialize (Hw r Hr). specialize (Hsol r Hr). specialize (Hline r Hr).
    destruct r as [| r0 [| r1 [| r2 [| ? ?]]]]; try discriminate.
    simpl in Hsol, Hline |- *.
    transitivity ((r0 * b0 + (r1 * b1 + (r2 * - (1) + 0)))
                  - (r0 * 1 + (r1 * of_Z 2 + (r2 * - (1) + 0)))); [ring |].
    rewrite Hsol, Hline. ring. }
  pose proof (f_equal (fun l => nth 0 l 0) Hdiff) as E0.
  pose proof (f_equal (fun l => nth 1 l 0) Hdiff) as E1.
  cbn [nth repeat] in E0, E1.
  rewrite (sum_zero_of_diff E0), (sum_zero_of_diff E1). reflexivity.
Qed.

Lemma exact_line_residuals :
  Forall (fun e => e = 0)
         (map (fun c => fst c - dot (design_row (snd c)) [1; of_Z 2]) cases).
Proof.
  apply Forall_map, Forall_forall. intros case Hin.
  destruct (on_the_line case Hin) as (t & Et & Ey).
  rewrite Et, Ey. simpl. ring.
Qed.

End ExactLine.

(** C3.  On a dataset whose complete cases all satisfy y = 2x + 1, with two
    different values of x among them, [fit] returns intercept 1, coefficient
    2 and R squared 1, exactly, and the outlier detection that follows flags
    no observation, whatever the threshold. *)
Theorem fit_exact_line :
  forall (ds : Dataset) (y x : string) (threshold : Qc),
    let cases := complete_cases y [x] ds in
    (forall case, In case cases ->
                  exists t, snd case = [t] /\ fst case = of_Z 2 * t + 1) ->
    (exists c1 c2, In c1 cases /\ In c2 cases /\ snd c1 <> snd c2) ->
    exists r, fit ds y [x] = Fitted r
              /\ intercept r = 1
              /\ coefficients r = [(x, of_Z 2)]
              /\ r_squared r = 1
              /\ outliers threshold r = [].
Proof.
  intros ds y x threshold cases Hline Htwo.
  pose proof (exact_line_solution ds y x Hline Htwo) as Hsolve.
  pose proof (exact_line_residuals ds y x Hline) as Hres.
  fold cases in Hsolve, Hres.
  destruct Htwo as (p1 & p2 & H1 & H2 & Hdiff).
  assert (Hn : (2 <= List.length cases)%nat).
  { apply two_distinct_members with (a := p1) (b := p2); [exact H1 | exact H2 | congruence]. }
  unfold fit. fold cases. change (List.length [x]) with 1%nat.
  destruct (Nat.ltb_spec (List.length cases) (1 + 1)) as [Hlt | _]; [lia |].
  rewrite Hsolve.
  eexists. split; [reflexivity |].
  split; [reflexivity |]. split; [reflexivity |]. split.
  - cbn [r_squared]. rewrite (dot_zeros_self Hres). unfold Qcdiv. ring.
  - unfold outliers. cbn [residuals residual_variance].
    rewrite (dot_zeros_self Hres).
    replace (threshold * threshold * (0 / of_nat (List.length cases - 1 - 1))) with 0
      by (unfold Qcdiv; ring).
    apply flagged_from_zeros. exact Hres.
Qed.

(** The points (1, 3), (2, 5) and (4, 9), and an observation without x. *)
Lemma fit_exact_line_witness :
  let ds := [observation2 (Some 1%Z) (Some 3%Z); observation2 (Some 2%Z) (Some 5%Z);
             observation2 None (Some 0%Z); observation2 (Some 4%Z) (Some 9%Z)] in
  let cases := complete_cases "y" ["x"] ds in
  (forall case, In case cases ->
                exists t, snd case = [t] /\ fst case = of_Z 2 * t + 1)
  /\ (exists c1 c2, In c1 cases /\ In c2 cases /\ snd c1 <> snd c2)
  /\ exists r, fit ds "y" ["x"] = Fitted r
               /\ intercept r = 1
               /\ coefficients r = [("x", of_Z 2)]
               /\ r_squared r = 1
               /\ outliers (of_Z 3) r = []
               /\ excluded r = 1%nat.
Proof.
  intros ds cases.
  assert (Hline : forall case, In case cases ->
                               exists t, snd case = [t] /\ fst case = of_Z 2 * t + 1).
  { intros case Hin. vm_compute in Hin.
    repeat (destruct Hin as [<- | Hin];
            [eexists; split; [reflexivity | apply Qc_decomp; vm_compute; reflexivity] |]).
    contradiction. }
  assert (Htwo : exists c1 c2, In c1 cases /\ In c2 cases /\ snd c1 <> snd c2).
  { exists (of_Z 3, [of_Z 1]), (of_Z 5, [of_Z 2]).
    split; [left; reflexivity |]. split; [right; left; reflexivity |].
    intros E. apply (f_equal (fun l => this (hd 0 l))) in E. vm_compute in E. discriminate. }
  split; [exact Hline |]. split; [exact Htwo |].
  destruct (fit_exact_line ds "y" "x" (of_Z 3) Hline Htwo) as (r & Hfit & Hi & Hc & Hr & Ho).
  exists r. repeat (split; [assumption |]).
  assert (E : Fitted r = fit ds "y" ["x"]) by (symmetry; exact Hfit).
  apply (f_equal (fun f => match f with Fitted r' => excluded r' | Failed _ => 0%nat end)) in E.
  exact E.
Defined.

End RegressionProperties.

(** ** The correlation engine *)

Module CorrelationProperties.

Import Engine Correlation AlgebraProperties.

(** *** Rationals as reals *)

Lemma Q2R_Qcplus (a b : Qc) : Q2R (a + b)%Qc = (Q2R a + Q2R b)%R.
Proof.
  rewrite <- Q2R_plus. apply Qeq_eqR. exact (Qred_correct (a + b)%Q).
Qed.

Lemma Q2R_Qcmult (a b : Qc) : Q2R (a * b)%Qc = (Q2R a * Q2R b)%R.
Proof.
  rewrite <- Q2R_mult. apply Qeq_eqR. exact (Qred_correct (a * b)%Q).
Qed.

Lemma Q2R_Qc0 : Q2R (Q2Qc 0) = 0%R.
Proof. unfold Q2R. simpl. lra. Qed.

Lemma Q2R_Qc_zero (a : Qc) : Q2R a = 0%R -> a = Q2Qc 0.
Proof.
  intros H. apply Qc_is_canon. apply eqR_Qeq. rewrite H. symmetry. exact Q2R_Qc0.
Qed.

Local Open Scope R_scope.

(** *** The inequality of Cauchy and Schwarz *)

Lemma dot_self_nonneg (u : list Qc) : 0 <= Q2R (dot u u).
Proof.
  induction u as [| a u IH]; cbn [dot].
  - rewrite Q2R_Qc0. lra.
  - rewrite Q2R_Qcplus, Q2R_Qcmult.
    pose proof (Rle_0_sqr (Q2R a)) as Hsq. unfold Rsqr in Hsq. lra.
Qed.

Lemma quadratic_form_nonneg (u : list Qc) :
  forall (v : list Qc) (s t : R),
    0 <= s * s * Q2R (dot u u) + 2 * s * t * Q2R (dot u v) + t * t * Q2R (dot v v).
Proof.
  induction u as [| a u IH]; intros v s t.
  - change (dot [] []) with (Q2Qc 0). change (dot [] v) with (Q2Qc 0).
    rewrite Q2R_Qc0. pose proof (dot_self_nonneg v) as H.
    revert H. generalize (Q2R (dot v v)). intros X H.
    pose proof (Rmult_le_pos _ _ (Rle_0_sqr t) H) as H1. unfold Rsqr in H1. lra.
  - destruct v as [| b v].
    + change (dot [] []) with (Q2Qc 0). change (dot (a :: u) []) with (Q2Qc 0).
      rewrite Q2R_Qc0. pose proof (dot_self_nonneg (a :: u)) as H.
      revert H. generalize (Q2R (dot (a :: u) (a :: u))). intros X H.
      pose proof (Rmult_le_pos _ _ (Rle_0_sqr s) H) as H1. unfold Rsqr in H1. lra.
    + cbn [dot]. rewrite !Q2R_Qcplus, !Q2R_Qcmult.
      specialize (IH v s t).
      pose proof (Rle_0_sqr (s * Q2R a + t * Q2R b)) as Hsq. unfold Rsqr in Hsq.
      revert IH Hsq.
      generalize (Q2R a) (Q2R b) (Q2R (dot u u)) (Q2R (dot u v)) (Q2R (dot v v)).
      intros x y A P B IH Hsq. lra.
Qed.

Lemma cauchy_schwarz (u v : list Qc) :
  Q2R (dot u v) * Q2R (dot u v) <= Q2R (dot u u) * Q2R (dot v v).
Proof.
  pose proof (dot_self_nonneg u) as HA. pose proof (dot_self_nonneg v) as HB.
  set (A := Q2R (dot u u)) in *. set (B := Q2R (dot v v)) in *.
  set (P := Q2R (dot u v)).
  pose proof (quadratic_form_nonneg u v B (- P)) as H1.
  pose proof (quadratic_form_nonneg u v P (- (A + 1) / 2)) as H2.
  fold A B P in H1, H2.
  destruct (Rle_lt_or_eq_dec 0 B HB) as [Hpos | Hzero].
  - assert (H : 0 <= B * (A * B - P * P)) by nra.
    assert (0 <= A * B - P * P); [| lra].
    apply (Rmult_le_reg_l B); [exact Hpos | lra].
  - rewrite <- Hzero in *.
    assert (P * P <= 0) by nra. nra.
Qed.

(** A quotient by a positive root of something that bounds the square of the
    numerator is between -1 and 1. *)
Lemma quotient_bounds (P S : R) : 0 < S -> P * P <= S * S -> -1 <= P / S <= 1.
Proof.
  intros HS Hsq.
  assert (HP : - S <= P <= S) by nra.
  assert (E : P / S * S = P) by (field; lra).
  split.
  - apply (Rmult_le_reg_r S); [exact HS | lra].
  - apply (Rmult_le_reg_r S); [exact HS | lra].
Qed.

(** *** The cells of the matrix *)

Lemma complete_pairs_swap (a b : string) (ds : Dataset) :
  complete_pairs b a ds = map (fun p => (snd p, fst p)) (complete_pairs a b ds).
Proof.
  induction ds as [| o ds IH]; simpl; [reflexivity |].
  destruct (value o a), (value o b); simpl; rewrite IH; reflexivity.
Qed.

Lemma complete_pairs_diagonal (a : string) (ds : Dataset) :
  map fst (complete_pairs a a ds) = map snd (complete_pairs a a ds).
Proof.
  induction ds as [| o ds IH]; simpl; [reflexivity |].
  destruct (value o a); simpl; rewrite IH; reflexivity.
Qed.

Lemma cell_symmetric (a b : string) (ds : Dataset) : cell a b ds = cell b a ds.
Proof.
  unfold cell. rewrite (complete_pairs_swap a b ds), !map_map. cbn [fst snd].
  set (dx := centered (map (fun p => fst p) (complete_pairs a b ds))).
  set (dy := centered (map (fun p => snd p) (complete_pairs a b ds))).
  change (centered (map fst (complete_pairs a b ds))) with dx.
  change (centered (map snd (complete_pairs a b ds))) with dy.
  rewrite (orb_comm (is_zero (dot dy dy))), (dot_comm dy dx),
    (Qcmult_comm (dot dy dy)).
  reflexivity.
Qed.

Lemma Q2R_nonzero_positive (s : Qc) : 0 <= Q2R s -> is_zero s = false -> 0 < Q2R s.
Proof.
  intros Hs Hz. destruct (Rle_lt_or_eq_dec 0 (Q2R s) Hs) as [H | H]; [exact H |].
  exfalso. apply (is_zero_false Hz). apply Q2R_Qc_zero. symmetry. exact H.
Qed.

Lemma cell_bounds (a b : string) (ds : Dataset) (r : R) :
  cell a b ds = Coefficient r -> -1 <= r <= 1.
Proof.
  unfold cell.
  set (dx := centered (map fst (complete_pairs a b ds))).
  set (dy := centered (map snd (complete_pairs a b ds))).
  destruct (is_zero (dot dx dx)) eqn:Hx; [discriminate |].
  destruct (is_zero (dot dy dy)) eqn:Hy; [discriminate |].
  cbn [orb]. intros E.
  assert (Er : r = Q2R (dot dx dy) / sqrt (Q2R (dot dx dx * dot dy dy)%Qc)) by congruence.
  rewrite Er. clear E Er.
  pose proof (@Q2R_nonzero_positive _ (dot_self_nonneg dx) Hx) as HA.
  pose proof (@Q2R_nonzero_positive _ (dot_self_nonneg dy) Hy) as HB.
  pose proof (cauchy_schwarz dx dy) as HCS.
  rewrite Q2R_Qcmult.
  assert (HAB : 0 < Q2R (dot dx dx) * Q2R (dot dy dy)) by (apply Rmult_lt_0_compat; assumption).
  apply quotient_bounds.
  - apply sqrt_lt_R0. exact HAB.
  - rewrite sqrt_sqrt by lra. exact HCS.
Qed.

Lemma cell_diagonal (a : string) (ds : Dataset) :
  cell a a ds = DegenerateVarianceError \/ cell a a ds = Coefficient 1.
Proof.
  unfold cell. rewrite <- (complete_pairs_diagonal a ds).
  set (dx := centered (map fst (complete_pairs a a ds))).
  destruct (is_zero (dot dx dx)) eqn:Hx; [left; reflexivity |].
  right. cbn [orb]. f_equal.
  pose proof (@Q2R_nonzero_positive _ (dot_self_nonneg dx) Hx) as HA.
  rewrite Q2R_Qcmult, sqrt_square by lra.
  field. lra.
Qed.

Lemma assoc_map_key {A} (f : string -> A) (keys : list string) (k : string) :
  In k keys -> assoc k (map (fun a => (a, f a)) keys) = Some (f k).
Proof.
  induction keys as [| a keys IH]; intros Hin; [contradiction |].
  simpl. destruct (String.eqb_spec k a) as [-> | Hne]; [reflexivity |].
  apply IH. destruct Hin as [E | Hin]; [congruence | exact Hin].
Qed.

Lemma entry_correlate (ds : Dataset) (variables : list string) (a b : string) :
  In a variables -> In b variables ->
  entry (correlate ds variables) a b = Some (cell a b ds).
Proof.
  intros Ha Hb. unfold entry, correlate.
  rewrite (assoc_map_key (fun a => map (fun b => (b, cell a b ds)) variables) _ _ Ha).
  apply (assoc_map_key (fun b => cell a b ds) _ _ Hb).
Qed.

(** C2.  For every dataset and every list of variables, the matrix of
    [correlate] is symmetric, every coefficient in it lies between -1 and 1,
    and a diagonal cell that is not the zero-variance error holds 1. *)
Theorem correlate_symmetric_bounded :
  forall (ds : Dataset) (variables : list string) (a b : string),
    In a variables -> In b variables ->
    let m := correlate ds variables in
    entry m a b = entry m b a
    /\ (forall r, entry m a b = Some (Coefficient r) -> -1 <= r <= 1)
    /\ (entry m a a <> Some DegenerateVarianceError ->
        entry m a a = Some (Coefficient 1)).
Proof.
  intros ds variables a b Ha Hb m. subst m.
  rewrite !entry_correlate by assumption.
  split; [f_equal; apply cell_symmetric |]. split.
  - intros r E. injection E as E. exact (cell_bounds _ _ _ E).
  - intros Hnd. destruct (cell_diagonal a ds) as [E | E]; rewrite E in *.
    + contradiction Hnd. reflexivity.
    + reflexivity.
Qed.

(** Three observations of x and y, one of them without y, and a variable z
    that never varies. *)
Lemma correlate_symmetric_bounded_witness :
  let o := fun (x : Z) (y : option Z) =>
    [("x"%string, Some (of_Z x)); ("y"%string, option_map of_Z y);
     ("z"%string, Some (of_Z 7))] in
  let ds := [o 1%Z (Some 2%Z); o 2%Z None; o 3%Z (Some 1%Z); o 5%Z (Some 4%Z)] in
  let variables := ["x"; "y"; "z"]%string in
  let m := correlate ds variables in
  In "x"%string variables /\ In "y"%string variables
  /\ entry m "x" "y" = entry m "y" "x"
  /\ (forall r, entry m "x" "y" = Some (Coefficient r) -> -1 <= r <= 1)
  /\ entry m "x" "x" = Some (Coefficient 1)
  /\ entry m "z" "z" = Some DegenerateVarianceError.
Proof.
  intros o ds variables m.
  assert (Hx : In "x"%string variables) by (left; reflexivity).
  assert (Hy : In "y"%string variables) by (right; left; reflexivity).
  destruct (correlate_symmetric_bounded ds variables "x" "y" Hx Hy) as (Hs & Hb & Hd).
  split; [exact Hx |]. split; [exact Hy |]. split; [exact Hs |]. split; [exact Hb |].
  split.
  - apply Hd. subst m. rewrite entry_correlate by assumption.
    unfold cell.
    destruct (is_zero _ || is_zero _)%bool eqn:Hz; [| discriminate].
    vm_compute in Hz. discriminate.
  - subst m. rewrite entry_correlate by (right; right; left; reflexivity).
    unfold cell.
    destruct (is_zero _ || is_zero _)%bool eqn:Hz; [reflexivity |].
    vm_compute in Hz. discriminate.
Defined.

End CorrelationProperties.

(** ** The prompt composer *)

Module PromptComposerProperties.

Import PromptComposer.

Lemma grounding_facts_app (cs cs' : list Clause) :
  grounding_facts (cs ++ cs') = grounding_facts cs ++ grounding_facts cs'.
Proof.
  induction cs as [| c cs IH]; simpl; [reflexivity |].
  destruct c; simpl; rewrite IH; reflexivity.
Qed.

Lemma grounding_facts_map (facts : list string) :
  grounding_facts (map GroundingFact facts) = facts.
Proof.
  induction facts as [| f facts IH]; simpl; [reflexivity |]. rewrite IH. reflexivity.
Qed.

(** The grounding facts of a composed prompt are the included ones. *)
Lemma grounding_facts_compose (d : Depth) (grounding : list string) (userMessage : string) :
  grounding_facts (systemPrompt (compose d grounding userMessage)) = included d grounding.
Proof.
  unfold compose. cbn [systemPrompt grounding_facts].
  rewrite grounding_facts_app, grounding_facts_map.
  destruct d; simpl; apply app_nil_r.
Qed.

(** C6.  The context composed for [brief] holds at most 3 grounding facts,
    the one for [standard] at most 8, and the one for [deep] holds every
    grounding fact, in order, and a methodology caveat clause. *)
Theorem compose_grounding_by_depth :
  forall (grounding : list string) (userMessage : string),
    let facts d := grounding_facts (systemPrompt (compose d grounding userMessage)) in
    (List.length (facts brief) <= 3)%nat
    /\ (List.length (facts standard) <= 8)%nat
    /\ facts deep = grounding
    /\ existsb is_caveat (systemPrompt (compose deep grounding userMessage)) = true.
Proof.
  intros grounding userMessage facts. subst facts. cbv beta.
  rewrite !grounding_facts_compose. cbn [included].
  split; [apply firstn_le_length |]. split; [apply firstn_le_length |].
  split; [reflexivity |].
  unfold compose. cbn [systemPrompt existsb is_caveat orb].
  rewrite existsb_app. cbn [existsb is_caveat orb].
  apply orb_true_r.
Qed.

(** Ten grounding facts: three are kept for brief, eight for standard, all
    ten for deep. *)
Example compose_ten_facts :
  let grounding := map (fun n => String (ascii_of_nat (65 + n)) EmptyString) (seq 0 10) in
  map (fun d => List.length (grounding_facts (systemPrompt (compose d grounding "q"))))
      [brief; standard; deep]
  = [3; 8; 10]%nat.
Proof. reflexivity. Qed.

End PromptComposerProperties.

(* ================================================================== *)
(** * Part III.  Further properties of the script *)
(* ================================================================== *)

(** ** The chat, beyond the request and the failure *)

Module ChatMore.

Import JS Chat Strings ChatFaults ChatProperties.
Local Open Scope string_scope.

Lemma trim_start_blank (s : string) : blank s = true -> trim_start s = EmptyString.
Proof.
  induction s as [| c s IH]; simpl; [reflexivity |].
  destruct (is_white_space c); simpl; [exact IH | discriminate].
Qed.

Lemma trim_start_first (s : string) : not_white (first_char (trim_start s)) = true.
Proof.
  induction s as [| c s IH]; simpl; [reflexivity |].
  destruct (is_white_space c) eqn:Hc; [exact IH |].
  simpl. rewrite Hc. reflexivity.
Qed.

Lemma trim_end_first (s : string) :
  not_white (first_char s) = true ->
  first_char (trim_end s) = first_char s.
Proof.
  destruct s as [| c s]; simpl; [reflexivity |].
  intros Hc. destruct (trim_end s); [| reflexivity].
  destruct (is_white_space c); [discriminate | reflexivity].
Qed.

Lemma trim_end_last (s : string) : not_white (last_char (trim_end s)) = true.
Proof.
  induction s as [| c s IH]; simpl; [reflexivity |].
  destruct (trim_end s) as [| d kept] eqn:Hk.
  - destruct (is_white_space c) eqn:Hc; simpl; [reflexivity | rewrite Hc; reflexivity].
  - exact IH.
Qed.

(** [trim] leaves nothing of a blank string, and otherwise a string that
    neither starts nor ends with white space. *)
Lemma trim_blank (s : string) : blank s = true -> trim s = EmptyString.
Proof. intros H. unfold trim. rewrite (trim_start_blank s H). reflexivity. Qed.

Lemma trim_ends (s : string) :
  not_white (first_char (trim s)) = true /\ not_white (last_char (trim s)) = true.
Proof.
  unfold trim. split; [| apply trim_end_last].
  rewrite trim_end_first; apply trim_start_first.
Qed.

(** What [sendMessage] leaves behind on a message that is not empty, for
    every answer of the server. *)
Lemma sendMessage_outcome fetch nts tem (p : Page) :
  let message := trim (chat_input_field p) in
  let rq := ai_request message (research_depth p) in
  message <> EmptyString ->
  sendMessage fetch nts tem p =
  Returns
    {| chat_input_field := EmptyString;
       research_depth := research_depth p;
       chat_messages :=
         (chat_messages p ++ [message_div nts "user" (VStr message);
                              message_div nts "ai" (call_reply (fetch rq))])%list;
       scrolled_to_end := true;
       console_error :=
         (console_error p
          ++ match call_error nts tem (fetch rq) with
             | Some e => [("Error calling AI:", e)]
             | None => []
             end)%list;
       requests := (requests p ++ [rq])%list |}
    tt.
Proof.
  intros message rq Hne.
  rewrite (sendMessage_unfold fetch nts tem p Hne). fold message rq.
  unfold try_catch, bind, await_fetch, await_json, get_prop, call_reply, call_error,
    addMessageToChat, console_error_log, modify.
  destruct (fetch rq) as [e | r]; simpl.
  - rewrite <- app_assoc. reflexivity.
  - destruct (ok r); simpl.
    + destruct (json r) as [e | v]; simpl.
      * rewrite <- app_assoc. reflexivity.
      * destruct (read v "response"); simpl.
        -- rewrite <- app_assoc, app_nil_r. reflexivity.
        -- rewrite <- app_assoc. reflexivity.
    + rewrite <- app_assoc. reflexivity.
Qed.

(** X1.  An input of white space only is no message: [sendMessage] returns
    at once, nothing is added to the chat, the field keeps its content and
    no request is sent. *)
Theorem sendMessage_blank_input :
  forall (fetch : Request -> FetchResult) (nts : Qc -> string) (tem : string) (p : Page),
    blank (chat_input_field p) = true ->
    sendMessage fetch nts tem p = Returns p tt.
Proof.
  intros fetch nts tem p Hblank.
  unfold sendMessage, bind, gets. rewrite (trim_blank _ Hblank). reflexivity.
Qed.

(** A field that holds a space, a tab and a line feed. *)
Lemma sendMessage_blank_input_witness :
  let p := {| chat_input_field :=
                String " " (String (ascii_of_nat 9) (String (ascii_of_nat 10) EmptyString));
              research_depth := "brief";
              chat_messages := [];
              scrolled_to_end := false;
              console_error := [];
              requests := [] |} in
  blank (chat_input_field p) = true
  /\ sendMessage (fun _ => FetchRejects (Error "offline")) (fun _ => "0") "TypeError" p
     = Returns p tt.
Proof.
  intros p.
  assert (Hblank : blank (chat_input_field p) = true) by reflexivity.
  split; [exact Hblank |].
  exact (sendMessage_blank_input (fun _ => FetchRejects (Error "offline"))
                                 (fun _ => "0") "TypeError" p Hblank).
Defined.

(** X2.  Whatever the server answers, a message that is not empty empties
    the field, sends exactly one request and adds exactly two messages to
    the chat, the user's and then one of the assistant; the chat is scrolled
    to its end and the selected depth is untouched. *)
Theorem sendMessage_two_messages :
  forall (fetch : Request -> FetchResult) (nts : Qc -> string) (tem : string) (p : Page),
    let message := trim (chat_input_field p) in
    let p' := final_state (sendMessage fetch nts tem p) in
    message <> EmptyString ->
    chat_input_field p' = EmptyString
    /\ research_depth p' = research_depth p
    /\ scrolled_to_end p' = true
    /\ List.length (requests p') = S (List.length (requests p))
    /\ exists reply,
         chat_messages p' =
         (chat_messages p ++ [message_div nts "user" (VStr message);
                              message_div nts "ai" reply])%list.
Proof.
  intros fetch nts tem p message p' Hne. subst p'.
  rewrite (sendMessage_outcome fetch nts tem p Hne). simpl.
  repeat split.
  - rewrite length_app. simpl. lia.
  - eexists. reflexivity.
Qed.

Lemma sendMessage_two_messages_witness :
  let p := {| chat_input_field := "why?";
              research_depth := "brief";
              chat_messages := [];
              scrolled_to_end := false;
              console_error := [];
              requests := [] |} in
  let p' := final_state (sendMessage (fun _ => FetchRejects (Error "offline"))
                                     (fun _ => "0") "TypeError" p) in
  trim (chat_input_field p) <> EmptyString
  /\ chat_input_field p' = EmptyString
  /\ List.length (chat_messages p') = 2%nat
  /\ List.length (requests p') = 1%nat.
Proof.
  intros p p'.
  assert (Hne : trim (chat_input_field p) <> EmptyString) by (vm_compute; discriminate).
  destruct (sendMessage_two_messages (fun _ => FetchRejects (Error "offline"))
                                     (fun _ => "0") "TypeError" p Hne)
    as (Hf & _ & _ & Hr & reply & Hc).
  split; [exact Hne |]. split; [exact Hf |]. split.
  - subst p'. rewrite Hc. reflexivity.
  - subst p'. rewrite Hr. reflexivity.
Defined.



(** X4.  [sendMessage] never sends an empty or padded message: every request
    it adds is the POST request to the assistant whose body carries the
    trimmed content of the input field and the selected depth, and that
    trimmed content is not empty and neither starts nor ends with white
    space. *)
Theorem sendMessage_sends_trimmed :
  forall (fetch : Request -> FetchResult) (nts : Qc -> string) (tem : string) (p : Page)
         (rq : Request),
    In rq (requests (final_state (sendMessage fetch nts tem p))) ->
    In rq (requests p)
    \/ (rq = ai_request (trim (chat_input_field p)) (research_depth p)
        /\ body rq = VObj [("message", VStr (trim (chat_input_field p)));
                           ("research_depth", VStr (research_depth p))]
        /\ trim (chat_input_field p) <> EmptyString
        /\ not_white (first_char (trim (chat_input_field p))) = true
        /\ not_white (last_char (trim (chat_input_field p))) = true).
Proof.
  intros fetch nts tem p rq.
  destruct (string_dec (trim (chat_input_field p)) EmptyString) as [He | Hne].
  - unfold sendMessage, bind, gets. rewrite He. simpl. intros H. left. exact H.
  - rewrite (sendMessage_outcome fetch nts tem p Hne). simpl.
    intros H. apply in_app_or in H. destruct H as [H | [<- | []]]; [left; exact H |].
    right.
    destruct (trim_ends (chat_input_field p)) as [Hf Hl].
    repeat split; assumption.
Qed.

Lemma sendMessage_sends_trimmed_witness :
  let p := {| chat_input_field := "  why?  ";
              research_depth := "brief";
              chat_messages := [];
              scrolled_to_end := false;
              console_error := [];
              requests := [] |} in
  let fetch := fun _ : Request => FetchRejects (Error "offline") in
  let rq := ai_request "why?" "brief" in
  In rq (requests (final_state (sendMessage fetch (fun _ => "0") "TypeError" p)))
  /\ trim (chat_input_field p) = "why?"
  /\ body rq = VObj [("message", VStr "why?"); ("research_depth", VStr "brief")]
  /\ not_white (first_char "why?") = true
  /\ not_white (last_char "why?") = true.
Proof.
  intros p fetch rq.
  assert (Hin : In rq (requests (final_state (sendMessage fetch (fun _ => "0") "TypeError" p))))
    by (left; reflexivity).
  split; [exact Hin |].
  destruct (sendMessage_sends_trimmed fetch (fun _ => "0") "TypeError" p rq Hin)
    as [[] | (_ & Hb & _ & Hf & Hl)].
  split; [reflexivity |].
  split; [exact Hb |]. split; [exact Hf | exact Hl].
Defined.

End ChatMore.

(** ** The loader, beyond the failure of a request *)

Module LoaderMore.

Import JS Loader LoaderFaults LoaderProperties.
Local Open Scope string_scope.

Lemma block_error_succeeded (fetch : string -> FetchResult) (path failure : string) :
  (exists v, block_error fetch path failure = None /\ succeeded fetch path = Some v)
  \/ (exists e, block_error fetch path failure = Some e /\ succeeded fetch path = None).
Proof.
  unfold block_error, succeeded, API_BASE_URL.
  destruct (fetch (Chat.API_BASE_URL ++ path)) as [e | r].
  - right. exists e. split; reflexivity.
  - destruct (ok r).
    + destruct (json r) as [e | v].
      * right. exists e. split; reflexivity.
      * left. exists v. split; reflexivity.
    + right. eexists. split; reflexivity.
Qed.

Section More.

Variable Page : Type.
Variable fetch : string -> FetchResult.
Variable tem : string.
Variable render : Renderer -> JSValue -> M Page unit.

(** A block of [loadData], by its fault. *)
Lemma fetch_json_block (path failure : string) (w : World Page) :
  fetch_json fetch path failure w
  = match block_error fetch path failure with
    | Some e => Throws w e
    | None => match succeeded fetch path with
              | Some v => Returns w v
              | None => Throws w (Error failure)
              end
    end.
Proof.
  unfold fetch_json, block_error, succeeded, API_BASE_URL, bind, await_fetch, await_json.
  destruct (fetch (Chat.API_BASE_URL ++ path)) as [e | r]; simpl; [reflexivity |].
  destruct (ok r); simpl; [| reflexivity].
  destruct (json r); reflexivity.
Qed.

Ltac block :=
  match goal with
  | |- context [fetch_json fetch ?path ?failure ?w] =>
      rewrite (fetch_json_block path failure w);
      let e := fresh "e" in
      let v := fresh "v" in
      let Hb := fresh "Hb" in
      let Hs := fresh "Hs" in
      destruct (block_error_succeeded fetch path failure)
        as [(v & Hb & Hs) | (e & Hb & Hs)];
      rewrite Hb; try rewrite Hs; cbv beta iota
  end.

(** X5.  [loadData] never ends with an exception and never leaves the loading
    overlay shown, whatever the server answers and whatever the rendering
    functions do. *)
Theorem loadData_always_returns :
  forall w : World Page,
    let out := loadData fetch tem render w in
    returns_normally out = true
    /\ loading_overlay_show (final_state out) = false.
Proof.
  intros w out. subst out.
  unfold loadData, try_catch, bind at 1, showLoading, set_overlay, modify.
  unfold bind.
  block; [| split; reflexivity].
  block; [| split; reflexivity].
  block; [| split; reflexivity].
  block; [| split; reflexivity].
  block; [| split; reflexivity].
  block; [| split; reflexivity].
  unfold get_prop.
  match goal with
  | |- context [read ?v "data"] => destruct (read v "data") as [pts |]
  end; [| split; reflexivity].
  unfold ret, set_currentData, modify, call. cbv beta iota zeta.
  cbn [currentData page entered loading_overlay_show error_notifications console_error].
  destruct (render UpdateMetrics _ _) as [p1 [] | p1 e1]; [| split; reflexivity].
  cbn [currentData page entered loading_overlay_show error_notifications console_error].
  destruct (render CreateCharts _ _) as [p2 [] | p2 e2]; [| split; reflexivity].
  cbn [currentData page entered loading_overlay_show error_notifications console_error].
  destruct (render PerformAnalysis _ _) as [p3 [] | p3 e3]; split; reflexivity.
Qed.

(** X6.  The notification names the first request that fails, in program
    order: when the requests before it succeed, [loadData] ends in its
    handler with the exception of that request, whatever the server would
    answer to the requests behind it. *)
Theorem loadData_first_failure :
  forall (w : World Page) (before after : list (string * string))
         (path failure : string) (e : JSError),
    endpoints = (before ++ (path, failure) :: after)%list ->
    (forall path' failure', In (path', failure') before ->
                            block_error fetch path' failure' = None) ->
    block_error fetch path failure = Some e ->
    loadData fetch tem render w = Returns (after_catch w e) tt.
Proof.
  intros w before after path failure e Hsplit Hbefore Hfail.
  unfold loadData, try_catch, bind at 1, showLoading, set_overlay, modify.
  unfold bind. unfold endpoints in Hsplit.
  destruct before as [| q0 before]; simpl in Hsplit.
  { injection Hsplit as <- <- _. rewrite fetch_json_block, Hfail. reflexivity. }
  injection Hsplit as <- Hsplit.
  block; [clear Hb | rewrite Hbefore in Hb by (simpl; tauto); discriminate].
  destruct before as [| q1 before]; simpl in Hsplit.
  { injection Hsplit as <- <- _. rewrite fetch_json_block, Hfail. reflexivity. }
  injection Hsplit as <- Hsplit.
  block; [clear Hb | rewrite Hbefore in Hb by (simpl; tauto); discriminate].
  destruct before as [| q2 before]; simpl in Hsplit.
  { injection Hsplit as <- <- _. rewrite fetch_json_block, Hfail. reflexivity. }
  injection Hsplit as <- Hsplit.
  block; [clear Hb | rewrite Hbefore in Hb by (simpl; tauto); discriminate].
  destruct before as [| q3 before]; simpl in Hsplit.
  { injection Hsplit as <- <- _. rewrite fetch_json_block, Hfail. reflexivity. }
  injection Hsplit as <- Hsplit.
  block; [clear Hb | rewrite Hbefore in Hb by (simpl; tauto); discriminate].
  destruct before as [| q4 before]; simpl in Hsplit.
  { injection Hsplit as <- <- _. rewrite fetch_json_block, Hfail. reflexivity. }
  injection Hsplit as <- Hsplit.
  block; [clear Hb | rewrite Hbefore in Hb by (simpl; tauto); discriminate].
  destruct before as [| q5 before]; simpl in Hsplit.
  { injection Hsplit as <- <- _. rewrite fetch_json_block, Hfail. reflexivity. }
  injection Hsplit as _ Hsplit.
  destruct before; discriminate.
Qed.

(** X7.  The scatter reply must hold something to read [data] from: when the
    six requests succeed and the scatter body is [null], [loadData] ends in
    its handler with the browser's [TypeError]; [currentData] is not assigned
    and nothing is rendered. *)
Theorem loadData_null_scatter :
  forall (w : World Page) (scatterData : JSValue),
    (forall path failure, In (path, failure) endpoints ->
                          block_error fetch path failure = None) ->
    succeeded fetch "/api/scatter-data" = Some scatterData ->
    read scatterData "data" = None ->
    loadData fetch tem render w = Returns (after_catch w (Error tem)) tt.
Proof.
  intros w scatterData Hall Hscatter Hread.
  unfold loadData, try_catch, bind at 1, showLoading, set_overlay, modify.
  unfold bind.
  pose proof Hall as Hnone.
  block; [clear Hb | rewrite Hnone in Hb by (simpl; tauto); discriminate].
  block; [clear Hb | rewrite Hnone in Hb by (simpl; tauto); discriminate].
  block; [clear Hb | rewrite Hnone in Hb by (simpl; tauto); discriminate].
  block; [clear Hb | rewrite Hnone in Hb by (simpl; tauto); discriminate].
  block; [clear Hb | rewrite Hnone in Hb by (simpl; tauto); discriminate].
  block; [clear Hb | rewrite Hnone in Hb by (simpl; tauto); discriminate].
  match goal with
  | H : succeeded fetch "/api/scatter-data" = Some ?v |- _ =>
      replace v with scatterData by congruence
  end.
  unfold get_prop. rewrite Hread. reflexivity.
Qed.

(** X8.  Once the six replies are in, [currentData] is assigned whatever the
    rendering functions do.  They are called in turn up to the first one
    that throws; the exception is notified after the overlay is hidden, and
    the data stays assigned. *)
Theorem loadData_rendering :
  forall (w : World Page)
         (overview regression distributions countryStats demographics scatterData
            scatter_points : JSValue),
    succeeded fetch "/api/data-overview" = Some overview ->
    succeeded fetch "/api/regression-analysis" = Some regression ->
    succeeded fetch "/api/data-distributions" = Some distributions ->
    succeeded fetch "/api/country-analysis" = Some countryStats ->
    succeeded fetch "/api/demographics-analysis" = Some demographics ->
    succeeded fetch "/api/scatter-data" = Some scatterData ->
    read scatterData "data" = Some scatter_points ->
    let data := assembled overview regression distributions countryStats demographics
                          scatter_points in
    let '(called, page', fault) :=
      run_renderers render [UpdateMetrics; CreateCharts; PerformAnalysis] data (page w) in
    loadData fetch tem render w
    = Returns
        (Build_World data false
           (error_notifications w
            ++ match fault with
               | Some e => ["Failed to load data: " ++ message e
                            ++ ". Please ensure the FastAPI backend is running on port 8000."]
               | None => []
               end)
           (console_error w
            ++ match fault with
               | Some e => [("Error loading data:", e)]
               | None => []
               end)
           page' (entered w ++ called))
        tt.
Proof.
  intros w overview regression distributions countryStats demographics scatterData
         scatter_points H1 H2 H3 H4 H5 H6 Hread data.
  rewrite (loadData_success fetch tem render w H1 H2 H3 H4 H5 H6 Hread).
  fold data.
  unfold try_catch, bind, call, hideLoading, set_overlay, showError, console_error_log,
    modify.
  cbn [run_renderers currentData page entered loading_overlay_show error_notifications
       console_error].
  destruct (render UpdateMetrics data (page w)) as [p1 [] | p1 e1].
  - cbn [currentData page entered loading_overlay_show error_notifications console_error].
    destruct (render CreateCharts data p1) as [p2 [] | p2 e2].
    + cbn [currentData page entered loading_overlay_show error_notifications console_error].
      destruct (render PerformAnalysis data p2) as [p3 [] | p3 e3].
      * cbn [currentData page entered loading_overlay_show error_notifications
             console_error].
        rewrite !app_nil_r, <- !app_assoc. reflexivity.
      * cbn [currentData page entered loading_overlay_show error_notifications
             console_error].
        rewrite <- !app_assoc. reflexivity.
    + cbn [currentData page entered loading_overlay_show error_notifications console_error].
      rewrite <- !app_assoc. reflexivity.
  - cbn [currentData page entered loading_overlay_show error_notifications console_error].
    reflexivity.
Qed.

(** The rendering functions entered are the first ones of the list, and all
    of them when none throws. *)
Lemma run_renderers_prefix (rs : list Renderer) (data : JSValue) :
  forall page : Page,
    let '(called, _, fault) := run_renderers render rs data page in
    called = firstn (List.length called) rs
    /\ (fault = None -> called = rs).
Proof.
  induction rs as [| r rs IH]; intros pg; simpl.
  - split; reflexivity.
  - destruct (render r data pg) as [p [] | p e] eqn:Hr.
    + specialize (IH p).
      destruct (run_renderers render rs data p) as [[called p'] fault] eqn:Hrun.
      destruct IH as (Hpre & Hall).
      split; [simpl; f_equal; exact Hpre |].
      intros Hn. f_equal. exact (Hall Hn).
    + split; [reflexivity | discriminate].
Qed.

End More.

(** The overview succeeds, the regression request is rejected, and the other
    requests would be answered 500. *)
Lemma loadData_first_failure_witness :
  let fetch := fun url : string =>
    if String.eqb url "http://localhost:3000/api/data-overview"
    then FetchResolves {| status := 200; json := JsonResolves (VObj []) |}
    else if String.eqb url "http://localhost:3000/api/regression-analysis"
    then FetchRejects (Error "Failed to fetch")
    else FetchResolves {| status := 500; json := JsonResolves VNull |} in
  let render := fun (r : Renderer) (_ : JSValue) (p : list Renderer) =>
    Returns (p ++ [r])%list tt in
  let w := Build_World VNull false [] [] [] [] in
  error_notifications (final_state (loadData fetch "TypeError" render w))
  = ["Failed to load data: Failed to fetch. Please ensure the FastAPI backend is running on port 8000."].
Proof.
  intros fetch render w.
  rewrite loadData_first_failure
    with (before := [("/api/data-overview", "Failed to load data overview")])
         (after := tl (tl endpoints))
         (path := "/api/regression-analysis")
         (failure := "Failed to load regression analysis")
         (e := Error "Failed to fetch").
  - reflexivity.
  - reflexivity.
  - intros path' failure' [E | []]. injection E as <- <-. reflexivity.
  - reflexivity.
Defined.

(** Six successes, the scatter body being [null]. *)
Lemma loadData_null_scatter_witness :
  let fetch := fun url : string =>
    FetchResolves
      {| status := 200;
         json := JsonResolves
                   (if String.eqb url "http://localhost:3000/api/scatter-data"
                    then VNull else VObj []) |} in
  let render := fun (r : Renderer) (_ : JSValue) (p : list Renderer) =>
    Returns (p ++ [r])%list tt in
  let w := Build_World VNull false [] [] [] [] in
  let w' := final_state (loadData fetch "Cannot read properties of null" render w) in
  currentData w' = VNull /\ entered w' = []
  /\ error_notifications w'
     = ["Failed to load data: Cannot read properties of null. Please ensure the FastAPI backend is running on port 8000."].
Proof.
  intros fetch render w w'. subst w'.
  rewrite loadData_null_scatter with (scatterData := VNull).
  - repeat split.
  - intros path failure Hin. simpl in Hin.
    repeat (destruct Hin as [E | Hin]; [injection E as <- <-; reflexivity |]).
    contradiction.
  - reflexivity.
  - reflexivity.
Defined.

(** Six successes, and a [createCharts] that throws. *)
Lemma loadData_rendering_witness :
  let fetch := fun url : string =>
    FetchResolves
      {| status := 200;
         json := JsonResolves
                   (if String.eqb url "http://localhost:3000/api/scatter-data"
                    then VObj [("data", VArr [])] else VObj []) |} in
  let render := fun (r : Renderer) (_ : JSValue) (p : list Renderer) =>
    match r with
    | CreateCharts => Throws p (Error "Plotly is not defined")
    | _ => Returns (p ++ [r])%list tt
    end in
  let w := Build_World VNull false [] [] [] [] in
  let out := loadData fetch "TypeError" render w in
  returns_normally out = true
  /\ currentData (final_state out)
     = assembled (VObj []) (VObj []) (VObj []) (VObj []) (VObj []) (VArr [])
  /\ entered (final_state out) = [UpdateMetrics; CreateCharts]
  /\ page (final_state out) = [UpdateMetrics]
  /\ loading_overlay_show (final_state out) = false
  /\ error_notifications (final_state out)
     = ["Failed to load data: Plotly is not defined. Please ensure the FastAPI backend is running on port 8000."].
Proof.
  intros fetch render w out. subst out.
  pose proof (loadData_rendering fetch "TypeError" render w
                (overview := VObj []) (regression := VObj []) (distributions := VObj [])
                (countryStats := VObj []) (demographics := VObj [])
                (scatterData := VObj [("data", VArr [])]) (scatter_points := VArr [])
                eq_refl eq_refl eq_refl eq_refl eq_refl eq_refl eq_refl) as H.
  cbv zeta in H. cbn [run_renderers] in H.
  change (render UpdateMetrics) with
    (fun (_ : JSValue) (p : list Renderer) => Returns (S := list Renderer) (p ++ [UpdateMetrics])%list tt) in H.
  change (render CreateCharts) with
    (fun (_ : JSValue) (p : list Renderer) =>
       Throws (S := list Renderer) (A := unit) p (Error "Plotly is not defined")) in H.
  cbv beta iota in H.
  rewrite H. repeat split.
Defined.

(** *** The value assigned to [currentData] *)

Lemma lookup_define_same (k : string) (v : JSValue) (props : list (string * JSValue)) :
  lookup k (define k v props) = Some v.
Proof.
  induction props as [| [k' v'] props IH]; simpl.
  - rewrite String.eqb_refl. reflexivity.
  - destruct (String.eqb k k') eqn:E; simpl.
    + rewrite String.eqb_refl. reflexivity.
    + rewrite E. exact IH.
Qed.

Lemma lookup_define_other (k k' : string) (v : JSValue) (props : list (string * JSValue)) :
  k <> k' -> lookup k (define k' v props) = lookup k props.
Proof.
  intros Hne. apply String.eqb_neq in Hne.
  induction props as [| [k0 v0] props IH]; simpl.
  - rewrite Hne. reflexivity.
  - destruct (String.eqb k' k0) eqn:E; simpl.
    + apply String.eqb_eq in E. subst k0. rewrite Hne. reflexivity.
    + rewrite IH. reflexivity.
Qed.

(** X9.  In the value assigned to [currentData], the five named properties
    hold the five replies, also when the overview reply has properties of
    those names: they are overwritten. *)
Theorem assembled_named_properties :
  forall overview regression distributions countryStats demographics scatter_points,
    let data := assembled overview regression distributions countryStats demographics
                          scatter_points in
    read data "distributions" = Some distributions
    /\ read data "countryStats" = Some countryStats
    /\ read data "demographics" = Some demographics
    /\ read data "scatterData" = Some scatter_points
    /\ read data "regression" = Some regression.
Proof.
  intros overview regression distributions countryStats demographics scatter_points data.
  subst data. unfold assembled, read.
  repeat split;
    repeat (first [ rewrite lookup_define_same; reflexivity
                  | rewrite lookup_define_other by discriminate ]).
Qed.

(** X10.  The value assigned to [currentData] is an object whose own
    properties, the five named ones apart, are those that the spread copies
    from the overview reply, with their values: under any other name it has
    an own property exactly when the overview reply has one to copy, and with
    the same value.  (Members that every object inherits are no own
    properties and are not spoken of.) *)
Theorem assembled_overview_properties :
  forall overview regression distributions countryStats demographics scatter_points
         (k : string),
    ~ In k ["distributions"; "countryStats"; "demographics"; "scatterData"; "regression"] ->
    exists props : list (string * JSValue),
      assembled overview regression distributions countryStats demographics scatter_points
      = VObj props
      /\ lookup k props = lookup k (spread overview).
Proof.
  intros overview regression distributions countryStats demographics scatter_points k Hk.
  unfold assembled. eexists. split; [reflexivity |]. simpl in Hk.
  rewrite !lookup_define_other; [reflexivity | | | | |]; intros E; apply Hk; subst k; tauto.
Qed.

Lemma assembled_overview_properties_witness :
  let overview := VObj [("total_countries", VNum (Q2Qc 29)); ("regression", VStr "old")] in
  ~ In "total_countries"
       ["distributions"; "countryStats"; "demographics"; "scatterData"; "regression"]
  /\ ~ In "toString"
         ["distributions"; "countryStats"; "demographics"; "scatterData"; "regression"]
  /\ exists props : list (string * JSValue),
       assembled overview (VStr "new") VNull VNull VNull VNull = VObj props
       /\ lookup "total_countries" props = Some (VNum (Q2Qc 29))
       /\ lookup "toString" props = None
       /\ lookup "regression" props = Some (VStr "new").
Proof.
  intros overview.
  assert (Hk : ~ In "total_countries"
                 ["distributions"; "countryStats"; "demographics"; "scatterData";
                  "regression"]).
  { simpl. intros H. repeat (destruct H as [H | H]; [discriminate |]). exact H. }
  assert (Ht : ~ In "toString"
                 ["distributions"; "countryStats"; "demographics"; "scatterData";
                  "regression"]).
  { simpl. intros H. repeat (destruct H as [H | H]; [discriminate |]). exact H. }
  split; [exact Hk |]. split; [exact Ht |].
  destruct (assembled_overview_properties overview (VStr "new") VNull VNull VNull VNull Hk)
    as (props & E & Hl).
  destruct (assembled_overview_properties overview (VStr "new") VNull VNull VNull VNull Ht)
    as (props' & E' & Hl').
  assert (Ep : props' = props).
  { rewrite E in E'.
    exact (f_equal (fun v => match v with VObj l => l | _ => props' end) (eq_sym E')). }
  subst props'.
  exists props. split; [exact E |]. split; [exact Hl |]. split; [exact Hl' |].
  unfold assembled in E.
  assert (Ed : props = [("total_countries", VNum (Q2Qc 29)); ("regression", VStr "new");
                        ("distributions", VNull); ("countryStats", VNull);
                        ("demographics", VNull); ("scatterData", VNull)]).
  { exact (f_equal (fun v => match v with VObj l => l | _ => props end) (eq_sym E)). }
  rewrite Ed. reflexivity.
Defined.

End LoaderMore.

(** ** The charts as a whole *)

Module DashboardProperties.

Import JS Charts Dashboard ChartsProperties.
Local Open Scope string_scope.

Section Outcomes.

Variable random : nat -> Qc.
Variable parseFloat : Qc -> Qc.
Variable nts : Qc -> string.
Variable add : Qc -> Qc -> Qc.
Variable sub : Qc -> Qc -> Qc.
Variable mul : Qc -> Qc -> Qc.
Variable range_error : string.

Lemma createDistributionCharts_outcome (d : Distributions) (c : Canvas) :
  exists p1 p2 p3 p4 : Plot,
    createDistributionCharts d c
    = Returns {| draws := draws c;
                 plots := (plots c ++ [p1; p2; p3; p4])%list;
                 country_stats_table := country_stats_table c |} tt
    /\ map container [p1; p2; p3; p4]
       = ["immigration-dist"; "political-dist"; "age-dist"; "education-dist"].
Proof.
  do 4 eexists. split.
  - unfold createDistributionCharts, bind, newPlot, modify, array_from.
    cbn [array_from_at bind ret final_state plots draws country_stats_table].
    unfold bind, ret. cbn [final_state plots draws country_stats_table].
    repeat rewrite <- app_assoc. cbn [app]. reflexivity.
  - reflexivity.
Qed.

Lemma createCountryCharts_outcome (countryStats : CountryStats) (c : Canvas) :
  in_range countryStats = true ->
  exists html : string,
    createCountryCharts random parseFloat nts add sub mul range_error countryStats c
    = Returns {| draws := draws c + total_count countryStats;
                 plots := (plots c
                           ++ [country_plot random parseFloat add sub mul (draws c)
                                            countryStats])%list;
                 country_stats_table := html |} tt.
Proof.
  intros Hr. eexists.
  unfold createCountryCharts, bind at 1, set_table, modify.
  fold (country_boxes random parseFloat add sub mul range_error countryStats).
  unfold bind at 1.
  rewrite (@country_boxes_spec random parseFloat add sub mul range_error countryStats Hr).
  reflexivity.
Qed.

Lemma createDemographicsCharts_outcome (d : Demographics) (c : Canvas) :
  createDemographicsCharts random add sub mul d c
  = Returns {| draws := draws c + 1000 + 1000
                        + List.length (age_groups d) * 1000
                        + List.length (demo_education d) * 8000
                        + List.length (demo_political d) * 8000;
               plots := (plots c ++ demographics_plots random add sub mul (draws c) d)%list;
               country_stats_table := country_stats_table c |} tt.
Proof.
  unfold createDemographicsCharts, demographics_plots.
  unfold bind at 1. rewrite box_spec.
  unfold bind at 1. rewrite box_spec.
  unfold bind at 1, newPlot at 1, modify.
  unfold bind at 1. rewrite group_boxes_spec.
  unfold bind at 1, newPlot at 1, modify.
  unfold bind at 1. rewrite group_boxes_spec.
  unfold bind at 1, newPlot at 1, modify.
  unfold bind at 1. rewrite group_boxes_spec.
  unfold newPlot, modify. cbn [final_state plots draws advance country_stats_table].
  repeat rewrite <- app_assoc. reflexivity.
Qed.

Lemma scatter_points_outcome (points : list Point) :
  forall c : Canvas,
    map_in_order
      (fun point => bind (Math_random random) (fun r => ret (point_trace nts point r)))
      points c
    = Returns (advance (List.length points) c) (scatter_traces random nts (draws c) points).
Proof.
  induction points as [| point rest IH]; intros c.
  - simpl. rewrite advance_0. reflexivity.
  - simpl. unfold bind at 1. unfold bind at 1, Math_random at 1. unfold ret at 1.
    unfold bind at 1. rewrite IH. unfold ret. simpl.
    unfold advance. simpl. rewrite Nat.add_succ_r. reflexivity.
Qed.

End Outcomes.



Lemma jittered_length (random : nat -> Qc) (add sub mul : Qc -> Qc -> Qc) (base : Qc)
      (start n : nat) :
  List.length (jittered random add sub mul base start n) = n.
Proof. unfold jittered. rewrite length_map, length_seq. reflexivity. Qed.

(** In a monotone arithmetic the formula keeps the order of the random
    values. *)
Lemma jitter_value_monotone (add sub mul : Qc -> Qc -> Qc) (base r r' : Qc) :
  monotone add sub mul -> (r <= r')%Qc ->
  (jitter_value add sub mul base r <= jitter_value add sub mul base r')%Qc.
Proof.
  intros (Hsub & Hmul & Hadd) H. unfold jitter_value.
  apply Hadd, Hmul; [| apply Hsub, H].
  intros E. vm_compute in E. discriminate.
Qed.

Lemma jittered_between (random : nat -> Qc) (add sub mul : Qc -> Qc -> Qc) (base : Qc)
      (start n : nat) :
  monotone add sub mul ->
  (forall i, (Q2Qc 0 <= random i)%Qc /\ (random i < Q2Qc 1)%Qc) ->
  Forall (between (jitter_value add sub mul base (Q2Qc 0))
                  (jitter_value add sub mul base (Q2Qc 1)))
         (jittered random add sub mul base start n).
Proof.
  intros Hm H. unfold jittered. apply Forall_map, Forall_forall. intros i _.
  unfold between. eexists. split; [reflexivity |].
  split; apply jitter_value_monotone; try exact Hm.
  - apply H.
  - apply Qclt_le_weak, H.
Qed.

Lemma box_trace_boxed (random : nat -> Qc) (add sub mul : Qc -> Qc -> Qc) (base : Qc)
      (name : string) (start n : nat) :
  monotone add sub mul ->
  (forall i, (Q2Qc 0 <= random i)%Qc /\ (random i < Q2Qc 1)%Qc) ->
  boxed n (jitter_value add sub mul base (Q2Qc 0)) (jitter_value add sub mul base (Q2Qc 1))
        name (box_trace (jittered random add sub mul base start n) name).
Proof.
  intros Hm H. exists (jittered random add sub mul base start n).
  split; [reflexivity |].
  split; [apply jittered_length | apply jittered_between; assumption].
Qed.

Lemma group_traces_boxed (random : nat -> Qc) (add sub mul : Qc -> Qc -> Qc) (n : nat)
      (groups : list (string * Stat)) :
  monotone add sub mul ->
  (forall i, (Q2Qc 0 <= random i)%Qc /\ (random i < Q2Qc 1)%Qc) ->
  forall start : nat,
    Forall2 (fun entry trace =>
               boxed n (jitter_value add sub mul (mean (snd entry)) (Q2Qc 0))
                       (jitter_value add sub mul (mean (snd entry)) (Q2Qc 1))
                       (fst entry) trace)
            groups (group_traces random add sub mul n start groups).
Proof.
  intros Hm H. induction groups as [| [group stats] rest IH]; intros start.
  - constructor.
  - cbn [group_traces]. constructor; [apply box_trace_boxed; assumption | apply IH].
Qed.

Lemma country_traces_boxed (random : nat -> Qc) (parseFloat : Qc -> Qc)
      (add sub mul : Qc -> Qc -> Qc) (countryStats : CountryStats) :
  monotone add sub mul ->
  (forall i, (Q2Qc 0 <= random i)%Qc /\ (random i < Q2Qc 1)%Qc) ->
  forall start : nat,
    Forall2 (fun entry trace =>
               boxed (Z.to_nat (count (impcntr (snd entry))))
                     (jitter_value add sub mul (parseFloat (mean (impcntr (snd entry))))
                                   (Q2Qc 0))
                     (jitter_value add sub mul (parseFloat (mean (impcntr (snd entry))))
                                   (Q2Qc 1))
                     (fst entry) trace)
            countryStats (country_traces random parseFloat add sub mul start countryStats).
Proof.
  intros Hm H. induction countryStats as [| [country stats] rest IH]; intros start.
  - constructor.
  - cbn [country_traces]. constructor; [apply box_trace_boxed; assumption | apply IH].
Qed.

(** Exact arithmetic is monotone. *)
Lemma exact_monotone : monotone Qcplus Qcminus Qcmult.
Proof.
  split; [| split].
  - intros a b c H. unfold Qcminus. apply Qcplus_le_compat; [exact H | apply Qcle_refl].
  - intros a b c Hc H. apply Qcmult_le_compat_r; assumption.
  - intros a b c H. apply Qcplus_le_compat; [apply Qcle_refl | exact H].
Qed.

Lemma group_means_length (groups groups' : list (string * Stat)) :
  group_means groups = group_means groups' ->
  List.length groups = List.length groups'.
Proof.
  intros H. apply (f_equal (@List.length _)) in H.
  unfold group_means in H. rewrite !length_map in H. exact H.
Qed.

Lemma group_traces_means (random : nat -> Qc) (add sub mul : Qc -> Qc -> Qc) (n : nat)
      (groups : list (string * Stat)) :
  forall (groups' : list (string * Stat)) (start : nat),
    group_means groups = group_means groups' ->
    group_traces random add sub mul n start groups
    = group_traces random add sub mul n start groups'.
Proof.
  induction groups as [| [group stats] rest IH];
    intros [| [group' stats'] rest'] start H; try discriminate.
  - reflexivity.
  - cbn [group_means map fst snd] in H.
    assert (Hname : group = group') by congruence.
    assert (Hmean : mean stats = mean stats') by congruence.
    assert (Hrest : group_means rest = group_means rest').
    { unfold group_means. congruence. }
    cbn [group_traces]. rewrite Hname, Hmean, (IH rest' (start + n)%nat Hrest).
    reflexivity.
Qed.

(** X11.  [createCharts] on data in the shape of the response contract,
    when every country count is a possible array length (below 2^32):
    it returns, having drawn the nine distribution and box plots in a fixed
    order, then the scatter plot if the reply had scatter data, and having
    asked [Math.random] for one value per country observation, 1000 per
    gender and per age group, 8000 per education and per political group, and
    one per scatter point.  When some country count is 2^32 or more it throws
    the [RangeError] of [createCountryCharts]: the four distribution plots
    are drawn and no other.  With [currentData] still [null] it changes
    nothing. *)
Theorem createCharts_plots_in_order :
  forall (random : nat -> Qc) (parseFloat : Qc -> Qc) (nts : Qc -> string)
         (add sub mul : Qc -> Qc -> Qc) (range_error : string)
         (data : ChartsData) (c : Canvas),
    (if in_range (countryStats data)
     then
       exists c' : Canvas,
         createCharts random parseFloat nts add sub mul range_error (Some data) c
         = Returns c' tt
         /\ map container (plots c')
            = (map container (plots c)
               ++ ["immigration-dist"; "political-dist"; "age-dist"; "education-dist";
                   "country-boxplot"; "gender-boxplot"; "age-group-boxplot";
                   "education-boxplot"; "political-boxplot"]
               ++ match scatterData data with
                  | Some _ => ["scatter-plot"]
                  | None => []
                  end)%list
         /\ draws c'
            = (draws c + total_count (countryStats data) + 1000 + 1000
               + List.length (age_groups (demographics data)) * 1000
               + List.length (demo_education (demographics data)) * 8000
               + List.length (demo_political (demographics data)) * 8000
               + match scatterData data with
                 | Some points => List.length points
                 | None => 0
                 end)%nat
     else
       exists c' : Canvas,
         createCharts random parseFloat nts add sub mul range_error (Some data) c
         = Throws c' (Error range_error)
         /\ map container (plots c')
            = (map container (plots c)
               ++ ["immigration-dist"; "political-dist"; "age-dist";
                   "education-dist"])%list)
    /\ createCharts random parseFloat nts add sub mul range_error None c = Returns c tt.
Proof.
  intros random parseFloat nts add sub mul range_error data c. split; [| reflexivity].
  destruct (createDistributionCharts_outcome (distributions data) c)
    as (p1 & p2 & p3 & p4 & E1 & Hc).
  destruct (in_range (countryStats data)) eqn:Hr.
  - unfold createCharts.
    unfold bind at 1. rewrite E1. cbv beta iota. unfold bind at 1.
    match goal with
    | |- context [createCountryCharts _ _ _ _ _ _ _ _ ?c1] =>
        destruct (@createCountryCharts_outcome random parseFloat nts add sub mul
                    range_error (countryStats data) c1 Hr) as (html & E2)
    end.
    rewrite E2. cbv beta iota.
    unfold bind at 1. rewrite createDemographicsCharts_outcome. cbv beta iota.
    cbn [draws plots country_stats_table].
    unfold createScatterPlot.
    destruct (scatterData data) as [points |].
    + unfold bind at 1. rewrite scatter_points_outcome.
      unfold newPlot, modify, advance. cbn [draws plots country_stats_table].
      eexists. split; [reflexivity |]. cbn [draws plots]. split; [| reflexivity].
      rewrite !map_app. unfold demographics_plots.
      cbn [map container] in Hc |- *. injection Hc as -> -> -> ->.
      repeat rewrite <- app_assoc. reflexivity.
    + unfold ret. eexists. split; [reflexivity |]. cbn [draws plots].
      split; [| rewrite Nat.add_0_r; reflexivity].
      rewrite !map_app. unfold demographics_plots.
      cbn [map container] in Hc |- *. injection Hc as -> -> -> ->.
      rewrite app_nil_r. repeat rewrite <- app_assoc. reflexivity.
  - unfold createCharts.
    unfold bind at 1. rewrite E1. cbv beta iota. unfold bind at 1.
    match goal with
    | |- context [createCountryCharts _ _ _ _ _ _ _ _ ?c1] =>
        destruct (@createCountryCharts_out_of_range random parseFloat nts add sub mul
                    range_error (countryStats data) c1 Hr) as (k & html & E2)
    end.
    rewrite E2. eexists. split; [reflexivity |].
    cbn [plots]. rewrite map_app. cbn [map container] in Hc |- *.
    injection Hc as -> -> -> ->. reflexivity.
Qed.


(** X13.  The demographic box plots read the means of the reply and nothing
    else: two replies with the same gender means and the same group names and
    means, in the same order, give the same plots and use the same number of
    random values, whatever their counts are. *)
Theorem createDemographicsCharts_ignores_counts :
  forall (random : nat -> Qc) (add sub mul : Qc -> Qc -> Qc)
         (d d' : Demographics) (c : Canvas),
    mean (gender_male d) = mean (gender_male d') ->
    mean (gender_female d) = mean (gender_female d') ->
    group_means (age_groups d) = group_means (age_groups d') ->
    group_means (demo_education d) = group_means (demo_education d') ->
    group_means (demo_political d) = group_means (demo_political d') ->
    createDemographicsCharts random add sub mul d c
    = createDemographicsCharts random add sub mul d' c.
Proof.
  intros random add sub mul d d' c Hm Hf Ha He Hp.
  rewrite !createDemographicsCharts_outcome. unfold demographics_plots.
  rewrite Hm, Hf.
  rewrite (group_means_length _ _ Ha), (group_means_length _ _ He),
          (group_means_length _ _ Hp).
  rewrite (group_traces_means random add sub mul 1000 _ _ _ Ha).
  rewrite (group_traces_means random add sub mul 8000 _ _ _ He).
  rewrite (group_traces_means random add sub mul 8000 _ _ _ Hp).
  reflexivity.
Qed.

(** X14.  With random values in [0, 1), country counts below 2^32 and an
    arithmetic that keeps the order, the country box plot has one box per
    country of the reply, in the reply's order and under the country's name;
    the box of a country holds as many values as the reply counts
    observations for it (none for a count of zero or less), and every one of
    them lies between the values the formula gives for the random values 0
    and 1, both included (in binary64 these are the numbers nearest to the
    parsed mean minus 1 and plus 1). *)
Theorem createCountryCharts_boxes_near_mean :
  forall (random : nat -> Qc) (parseFloat : Qc -> Qc) (nts : Qc -> string)
         (add sub mul : Qc -> Qc -> Qc) (range_error : string)
         (countryStats : CountryStats) (c : Canvas),
    monotone add sub mul ->
    (forall i, (Q2Qc 0 <= random i)%Qc /\ (random i < Q2Qc 1)%Qc) ->
    in_range countryStats = true ->
    exists traces : list JSValue,
      plots (final_state (createCountryCharts random parseFloat nts add sub mul
                                              range_error countryStats c))
      = (plots c ++ [ {| container := "country-boxplot";
                        data := VArr traces;
                        layout := box_layout "Immigration Attitudes by Country" |} ])%list
      /\ Forall2 (fun entry trace =>
                    let base := parseFloat (mean (impcntr (snd entry))) in
                    boxed (Z.to_nat (count (impcntr (snd entry))))
                          (jitter_value add sub mul base (Q2Qc 0))
                          (jitter_value add sub mul base (Q2Qc 1))
                          (fst entry) trace)
                 countryStats traces.
Proof.
  intros random parseFloat nts add sub mul range_error countryStats c Hm H Hr.
  exists (country_traces random parseFloat add sub mul (draws c) countryStats).
  split; [apply createCountryCharts_plots, Hr | apply country_traces_boxed; assumption].
Qed.

(** X15.  With random values in [0, 1) and an arithmetic that keeps the
    order, the four demographic plots hold one box per gender and per group
    of the reply, under the group's name; a gender or age-group box always
    has 1000 values and an education or political box 8000, and every value
    lies between the values the formula gives for the random values 0 and 1,
    both included (in binary64 these are the numbers nearest to the group's
    mean minus 1 and plus 1). *)
Theorem createDemographicsCharts_boxes_near_mean :
  forall (random : nat -> Qc) (add sub mul : Qc -> Qc -> Qc)
         (d : Demographics) (c : Canvas),
    monotone add sub mul ->
    (forall i, (Q2Qc 0 <= random i)%Qc /\ (random i < Q2Qc 1)%Qc) ->
    let around := fun (n : nat) (base : Qc) =>
      boxed n (jitter_value add sub mul base (Q2Qc 0))
              (jitter_value add sub mul base (Q2Qc 1)) in
    exists (male female : JSValue) (ages educations politicals : list JSValue),
      plots (final_state (createDemographicsCharts random add sub mul d c))
      = (plots c
         ++ [ {| container := "gender-boxplot";
                 data := VArr [male; female];
                 layout := box_layout "Immigration Attitudes by Gender" |};
              {| container := "age-group-boxplot";
                 data := VArr ages;
                 layout := box_layout "Immigration Attitudes by Age Group" |};
              {| container := "education-boxplot";
                 data := VArr educations;
                 layout := box_layout "Immigration Attitudes by Education" |};
              {| container := "political-boxplot";
                 data := VArr politicals;
                 layout := box_layout "Immigration Attitudes by Political Orientation" |} ])%list
      /\ around 1000%nat (mean (gender_male d)) "Male" male
      /\ around 1000%nat (mean (gender_female d)) "Female" female
      /\ Forall2 (fun entry trace => around 1000%nat (mean (snd entry)) (fst entry) trace)
                 (age_groups d) ages
      /\ Forall2 (fun entry trace => around 8000%nat (mean (snd entry)) (fst entry) trace)
                 (demo_education d) educations
      /\ Forall2 (fun entry trace => around 8000%nat (mean (snd entry)) (fst entry) trace)
                 (demo_political d) politicals.
Proof.
  intros random add sub mul d c Hm H around. subst around. cbv beta.
  do 5 eexists. split.
  - rewrite createDemographicsCharts_plots. unfold demographics_plots. reflexivity.
  - repeat split;
      first [ apply box_trace_boxed; assumption | apply group_traces_boxed; assumption ].
Qed.


(** Two replies that differ in their counts only. *)
Lemma createDemographicsCharts_ignores_counts_witness :
  let q := fun z => Q2Qc (inject_Z z) in
  let random := fun i : nat => Q2Qc (1 # 4) in
  let d := {| gender_male := {| mean := q 2%Z; count := 10 |};
              gender_female := {| mean := q 3%Z; count := 20 |};
              age_groups := [("18-29", {| mean := q 2%Z; count := 5 |})];
              demo_education := [("1", {| mean := q 1%Z; count := 7 |})];
              demo_political := [] |} in
  let d' := {| gender_male := {| mean := q 2%Z; count := 0 |};
               gender_female := {| mean := q 3%Z; count := 99 |};
               age_groups := [("18-29", {| mean := q 2%Z; count := 12000 |})];
               demo_education := [("1", {| mean := q 1%Z; count := (-1) |})];
               demo_political := [] |} in
  let c := {| draws := 0; plots := []; country_stats_table := EmptyString |} in
  d <> d'
  /\ createDemographicsCharts random Qcplus Qcminus Qcmult d c
     = createDemographicsCharts random Qcplus Qcminus Qcmult d' c.
Proof.
  intros q random d d' c.
  split.
  - intros E. apply (f_equal (fun x => count (gender_male x))) in E.
    cbn [count gender_male d d'] in E. discriminate.
  - apply (createDemographicsCharts_ignores_counts random Qcplus Qcminus Qcmult d d' c);
      reflexivity.
Defined.

(** Two countries, one of them without observations, in exact arithmetic:
    the bounds are the means minus 1 and plus 1. *)
Lemma createCountryCharts_boxes_near_mean_witness :
  let q := fun z => Q2Qc (inject_Z z) in
  let random := fun i : nat => Q2Qc (1 # 4) in
  let parseFloat := fun x : Qc => x in
  let nts := fun _ : Qc => "n" in
  let st := fun m n => {| mean := q m; count := n |} in
  let countryStats :=
    [("DE", {| impcntr := st 2%Z 3%Z; lrscale := st 5%Z 3%Z; agea := st 47%Z 3%Z |});
     ("FR", {| impcntr := st 3%Z 0%Z; lrscale := st 4%Z 0%Z; agea := st 50%Z 0%Z |})] in
  let c := {| draws := 0; plots := []; country_stats_table := EmptyString |} in
  monotone Qcplus Qcminus Qcmult
  /\ (forall i, (Q2Qc 0 <= random i)%Qc /\ (random i < Q2Qc 1)%Qc)
  /\ in_range countryStats = true
  /\ exists de fr : JSValue,
       map data
           (plots (final_state (createCountryCharts random parseFloat nts
                                                    Qcplus Qcminus Qcmult
                                                    "Invalid array length"
                                                    countryStats c)))
       = [VArr [de; fr]]
       /\ boxed 3 (q 1%Z) (q 3%Z) "DE" de
       /\ boxed 0 (q 2%Z) (q 4%Z) "FR" fr.
Proof.
  intros q random parseFloat nts st countryStats c.
  assert (H : forall i, (Q2Qc 0 <= random i)%Qc /\ (random i < Q2Qc 1)%Qc).
  { intros i. split; [intros E; vm_compute in E; discriminate | reflexivity]. }
  assert (Hr : in_range countryStats = true) by reflexivity.
  split; [exact exact_monotone |]. split; [exact H |]. split; [exact Hr |].
  destruct (@createCountryCharts_boxes_near_mean random parseFloat nts
              Qcplus Qcminus Qcmult "Invalid array length" countryStats c
              exact_monotone H Hr) as (traces & E & Hboxes).
  unfold countryStats in Hboxes. destruct traces as [| de traces].
  { apply Forall2_length in Hboxes. discriminate. }
  apply Forall2_cons_iff in Hboxes. destruct Hboxes as [Hde Hboxes].
  destruct traces as [| fr traces].
  { apply Forall2_length in Hboxes. discriminate. }
  apply Forall2_cons_iff in Hboxes. destruct Hboxes as [Hfr Hboxes].
  apply Forall2_length in Hboxes. destruct traces; [| discriminate].
  exists de, fr. split; [rewrite E; reflexivity |].
  assert (E21 : jitter_value Qcplus Qcminus Qcmult (q 2%Z) (Q2Qc 0) = q 1%Z)
    by (apply Qc_decomp; vm_compute; reflexivity).
  assert (E23 : jitter_value Qcplus Qcminus Qcmult (q 2%Z) (Q2Qc 1) = q 3%Z)
    by (apply Qc_decomp; vm_compute; reflexivity).
  assert (E32 : jitter_value Qcplus Qcminus Qcmult (q 3%Z) (Q2Qc 0) = q 2%Z)
    by (apply Qc_decomp; vm_compute; reflexivity).
  assert (E34 : jitter_value Qcplus Qcminus Qcmult (q 3%Z) (Q2Qc 1) = q 4%Z)
    by (apply Qc_decomp; vm_compute; reflexivity).
  cbv zeta in Hde, Hfr. cbn [fst snd impcntr mean count st parseFloat] in Hde, Hfr.
  rewrite E21, E23 in Hde. rewrite E32, E34 in Hfr.
  split; [exact Hde | exact Hfr].
Defined.

(** A reply with one age group and no education or political group, in exact
    arithmetic. *)
Lemma createDemographicsCharts_boxes_near_mean_witness :
  let q := fun z => Q2Qc (inject_Z z) in
  let random := fun i : nat => Q2Qc (3 # 4) in
  let d := {| gender_male := {| mean := q 2%Z; count := 10 |};
              gender_female := {| mean := q 3%Z; count := 20 |};
              age_groups := [("18-29", {| mean := q 2%Z; count := 5 |})];
              demo_education := [];
              demo_political := [] |} in
  let c := {| draws := 0; plots := []; country_stats_table := EmptyString |} in
  let around := fun (n : nat) (base : Qc) =>
    boxed n (jitter_value Qcplus Qcminus Qcmult base (Q2Qc 0))
            (jitter_value Qcplus Qcminus Qcmult base (Q2Qc 1)) in
  monotone Qcplus Qcminus Qcmult
  /\ (forall i, (Q2Qc 0 <= random i)%Qc /\ (random i < Q2Qc 1)%Qc)
  /\ exists (male female : JSValue) (ages : list JSValue),
       map data (plots (final_state (createDemographicsCharts random Qcplus Qcminus Qcmult
                                                              d c)))
       = [VArr [male; female]; VArr ages; VArr []; VArr []]
       /\ around 1000%nat (q 2%Z) "Male" male
       /\ around 1000%nat (q 3%Z) "Female" female
       /\ Forall2 (fun entry trace => around 1000%nat (mean (snd entry)) (fst entry) trace)
                  (age_groups d) ages.
Proof.
  intros q random d c around.
  assert (H : forall i, (Q2Qc 0 <= random i)%Qc /\ (random i < Q2Qc 1)%Qc).
  { intros i. split; [intros E; vm_compute in E; discriminate | reflexivity]. }
  split; [exact exact_monotone |]. split; [exact H |].
  destruct (@createDemographicsCharts_boxes_near_mean random Qcplus Qcminus Qcmult d c
              exact_monotone H)
    as (male & female & ages & educations & politicals & E & Hm & Hf & Ha & He & Hp).
  inversion He. inversion Hp. subst educations politicals.
  exists male, female, ages.
  split; [rewrite E; reflexivity |].
  split; [exact Hm |]. split; [exact Hf | exact Ha].
Defined.

End DashboardProperties.

(** ** The analysis panel *)

Module AnalysisProperties.

Import JS Analysis.
Local Open Scope string_scope.




Section Panels.

Variable nts : Qc -> string.
Variable toFixed : Qc -> nat -> string.
Variable tem : JSValue -> string -> string.






Lemma createModelDiagnostics_frame (r : Regression) (p : Panel) :
  exists html,
    createModelDiagnostics nts r p
    = Returns {| outlier_info := outlier_info p;
                 correlation_matrix_table := correlation_matrix_table p;
                 model_diagnostics := html;
                 regression_summary := regression_summary p |} tt.
Proof.
  unfold createModelDiagnostics.
  destruct (diagnostics r); [eexists; reflexivity |].
  exists (model_diagnostics p). destruct p. reflexivity.
Qed.

Lemma createRegressionResults_frame (r : Regression) (p : Panel) :
  exists text,
    createRegressionResults nts r p
    = Returns {| outlier_info := outlier_info p;
                 correlation_matrix_table := correlation_matrix_table p;
                 model_diagnostics := model_diagnostics p;
                 regression_summary := text |} tt.
Proof.
  unfold createRegressionResults.
  destruct (negb (truthy (model_summary r))); [| eexists; reflexivity].
  exists (regression_summary p). destruct p. reflexivity.
Qed.

End Panels.






Section Outcomes.

Variable nts : Qc -> string.
Variable toFixed : Qc -> nat -> string.
Variable tem : JSValue -> string -> string.


End Outcomes.

Section Analysis.

Variable nts : Qc -> string.
Variable toFixed : Qc -> nat -> string.
Variable tem : JSValue -> string -> string.




End Analysis.






Lemma gt_abs (q c : Qc) :
  (Q2Qc 0 <= c)%Qc ->
  gt (Math_abs q) c = true <-> (q < - c \/ c < q)%Qc.
Proof.
  intros Hc. unfold gt, Math_abs. rewrite negb_true_iff.
  rewrite <- not_true_iff_false, Qle_bool_iff.
  destruct (Qle_bool q (Q2Qc 0)) eqn:Hq.
  - apply Qle_bool_iff in Hq.
    unfold Qcle, Qclt in *. cbn [this Qcopp Q2Qc] in *.
    rewrite ?Qred_correct in *. split.
    + intros H. left. lra.
    + intros [H | H]; lra.
  - apply not_true_iff_false in Hq. rewrite Qle_bool_iff in Hq.
    unfold Qcle, Qclt in *. cbn [this Qcopp Q2Qc] in *.
    rewrite ?Qred_correct in *. split.
    + intros H. right. lra.
    + intros [H | H]; lra.
Qed.

Lemma gt_abs_opp (q c : Qc) :
  (Q2Qc 0 <= c)%Qc -> gt (Math_abs (- q)) c = gt (Math_abs q) c.
Proof.
  intros Hc. apply eq_true_iff_eq. rewrite !gt_abs by exact Hc.
  unfold Qcle, Qclt in *. cbn [this Qcopp Q2Qc] in *.
  rewrite ?Qred_correct in *. split; intros [H | H]; lra.
Qed.

(** X19.  The colour of a cell of the correlation table depends on the
    magnitude of the correlation only: a correlation and its negative have
    the same colour; the cell is red exactly when the correlation is below
    -0.8 or above 0.8, and green exactly when it lies between -0.5 and 0.5,
    both ends included; so 0.8 itself is yellow and 0.5 itself is green. *)
Theorem color_by_magnitude :
  forall q : Qc,
    color (- q) = color q
    /\ (color q = "#dc3545" <-> (q < - Q2Qc (8 # 10) \/ Q2Qc (8 # 10) < q)%Qc)
    /\ (color q = "#28a745" <-> (- Q2Qc (5 # 10) <= q /\ q <= Q2Qc (5 # 10))%Qc).
Proof.
  intros q.
  assert (H8 : (Q2Qc 0 <= Q2Qc (8 # 10))%Qc) by (intros E; vm_compute in E; discriminate).
  assert (H5 : (Q2Qc 0 <= Q2Qc (5 # 10))%Qc) by (intros E; vm_compute in E; discriminate).
  split; [| split].
  - unfold color. rewrite !gt_abs_opp by assumption. reflexivity.
  - rewrite <- (gt_abs q H8). unfold color.
    destruct (gt (Math_abs q) (Q2Qc (8 # 10))); [tauto |].
    destruct (gt (Math_abs q) (Q2Qc (5 # 10))); split; intros E; discriminate.
  - pose proof (gt_abs q H8) as G8. pose proof (gt_abs q H5) as G5.
    unfold color.
    destruct (gt (Math_abs q) (Q2Qc (8 # 10))); destruct (gt (Math_abs q) (Q2Qc (5 # 10)));
      unfold Qcle, Qclt in *; cbn [this Qcopp Q2Qc] in *;
      rewrite ?Qred_correct in *.
    all: split; [intros E; try discriminate | intros [Ha Hb]].
    all: try (exfalso; destruct (proj1 G8 eq_refl); lra).
    all: try (exfalso; destruct (proj1 G5 eq_refl); lra).
    all: try reflexivity.
    split.
    + apply Qnot_lt_le. intros Hlt.
      assert (true = false) by (symmetry; apply G5; left; exact Hlt). discriminate.
    + apply Qnot_lt_le. intros Hlt.
      assert (true = false) by (symmetry; apply G5; right; exact Hlt). discriminate.
Qed.

End AnalysisProperties.

(** ** The tabs *)

Module TabsProperties.

Import JS Tabs.
Local Open Scope string_scope.

Lemma nth_error_on_element (f : Element -> Element) (doc : Document) :
  forall i j : nat,
    nth_error (on_element i f doc) j
    = if Nat.eqb j i then option_map f (nth_error doc j) else nth_error doc j.
Proof.
  induction doc as [| e rest IH]; intros i j.
  - destruct j, i; cbn [on_element nth_error option_map];
      try reflexivity; destruct (Nat.eqb _ _); reflexivity.
  - destruct i as [| i], j as [| j]; try reflexivity.
    cbn [on_element nth_error]. rewrite IH. reflexivity.
Qed.

Lemma nth_error_for_all (f : Element -> Element) (elements : list nat) :
  (forall e, f (f e) = f e) ->
  forall (doc : Document) (j : nat),
    nth_error (fold_left (fun doc i => on_element i f doc) elements doc) j
    = if among elements j then option_map f (nth_error doc j) else nth_error doc j.
Proof.
  intros Hf. unfold among.
  induction elements as [| i rest IH]; intros doc j.
  - reflexivity.
  - cbn [fold_left existsb]. rewrite IH, nth_error_on_element.
    destruct (Nat.eqb j i), (existsb (Nat.eqb j) rest); try reflexivity.
    destruct (nth_error doc j); [| reflexivity].
    cbn [option_map]. rewrite Hf. reflexivity.
Qed.

Lemma ids_on_element (f : Element -> Element) (doc : Document) :
  (forall e, id (f e) = id e) ->
  forall i : nat, map id (on_element i f doc) = map id doc.
Proof.
  intros Hf. induction doc as [| e rest IH]; intros i.
  - destruct i; reflexivity.
  - destruct i as [| i]; cbn [on_element map]; [rewrite Hf | rewrite IH]; reflexivity.
Qed.

Lemma ids_for_all (f : Element -> Element) (elements : list nat) :
  (forall e, id (f e) = id e) ->
  forall doc : Document,
    map id (fold_left (fun doc i => on_element i f doc) elements doc) = map id doc.
Proof.
  intros Hf. induction elements as [| i rest IH]; intros doc.
  - reflexivity.
  - cbn [fold_left]. rewrite IH. apply ids_on_element, Hf.
Qed.

Lemma matching_ids (key : string) (doc : Document) :
  forall (doc' : Document) (from : nat),
    map id doc = map id doc' ->
    matching (has_id key) from doc = matching (has_id key) from doc'.
Proof.
  induction doc as [| e rest IH]; intros [| e' rest'] from H; try discriminate.
  - reflexivity.
  - cbn [map] in H. assert (He : id e = id e') by congruence.
    assert (Hrest : map id rest = map id rest') by congruence.
    cbn [matching]. rewrite (IH rest' (S from) Hrest).
    assert (Hk : has_id key e = has_id key e') by (unfold has_id; rewrite He; reflexivity).
    rewrite Hk. reflexivity.
Qed.

Lemma getElementById_ids (key : string) (doc doc' : Document) :
  map id doc = map id doc' -> getElementById key doc = getElementById key doc'.
Proof. intros H. unfold getElementById. rewrite (matching_ids key doc doc' 0 H). reflexivity. Qed.

Lemma id_remove (token : string) (e : Element) : id (classList_remove token e) = id e.
Proof. reflexivity. Qed.

Lemma id_add (token : string) (e : Element) : id (classList_add token e) = id e.
Proof. unfold classList_add. destruct (contains token e); reflexivity. Qed.

Lemma data_tab_add (token : string) (e : Element) :
  data_tab (classList_add token e) = data_tab e.
Proof. unfold classList_add. destruct (contains token e); reflexivity. Qed.

Lemma contains_remove (token other : string) (e : Element) :
  contains other (classList_remove token e)
  = negb (String.eqb token other) && contains other e.
Proof.
  unfold contains, classList_remove. cbn [classList].
  induction (classList e) as [| t rest IH]; cbn [filter existsb].
  - rewrite andb_false_r. reflexivity.
  - destruct (String.eqb token t) eqn:Et; cbn [negb existsb].
    + rewrite IH. apply String.eqb_eq in Et. subst t.
      destruct (String.eqb other token) eqn:Eo.
      * apply String.eqb_eq in Eo. subst other. rewrite String.eqb_refl. reflexivity.
      * reflexivity.
    + rewrite IH. destruct (String.eqb other t) eqn:Eo.
      * apply String.eqb_eq in Eo. subst t. rewrite Et. reflexivity.
      * reflexivity.
Qed.

Lemma contains_add (token other : string) (e : Element) :
  contains other (classList_add token e)
  = String.eqb token other || contains other e.
Proof.
  unfold classList_add. destruct (contains token e) eqn:Hc.
  - destruct (String.eqb token other) eqn:Eo; [| reflexivity].
    apply String.eqb_eq in Eo. subst other. rewrite Hc. reflexivity.
  - unfold contains. cbn [classList]. rewrite existsb_app. cbn [existsb].
    rewrite orb_false_r, (String.eqb_sym other token). apply orb_comm.
Qed.

Lemma remove_remove (token : string) (e : Element) :
  classList_remove token (classList_remove token e) = classList_remove token e.
Proof.
  unfold classList_remove. cbn [id classList data_tab]. f_equal.
  induction (classList e) as [| t rest IH]; [reflexivity |].
  cbn [filter]. destruct (negb (String.eqb token t)) eqn:Et; [| exact IH].
  cbn [filter]. rewrite Et, IH. reflexivity.
Qed.

Lemma add_add (token : string) (e : Element) :
  classList_add token (classList_add token e) = classList_add token e.
Proof.
  unfold classList_add at 1. rewrite contains_add, String.eqb_refl. reflexivity.
Qed.

Lemma remove_add (token : string) (e : Element) :
  classList_remove token (classList_add token e) = classList_remove token e.
Proof.
  unfold classList_add. destruct (contains token e); [reflexivity |].
  unfold classList_remove. cbn [id classList data_tab]. f_equal.
  rewrite filter_app. cbn [filter]. rewrite String.eqb_refl. cbn [negb].
  apply app_nil_r.
Qed.

Section Click.

Variable tem : JSValue -> string -> string.

(** What a click does, element by element. *)
Lemma tab_click_outcome (tabButtons tabPanes : list nat) (button : nat) (doc : Document) :
  exists doc' : Document,
    tab_click tem tabButtons tabPanes button doc
    = match getElementById (target_key button doc) doc with
      | Some _ => Returns doc' tt
      | None => Throws doc' (Error (tem VNull "classList"))
      end
    /\ forall j : nat,
         nth_error doc' j
         = option_map (clicked tabButtons tabPanes button
                               (getElementById (target_key button doc) doc) j)
                      (nth_error doc j).
Proof.
  pose (doc1 := fold_left (fun doc i => on_element i (classList_remove "active") doc)
                          tabButtons doc).
  pose (doc2 := fold_left (fun doc i => on_element i (classList_remove "active") doc)
                          tabPanes doc1).
  pose (doc3 := on_element button (classList_add "active") doc2).
  assert (Hids : map id doc3 = map id doc).
  { unfold doc3, doc2, doc1.
    rewrite ids_on_element by apply id_add.
    rewrite !ids_for_all by apply id_remove. reflexivity. }
  assert (Hrun : tab_click tem tabButtons tabPanes button doc
                 = match getElementById (target_key button doc) doc with
                   | Some pane => Returns (on_element pane (classList_add "active") doc3) tt
                   | None => Throws doc3 (Error (tem VNull "classList"))
                   end).
  { unfold tab_click, bind, gets, for_all, modify.
    fold doc1. fold doc2. fold doc3. fold (target_key button doc).
    rewrite (getElementById_ids (target_key button doc) doc3 doc Hids).
    destruct (getElementById (target_key button doc) doc); reflexivity. }
  assert (H3 : forall j,
             nth_error doc3 j
             = option_map (clicked tabButtons tabPanes button None j) (nth_error doc j)).
  { intros j. unfold doc3, doc2, doc1.
    rewrite nth_error_on_element.
    rewrite !nth_error_for_all by apply remove_remove.
    unfold clicked.
    destruct (nth_error doc j) as [e |]; cbn [option_map];
      destruct (among tabButtons j), (among tabPanes j), (Nat.eqb j button);
      reflexivity. }
  destruct (getElementById (target_key button doc) doc) as [pane |].
  - eexists. split; [exact Hrun |]. intros j.
    rewrite nth_error_on_element, H3. unfold clicked.
    destruct (nth_error doc j) as [e |]; cbn [option_map];
      destruct (Nat.eqb j pane); reflexivity.
  - eexists. split; [exact Hrun |]. exact H3.
Qed.

End Click.

(** What [clicked] keeps and what it changes. *)
Lemma clicked_spec (tabButtons tabPanes : list nat) (button : nat) (target : option nat)
      (j : nat) (e : Element) :
  let e' := clicked tabButtons tabPanes button target j e in
  id e' = id e
  /\ data_tab e' = data_tab e
  /\ (forall token, token <> "active" -> contains token e' = contains token e)
  /\ contains "active" e'
     = if Nat.eqb j button || match target with
                              | Some pane => Nat.eqb j pane
                              | None => false
                              end
       then true
       else if among tabButtons j || among tabPanes j then false
            else contains "active" e.
Proof.
  assert (Hne : forall token, token <> "active" -> String.eqb "active" token = false).
  { intros token H. apply String.eqb_neq. congruence. }
  unfold clicked.
  destruct (among tabButtons j), (among tabPanes j), (Nat.eqb j button),
           target as [pane |]; try destruct (Nat.eqb j pane); cbv zeta;
    (split; [rewrite ?id_add; reflexivity |]);
    (split; [rewrite ?data_tab_add; reflexivity |]);
    (split; [intros token H;
             rewrite ?contains_add, ?contains_remove, ?contains_add, ?contains_remove,
                     ?(Hne token H);
             reflexivity |]);
    rewrite ?contains_add, ?contains_remove, ?contains_add, ?contains_remove,
            ?String.eqb_refl;
    reflexivity.
Qed.

Lemma clicked_clicked (tabButtons tabPanes : list nat) (button : nat) (target : option nat)
      (j : nat) (e : Element) :
  clicked tabButtons tabPanes button target j
          (clicked tabButtons tabPanes button target j e)
  = clicked tabButtons tabPanes button target j e.
Proof.
  unfold clicked.
  destruct (among tabButtons j), (among tabPanes j), (Nat.eqb j button),
           target as [pane |]; try destruct (Nat.eqb j pane);
    rewrite ?add_add, ?remove_add, ?remove_remove, ?add_add, ?remove_add,
            ?remove_remove, ?add_add;
    reflexivity.
Qed.

Lemma pointwise_length (f : nat -> Element -> Element) (doc doc' : Document) :
  (forall j, nth_error doc' j = option_map (f j) (nth_error doc j)) ->
  List.length doc' = List.length doc.
Proof.
  intros H. apply Nat.le_antisymm.
  - apply nth_error_None. rewrite H.
    assert (E : nth_error doc (List.length doc) = None) by (apply nth_error_None; lia).
    rewrite E. reflexivity.
  - apply nth_error_None.
    assert (E : nth_error doc' (List.length doc') = None) by (apply nth_error_None; lia).
    rewrite H in E. destruct (nth_error doc (List.length doc')); [discriminate | reflexivity].
Qed.

Lemma pointwise_ids (f : nat -> Element -> Element) (doc doc' : Document) :
  (forall j e, id (f j e) = id e) ->
  (forall j, nth_error doc' j = option_map (f j) (nth_error doc j)) ->
  map id doc' = map id doc.
Proof.
  intros Hid H. apply nth_error_ext. intros j.
  rewrite !nth_error_map, H.
  destruct (nth_error doc j); [| reflexivity].
  cbn [option_map]. rewrite Hid. reflexivity.
Qed.

Lemma initializeTabs_listener (tem : JSValue -> string -> string) (doc0 : Document)
      (button : nat) (listener : M Document unit) :
  In (button, listener) (initializeTabs tem doc0) ->
  listener = tab_click tem (querySelectorAll_class "tab-btn" doc0)
                       (querySelectorAll_class "tab-pane" doc0) button
  /\ In button (querySelectorAll_class "tab-btn" doc0).
Proof.
  unfold initializeTabs. intros H. apply in_map_iff in H.
  destruct H as (b & E & Hin).
  assert (Eb : b = button) by (apply (f_equal fst) in E; exact E).
  subst b. apply (f_equal snd) in E. cbn [snd] in E. split; [symmetry; exact E | exact Hin].
Qed.

(** X20.  A click on a tab button whose [data-tab] names an element of the
    page returns, and afterwards the clicked button and the named element
    carry the class [active], every other tab button and tab pane does not,
    and all else is as before: the other classes of every element, the
    [active] class of elements that are neither button nor pane, and the
    number of elements. *)
Theorem tab_click_shows_target :
  forall (tem : JSValue -> string -> string) (doc0 doc : Document)
         (button pane : nat) (listener : M Document unit),
    In (button, listener) (initializeTabs tem doc0) ->
    getElementById (target_key button doc) doc = Some pane ->
    exists doc' : Document,
      listener doc = Returns doc' tt
      /\ List.length doc' = List.length doc
      /\ forall (j : nat) (e : Element),
           nth_error doc j = Some e ->
           exists e' : Element,
             nth_error doc' j = Some e'
             /\ id e' = id e
             /\ data_tab e' = data_tab e
             /\ (forall token, token <> "active" -> contains token e' = contains token e)
             /\ contains "active" e'
                = if Nat.eqb j button || Nat.eqb j pane then true
                  else if among (querySelectorAll_class "tab-btn" doc0) j
                          || among (querySelectorAll_class "tab-pane" doc0) j
                       then false
                       else contains "active" e.
Proof.
  intros tem doc0 doc button pane listener Hin Htarget.
  apply initializeTabs_listener in Hin. destruct Hin as [-> _].
  destruct (tab_click_outcome tem (querySelectorAll_class "tab-btn" doc0)
              (querySelectorAll_class "tab-pane" doc0) button doc) as (doc' & Hrun & Hpt).
  rewrite Htarget in Hrun, Hpt.
  exists doc'. split; [exact Hrun |]. split; [exact (pointwise_length _ _ _ Hpt) |].
  intros j e Hj. eexists. split; [rewrite Hpt, Hj; reflexivity |].
  apply (clicked_spec (querySelectorAll_class "tab-btn" doc0)
                      (querySelectorAll_class "tab-pane" doc0) button (Some pane) j e).
Qed.

(** X21.  A click on a tab button whose [data-tab] names no element of the
    page (or that has no [data-tab], unless an element is called [null])
    throws a [TypeError] after the classes were changed: the clicked button
    is [active] and no other tab button and no tab pane is, so no pane is
    shown. *)
Theorem tab_click_missing_target :
  forall (tem : JSValue -> string -> string) (doc0 doc : Document)
         (button : nat) (listener : M Document unit),
    In (button, listener) (initializeTabs tem doc0) ->
    getElementById (target_key button doc) doc = None ->
    exists doc' : Document,
      listener doc = Throws doc' (Error (tem VNull "classList"))
      /\ forall (j : nat) (e : Element),
           nth_error doc j = Some e ->
           exists e' : Element,
             nth_error doc' j = Some e'
             /\ contains "active" e'
                = if Nat.eqb j button then true
                  else if among (querySelectorAll_class "tab-btn" doc0) j
                          || among (querySelectorAll_class "tab-pane" doc0) j
                       then false
                       else contains "active" e.
Proof.
  intros tem doc0 doc button listener Hin Htarget.
  apply initializeTabs_listener in Hin. destruct Hin as [-> _].
  destruct (tab_click_outcome tem (querySelectorAll_class "tab-btn" doc0)
              (querySelectorAll_class "tab-pane" doc0) button doc) as (doc' & Hrun & Hpt).
  rewrite Htarget in Hrun, Hpt.
  exists doc'. split; [exact Hrun |].
  intros j e Hj. eexists. split; [rewrite Hpt, Hj; reflexivity |].
  destruct (clicked_spec (querySelectorAll_class "tab-btn" doc0)
                         (querySelectorAll_class "tab-pane" doc0) button None j e)
    as (_ & _ & _ & Hactive).
  rewrite Hactive, orb_false_r. reflexivity.
Qed.

(** X22.  Clicking a tab button a second time changes nothing: when a click
    returns, the same click on the page it left returns that page again. *)
Theorem tab_click_twice :
  forall (tem : JSValue -> string -> string) (doc0 doc doc' : Document)
         (button : nat) (listener : M Document unit),
    In (button, listener) (initializeTabs tem doc0) ->
    listener doc = Returns doc' tt ->
    listener doc' = Returns doc' tt.
Proof.
  intros tem doc0 doc doc' button listener Hin Hfirst.
  apply initializeTabs_listener in Hin. destruct Hin as [-> _].
  set (buttons := querySelectorAll_class "tab-btn" doc0) in *.
  set (panes := querySelectorAll_class "tab-pane" doc0) in *.
  destruct (tab_click_outcome tem buttons panes button doc) as (doc1 & Hrun & Hpt).
  rewrite Hfirst in Hrun.
  destruct (getElementById (target_key button doc) doc) as [pane |] eqn:Htarget;
    [| discriminate].
  assert (E1 : doc1 = doc') by congruence. subst doc1.
  assert (Hids : map id doc' = map id doc).
  { apply (pointwise_ids (clicked buttons panes button (Some pane))); [| exact Hpt].
    intros j e. apply (clicked_spec buttons panes button (Some pane) j e). }
  assert (Hkey : target_key button doc' = target_key button doc).
  { unfold target_key, getAttribute_data_tab. rewrite Hpt.
    destruct (nth_error doc button) as [e |]; [| reflexivity].
    cbn [option_map].
    destruct (clicked_spec buttons panes button (Some pane) button e) as (_ & -> & _).
    reflexivity. }
  destruct (tab_click_outcome tem buttons panes button doc') as (doc2 & Hrun2 & Hpt2).
  rewrite Hkey, (getElementById_ids (target_key button doc) doc' doc Hids), Htarget
    in Hrun2, Hpt2.
  rewrite Hrun2. f_equal. apply nth_error_ext. intros j.
  rewrite Hpt2, Hpt.
  destruct (nth_error doc j) as [e |]; [| reflexivity].
  cbn [option_map]. rewrite clicked_clicked. reflexivity.
Qed.

(** Two buttons and two panes, the first of each active; the second button
    is clicked. *)
Lemma tab_click_shows_target_witness :
  let tem := fun (_ : JSValue) (name : string) => "no " ++ name in
  let el := fun i classes tab => {| id := Some i; classList := classes; data_tab := tab |} in
  let doc := [el "b1" ["tab-btn"; "active"] (Some "p1"); el "b2" ["tab-btn"] (Some "p2");
              el "p1" ["tab-pane"; "active"] None; el "p2" ["tab-pane"] None] in
  let listener := tab_click tem [0; 1]%nat [2; 3]%nat 1 in
  In (1%nat, listener) (initializeTabs tem doc)
  /\ getElementById (target_key 1 doc) doc = Some 3%nat
  /\ exists doc' : Document,
       listener doc = Returns doc' tt
       /\ map (contains "active") doc' = [false; true; false; true]
       /\ map (contains "tab-btn") doc' = [true; true; false; false].
Proof.
  intros tem el doc listener.
  assert (Hin : In (1%nat, listener) (initializeTabs tem doc)) by (right; left; reflexivity).
  assert (Ht : getElementById (target_key 1 doc) doc = Some 3%nat) by reflexivity.
  split; [exact Hin |]. split; [exact Ht |].
  destruct (tab_click_shows_target tem doc doc 1 listener Hin Ht) as (doc' & Hrun & _ & _).
  exists doc'. split; [exact Hrun |].
  assert (E : listener doc
              = Returns [el "b1" ["tab-btn"] (Some "p1");
                         el "b2" ["tab-btn"; "active"] (Some "p2");
                         el "p1" ["tab-pane"] None;
                         el "p2" ["tab-pane"; "active"] None] tt) by reflexivity.
  rewrite E in Hrun. injection Hrun as <-. split; reflexivity.
Defined.

(** The second button names a pane that the page does not have. *)
Lemma tab_click_missing_target_witness :
  let tem := fun (_ : JSValue) (name : string) => "no " ++ name in
  let el := fun i classes tab => {| id := Some i; classList := classes; data_tab := tab |} in
  let doc := [el "b1" ["tab-btn"; "active"] (Some "p1"); el "b2" ["tab-btn"] (Some "p9");
              el "p1" ["tab-pane"; "active"] None; el "p2" ["tab-pane"] None] in
  let listener := tab_click tem [0; 1]%nat [2; 3]%nat 1 in
  In (1%nat, listener) (initializeTabs tem doc)
  /\ getElementById (target_key 1 doc) doc = None
  /\ exists doc' : Document,
       listener doc = Throws doc' (Error "no classList")
       /\ map (contains "active") doc' = [false; true; false; false].
Proof.
  intros tem el doc listener.
  assert (Hin : In (1%nat, listener) (initializeTabs tem doc)) by (right; left; reflexivity).
  assert (Ht : getElementById (target_key 1 doc) doc = None) by reflexivity.
  split; [exact Hin |]. split; [exact Ht |].
  destruct (tab_click_missing_target tem doc doc 1 listener Hin Ht) as (doc' & Hrun & _).
  exists doc'. split; [exact Hrun |].
  assert (E : listener doc
              = Throws [el "b1" ["tab-btn"] (Some "p1");
                        el "b2" ["tab-btn"; "active"] (Some "p9");
                        el "p1" ["tab-pane"] None;
                        el "p2" ["tab-pane"] None] (Error "no classList")) by reflexivity.
  rewrite E in Hrun. injection Hrun as <-. reflexivity.
Defined.

(** The second button is clicked twice. *)
Lemma tab_click_twice_witness :
  let tem := fun (_ : JSValue) (name : string) => "no " ++ name in
  let el := fun i classes tab => {| id := Some i; classList := classes; data_tab := tab |} in
  let doc := [el "b1" ["tab-btn"; "active"] (Some "p1"); el "b2" ["tab-btn"] (Some "p2");
              el "p1" ["tab-pane"; "active"] None; el "p2" ["tab-pane"] None] in
  let doc' := [el "b1" ["tab-btn"] (Some "p1"); el "b2" ["tab-btn"; "active"] (Some "p2");
               el "p1" ["tab-pane"] None; el "p2" ["tab-pane"; "active"] None] in
  let listener := tab_click tem [0; 1]%nat [2; 3]%nat 1 in
  In (1%nat, listener) (initializeTabs tem doc)
  /\ listener doc = Returns doc' tt
  /\ listener doc' = Returns doc' tt.
Proof.
  intros tem el doc doc' listener.
  assert (Hin : In (1%nat, listener) (initializeTabs tem doc)) by (right; left; reflexivity).
  assert (Hfirst : listener doc = Returns doc' tt) by reflexivity.
  split; [exact Hin |]. split; [exact Hfirst |].
  exact (tab_click_twice tem doc doc 1 listener Hin Hfirst).
Defined.

End TabsProperties.

(** ** The mobile menu *)

Module NavigationProperties.

Import JS Tabs Navigation TabsProperties.
Local Open Scope string_scope.

Lemma contains_toggle (e : Element) :
  contains "active" (classList_toggle "active" e) = negb (contains "active" e).
Proof.
  unfold classList_toggle. destruct (contains "active" e) eqn:H.
  - rewrite contains_remove. reflexivity.
  - rewrite contains_add. reflexivity.
Qed.

Lemma active_on_element (f : Element -> Element) (i j : nat) (doc : Document) :
  active j (on_element i f doc)
  = match nth_error doc j with
    | Some e => contains "active" (if Nat.eqb j i then f e else e)
    | None => false
    end.
Proof.
  unfold active. rewrite nth_error_on_element.
  destruct (Nat.eqb j i), (nth_error doc j); reflexivity.
Qed.

Lemma valid_on_element (f : Element -> Element) (i j : nat) (doc : Document) :
  (j < List.length (on_element i f doc))%nat <-> (j < List.length doc)%nat.
Proof.
  rewrite <- !nth_error_Some, nth_error_on_element.
  destruct (Nat.eqb j i), (nth_error doc j); cbn [option_map]; split; congruence.
Qed.

(** One click keeps the hamburger and the menu in step. *)
Lemma listener_in_step (tem : JSValue -> string -> string) (h m : nat) (click : Click)
      (doc : Document) :
  (h < List.length doc)%nat -> (m < List.length doc)%nat ->
  active h doc = active m doc ->
  let doc' := final_state (listener tem h (Some m) click doc) in
  (h < List.length doc')%nat /\ (m < List.length doc')%nat
  /\ active h doc' = active m doc'
  /\ (click = OnLink -> active h doc' = false).
Proof.
  intros Hh Hm Hstep.
  assert (Eh : exists eh, nth_error doc h = Some eh).
  { destruct (nth_error doc h) eqn:E; [eexists; reflexivity |].
    apply nth_error_None in E. lia. }
  assert (Em : exists em, nth_error doc m = Some em).
  { destruct (nth_error doc m) eqn:E; [eexists; reflexivity |].
    apply nth_error_None in E. lia. }
  destruct Eh as (eh & Eh), Em as (em & Em).
  unfold active in Hstep. rewrite Eh, Em in Hstep.
  destruct click; cbn [listener]; unfold hamburger_click, link_click, on_node, bind, modify;
    cbn [final_state]; cbv zeta.
  - split; [apply valid_on_element, valid_on_element, Hh |].
    split; [apply valid_on_element, valid_on_element, Hm |].
    split; [| discriminate].
    rewrite !active_on_element, !nth_error_on_element, Nat.eqb_refl, Eh, Em.
    cbn [option_map]. rewrite Nat.eqb_refl.
    destruct (Nat.eqb h m) eqn:E1, (Nat.eqb m h) eqn:E2;
      rewrite ?contains_toggle, ?Hstep; try reflexivity.
    + apply Nat.eqb_eq in E1. apply Nat.eqb_neq in E2. congruence.
    + apply Nat.eqb_neq in E1. apply Nat.eqb_eq in E2. congruence.
  - split; [apply valid_on_element, valid_on_element, Hh |].
    split; [apply valid_on_element, valid_on_element, Hm |].
    assert (Hoff : forall e, contains "active" (classList_remove "active" e) = false).
    { intros e. rewrite contains_remove. reflexivity. }
    rewrite !active_on_element, !nth_error_on_element, Nat.eqb_refl, Eh, Em.
    cbn [option_map]. rewrite Nat.eqb_refl.
    destruct (Nat.eqb h m), (Nat.eqb m h); rewrite ?Hoff; split; reflexivity.
Qed.

(** X23.  The mobile menu follows the hamburger: if both are there and agree
    on the class [active] to begin with, they agree after any sequence of
    clicks on the hamburger and on links of the menu; and after a click on a
    link neither is active, so the menu is closed. *)
Theorem menu_follows_hamburger :
  forall (tem : JSValue -> string -> string) (h m : nat) (clicks : list Click)
         (doc : Document),
    (h < List.length doc)%nat -> (m < List.length doc)%nat ->
    active h doc = active m doc ->
    active h (dispatch tem h (Some m) clicks doc)
    = active m (dispatch tem h (Some m) clicks doc)
    /\ active h (dispatch tem h (Some m) (clicks ++ [OnLink]) doc) = false
    /\ active m (dispatch tem h (Some m) (clicks ++ [OnLink]) doc) = false.
Proof.
  intros tem h m clicks. induction clicks as [| click rest IH]; intros doc Hh Hm Hstep.
  - split; [exact Hstep |].
    destruct (@listener_in_step tem h m OnLink doc Hh Hm Hstep) as (_ & _ & E & Hoff).
    cbn [app dispatch]. rewrite <- E. split; apply Hoff; reflexivity.
  - destruct (@listener_in_step tem h m click doc Hh Hm Hstep) as (Hh' & Hm' & E & _).
    cbn [app dispatch]. apply IH; assumption.
Qed.

(** The hamburger is clicked twice, then a link. *)
Lemma menu_follows_hamburger_witness :
  let tem := fun (_ : JSValue) (name : string) => "no " ++ name in
  let el := fun classes => {| id := None; classList := classes; data_tab := None |} in
  let doc := [el ["hamburger"]; el ["nav-menu"]; el ["nav-link"]] in
  (0 < List.length doc)%nat /\ (1 < List.length doc)%nat
  /\ active 0 doc = active 1 doc
  /\ map classList (dispatch tem 0 (Some 1%nat) [OnHamburger] doc)
     = [["hamburger"; "active"]; ["nav-menu"; "active"]; ["nav-link"]]
  /\ active 0 (dispatch tem 0 (Some 1%nat) [OnHamburger; OnHamburger] doc)
     = active 1 (dispatch tem 0 (Some 1%nat) [OnHamburger; OnHamburger] doc)
  /\ active 0 (dispatch tem 0 (Some 1%nat) ([OnHamburger; OnHamburger] ++ [OnLink]) doc)
     = false
  /\ active 1 (dispatch tem 0 (Some 1%nat) ([OnHamburger; OnHamburger] ++ [OnLink]) doc)
     = false.
Proof.
  intros tem el doc.
  assert (H0 : (0 < List.length doc)%nat) by (cbn [List.length doc]; lia).
  assert (H1 : (1 < List.length doc)%nat) by (cbn [List.length doc]; lia).
  assert (Hs : active 0 doc = active 1 doc) by reflexivity.
  split; [exact H0 |]. split; [exact H1 |]. split; [exact Hs |].
  split; [reflexivity |].
  exact (@menu_follows_hamburger tem 0%nat 1%nat [OnHamburger; OnHamburger] doc H0 H1 Hs).
Defined.

End NavigationProperties.
